(** * gttp: the request-compilation pipeline and the JSON renderer

    A shallow embedding of [main.go]: the escape decoder ([unescape]), the
    token classifier ([parseKeyValue]), the argument aggregator
    ([parseArgs]), value coercion ([addValues]), the body-assembly part of
    [main], and the JSON renderer ([printJSON]).

    Go strings are byte sequences, so they are modelled by [string] (a list
    of 8-bit [ascii]).  A [for i, c := range s] loop decodes UTF-8: it is
    modelled by [range_string], which yields the byte index and the rune of
    every iteration.  Runes ([int32]) are integers in [Z]. *)

From Stdlib Require Import ZArith Ascii Lia Bool.
From Stdlib Require SpecFloat.
From stdpp Require Import base option list strings gmap fin_maps sorting pretty.

Local Open Scope Z_scope.

(** ** Go strings: bytes, indexing and slicing *)

Module GoString.

Definition byte_val (a : ascii) : Z := Z.of_N (N_of_ascii a).
Definition byte_of (z : Z) : ascii := ascii_of_N (Z.to_N z).

(** [len(s)]. *)
Definition len (s : string) : nat := String.length s.

(** [s[i]]; [None] is the run-time panic of an index out of range. *)
Definition index (s : string) (i : nat) : option Z :=
  byte_val <$> String.get i s.

Fixpoint str_drop (n : nat) (s : string) : string :=
  match n, s with
  | O, _ => s
  | S n', String _ s' => str_drop n' s'
  | S _, EmptyString => EmptyString
  end.

Fixpoint str_take (n : nat) (s : string) : string :=
  match n, s with
  | O, _ => EmptyString
  | S n', String a s' => String a (str_take n' s')
  | S _, EmptyString => EmptyString
  end.

(** [s[n:]]; [None] is the run-time panic of a slice bound out of range. *)
Definition slice_from (s : string) (n : nat) : option string :=
  if (n <=? len s)%nat then Some (str_drop n s) else None.

End GoString.

(** ** UTF-8 as the Go runtime decodes and encodes it

    The repository relies on the language for two conversions: the rune
    decoding of [range] over a string and the [string([]rune)] conversion.
    Both are fixed by the Go language specification and are written out
    here. *)

Module Utf8.
Import GoString.

Definition rune := Z.

Definition RuneError : rune := 0xFFFD.
Definition MaxRune : rune := 0x10FFFF.

(** For a leading byte: the length of the sequence and the range accepted
    for the second byte; [None] for a byte that cannot start a sequence. *)
Definition first (b : Z) : option (nat * Z * Z) :=
  if b <? 0xC2 then None
  else if b <? 0xE0 then Some (2%nat, 0x80, 0xBF)
  else if b =? 0xE0 then Some (3%nat, 0xA0, 0xBF)
  else if b <? 0xED then Some (3%nat, 0x80, 0xBF)
  else if b =? 0xED then Some (3%nat, 0x80, 0x9F)
  else if b <? 0xF0 then Some (3%nat, 0x80, 0xBF)
  else if b =? 0xF0 then Some (4%nat, 0x90, 0xBF)
  else if b <? 0xF4 then Some (4%nat, 0x80, 0xBF)
  else if b =? 0xF4 then Some (4%nat, 0x80, 0x8F)
  else None.

Definition in_range (lo hi b : Z) : bool := (lo <=? b) && (b <=? hi).
Definition cont (b : Z) : bool := in_range 0x80 0xBF b.

(** The rune at the start of a non-empty string and its width in bytes.
    An invalid or truncated sequence decodes to [RuneError] of width 1. *)
Definition decoderune (s : string) : rune * nat :=
  match s with
  | EmptyString => (RuneError, 0%nat)
  | String a0 t0 =>
    let s0 := byte_val a0 in
    if s0 <? 0x80 then (s0, 1%nat)
    else
      match first s0, t0 with
      | Some (sz, lo, hi), String a1 t1 =>
        let s1 := byte_val a1 in
        if negb (in_range lo hi s1) then (RuneError, 1%nat)
        else
          match sz, t1 with
          | 2%nat, _ => ((s0 mod 32) * 64 + s1 mod 64, 2%nat)
          | _, String a2 t2 =>
            let s2 := byte_val a2 in
            if negb (cont s2) then (RuneError, 1%nat)
            else
              match sz, t2 with
              | 3%nat, _ =>
                ((s0 mod 16) * 4096 + (s1 mod 64) * 64 + s2 mod 64, 3%nat)
              | _, String a3 _ =>
                let s3 := byte_val a3 in
                if negb (cont s3) then (RuneError, 1%nat)
                else ((s0 mod 8) * 262144 + (s1 mod 64) * 4096
                      + (s2 mod 64) * 64 + s3 mod 64, 4%nat)
              | _, EmptyString => (RuneError, 1%nat)
              end
          | _, EmptyString => (RuneError, 1%nat)
          end
      | _, _ => (RuneError, 1%nat)
      end
  end.

(** [for i, c := range s]: the pairs [(i, c)] of the successive
    iterations.  [skip] counts the bytes still to pass over of the rune
    decoded last. *)
Fixpoint range_from (i skip : nat) (s : string) : list (nat * rune) :=
  match s with
  | EmptyString => []
  | String _ s' =>
    match skip with
    | S n => range_from (S i) n s'
    | O => (i, fst (decoderune s)) :: range_from (S i) (snd (decoderune s) - 1) s'
    end
  end.

Definition range_string (s : string) : list (nat * rune) := range_from 0 0 s.

Definition str3 (a b c : Z) : string :=
  String (byte_of a) (String (byte_of b) (String (byte_of c) EmptyString)).

(** The UTF-8 encoding of one rune; a rune out of range or a surrogate is
    encoded as [RuneError]. *)
Definition encoderune (r : rune) : string :=
  if (0 <=? r) && (r <=? 0x7F) then String (byte_of r) EmptyString
  else if (0 <=? r) && (r <=? 0x7FF) then
    String (byte_of (0xC0 + r / 64)) (String (byte_of (0x80 + r mod 64)) EmptyString)
  else if (r <? 0) || (MaxRune <? r) || in_range 0xD800 0xDFFF r then
    str3 0xEF 0xBF 0xBD
  else if r <=? 0xFFFF then
    str3 (0xE0 + r / 4096) (0x80 + (r / 64) mod 64) (0x80 + r mod 64)
  else
    String (byte_of (0xF0 + r / 262144))
           (str3 (0x80 + (r / 4096) mod 64) (0x80 + (r / 64) mod 64) (0x80 + r mod 64)).

(** [string(u)] for [u []rune]. *)
Fixpoint string_of_runes (u : list rune) : string :=
  match u with
  | [] => EmptyString
  | r :: u' => encoderune r +:+ string_of_runes u'
  end.

(** [utf8.ValidString]: no iteration of the range loop met an invalid
    byte. *)
Fixpoint valid_from (skip : nat) (s : string) : bool :=
  match s with
  | EmptyString => true
  | String a s' =>
    match skip with
    | S n => valid_from n s'
    | O => ((byte_val a <? 0x80) || negb (snd (decoderune s) =? 1)%nat)
           && valid_from (snd (decoderune s) - 1) s'
    end
  end.

Definition ValidString (s : string) : bool := valid_from 0 s.

End Utf8.

(** ** The escape decoder and the token classifier *)

Import GoString Utf8.

Inductive kvtype : Set :=
  | kvpUnknown
  | kvpHeader
  | kvpQuery
  | kvpBody
  | kvpJSON
  | kvpFile.

Definition rune_of (a : ascii) : rune := byte_val a.

(** The body of the loop of [unescape], over the runes still to visit. *)
Fixpoint unescape_loop (cs : list rune) (escape : bool) (u : list rune) : list rune :=
  match cs with
  | [] => u
  | c :: cs' =>
    if escape then unescape_loop cs' false (u ++ [c])
    else if c =? rune_of "\" then unescape_loop cs' true u
    else unescape_loop cs' false (u ++ [c])
  end.

Definition unescape (s : string) : string :=
  string_of_runes (unescape_loop (range_string s).*2 false []).

(** [i+1 < len(keyvalue) && keyvalue[i+1] == '=']. *)
Definition peek_eq (keyvalue : string) (i : nat) : option bool :=
  if (i + 1 <? len keyvalue)%nat
  then b ← index keyvalue (i + 1); Some (b =? rune_of "=")
  else Some false.

(** The loop of [parseKeyValue] over the remaining iterations [(i, c)];
    [None] is a run-time panic (index or slice out of range). *)
Fixpoint parseKeyValue_loop (keyvalue : string) (its : list (nat * rune))
    (escape : bool) (k : list rune) : option (kvtype * string * string) :=
  match its with
  | [] => Some (kvpUnknown, EmptyString, EmptyString)
  | (i, c) :: its' =>
    if escape then parseKeyValue_loop keyvalue its' false (k ++ [c])
    else if c =? rune_of "\" then parseKeyValue_loop keyvalue its' true k
    else if c =? rune_of ":" then
      p ← peek_eq keyvalue i;
      if p : bool then
        v ← slice_from keyvalue (i + 2);
        Some (kvpJSON, string_of_runes k, unescape v)
      else
        v ← slice_from keyvalue (i + 1);
        Some (kvpHeader, string_of_runes k, unescape v)
    else if c =? rune_of "=" then
      p ← peek_eq keyvalue i;
      if p : bool then
        v ← slice_from keyvalue (i + 2);
        Some (kvpQuery, string_of_runes k, unescape v)
      else
        v ← slice_from keyvalue (i + 1);
        Some (kvpBody, string_of_runes k, unescape v)
    else if c =? rune_of "@" then
      v ← slice_from keyvalue (i + 1);
      Some (kvpFile, string_of_runes k, unescape v)
    else parseKeyValue_loop keyvalue its' false (k ++ [c])
  end.

Definition parseKeyValue (keyvalue : string) : option (kvtype * string * string) :=
  parseKeyValue_loop keyvalue (range_string keyvalue) false [].

(** ** Notions used to state the properties of the decoder and the classifier *)

(** The five outcomes of decoding the rune at the start of a string. *)
Inductive decoded : string -> rune -> nat -> Prop :=
  | dec_ascii a t :
      byte_val a < 0x80 -> decoded (String a t) (byte_val a) 1
  | dec_invalid a t :
      0x80 <= byte_val a -> decoded (String a t) RuneError 1
  | dec_two a0 a1 t :
      0xC2 <= byte_val a0 <= 0xDF -> 0x80 <= byte_val a1 <= 0xBF ->
      decoded (String a0 (String a1 t))
              ((byte_val a0 - 0xC0) * 64 + (byte_val a1 - 0x80)) 2
  | dec_three a0 a1 a2 t :
      0xE0 <= byte_val a0 <= 0xEF -> 0x80 <= byte_val a1 <= 0xBF ->
      (byte_val a0 = 0xE0 -> 0xA0 <= byte_val a1) ->
      (byte_val a0 = 0xED -> byte_val a1 <= 0x9F) ->
      0x80 <= byte_val a2 <= 0xBF ->
      decoded (String a0 (String a1 (String a2 t)))
              ((byte_val a0 - 0xE0) * 4096 + (byte_val a1 - 0x80) * 64
               + (byte_val a2 - 0x80)) 3
  | dec_four a0 a1 a2 a3 t :
      0xF0 <= byte_val a0 <= 0xF4 -> 0x80 <= byte_val a1 <= 0xBF ->
      (byte_val a0 = 0xF0 -> 0x90 <= byte_val a1) ->
      (byte_val a0 = 0xF4 -> byte_val a1 <= 0x8F) ->
      0x80 <= byte_val a2 <= 0xBF -> 0x80 <= byte_val a3 <= 0xBF ->
      decoded (String a0 (String a1 (String a2 (String a3 t))))
              ((byte_val a0 - 0xF0) * 262144 + (byte_val a1 - 0x80) * 4096
               + (byte_val a2 - 0x80) * 64 + (byte_val a3 - 0x80)) 4.

(** A Unicode scalar value. *)
Definition scalar (c : rune) : Prop :=
  0 <= c <= MaxRune /\ ~ (0xD800 <= c <= 0xDFFF).

(** Whether the byte [b] occurs in [s]. *)
Fixpoint contains_byte (b : ascii) (s : string) : bool :=
  match s with
  | EmptyString => false
  | String a s' => bool_decide (a = b) || contains_byte b s'
  end.

Definition is_delim (c : rune) : bool :=
  (c =? rune_of ":") || (c =? rune_of "=") || (c =? rune_of "@").

Definition is_colon_or_eq (c : rune) : bool :=
  (c =? rune_of ":") || (c =? rune_of "=").

Definition cons_pre {A B C} (x : A) (r : option (list A * B * C)) :
    option (list A * B * C) :=
  match r with
  | Some (pre, d, post) => Some (x :: pre, d, post)
  | None => None
  end.

(** The scan of the loop of [parseKeyValue] on its own: it stops at the
    first rune that is not escaped and satisfies [P], and gives the
    iterations before it, its own, and those after it. *)
Fixpoint split_unescaped (P : rune -> bool) (its : list (nat * rune))
    (escape : bool) : option (list (nat * rune) * (nat * rune) * list (nat * rune)) :=
  match its with
  | [] => None
  | (i, c) :: its' =>
    if escape then cons_pre (i, c) (split_unescaped P its' false)
    else if c =? rune_of "\" then cons_pre (i, c) (split_unescaped P its' true)
    else if P c then Some ([], (i, c), its')
    else cons_pre (i, c) (split_unescaped P its' false)
  end.

Definition byte_is (s : string) (i : nat) (a : ascii) : bool :=
  bool_decide (String.get i s = Some a).

(** The delimiter that starts at byte [i] of [s]: its kind and its length. *)
Definition delimiter_at (s : string) (i : nat) : option (kvtype * nat) :=
  if byte_is s i ":" then
    if byte_is s (i + 1) "=" then Some (kvpJSON, 2%nat) else Some (kvpHeader, 1%nat)
  else if byte_is s i "=" then
    if byte_is s (i + 1) "=" then Some (kvpQuery, 2%nat) else Some (kvpBody, 1%nat)
  else if byte_is s i "@" then Some (kvpFile, 1%nat)
  else None.

(** The number of backslashes that stand immediately before byte [i]. *)
Fixpoint backslashes_before (s : string) (i : nat) : nat :=
  match i with
  | O => O
  | S j => if byte_is s j "\" then S (backslashes_before s j) else O
  end.

(** Byte [i] of [s] satisfies [P] and is not escaped: the backslashes
    immediately before it pair up. *)
Definition unescaped_at (P : rune -> bool) (s : string) (i : nat) : bool :=
  match index s i with
  | Some b => P b && Nat.even (backslashes_before s i)
  | None => false
  end.

Fixpoint first_unescaped_from (P : rune -> bool) (s : string) (n i : nat) : option nat :=
  match n with
  | O => None
  | S n' => if unescaped_at P s i then Some i else first_unescaped_from P s n' (S i)
  end.

(** The index of the first unescaped byte of [s] that satisfies [P]. *)
Definition first_unescaped (P : rune -> bool) (s : string) : option nat :=
  first_unescaped_from P s (len s) 0.

(** A predicate on runes that only holds of ASCII runes other than the
    backslash. *)
Definition ascii_pred (P : rune -> bool) : Prop :=
  forall c, P c = true -> 0 <= c < 0x80 /\ c <> rune_of "\".

(** What the loop returns once it stands on the delimiter [(i, c)] with
    the key runes [k]. *)
Definition at_delim (keyvalue : string) (i : nat) (c : rune) (k : list rune) :
    option (kvtype * string * string) :=
  parseKeyValue_loop keyvalue [(i, c)] false k.


(** The kind of the lone [:] or [=] at byte [i]. *)
Definition single_kind (s : string) (i : nat) : kvtype :=
  if byte_is s i ":" then kvpHeader else kvpBody.


(** ** Escaping: the inverse of the escape decoder

    Notions used to state how [unescape] and [parseKeyValue] read what
    was escaped. *)

(** The bytes with a meaning for the classifier. *)
Definition is_special (a : ascii) : bool :=
  bool_decide (a = "\"%char) || bool_decide (a = ":"%char)
  || bool_decide (a = "="%char) || bool_decide (a = "@"%char).

(** A backslash before every backslash and every delimiter byte. *)
Fixpoint escape (s : string) : string :=
  match s with
  | EmptyString => EmptyString
  | String a s' =>
    if is_special a then String "\" (String a (escape s')) else String a (escape s')
  end.

Definition is_special_rune (c : rune) : bool :=
  (c =? rune_of "\") || is_delim c.

Fixpoint escape_runes (u : list rune) : list rune :=
  match u with
  | [] => []
  | c :: u' =>
    if is_special_rune c then rune_of "\" :: c :: escape_runes u' else c :: escape_runes u'
  end.

(** No byte of the string has a meaning for the classifier. *)
Fixpoint no_special (s : string) : bool :=
  match s with
  | EmptyString => true
  | String a s' => negb (is_special a) && no_special s'
  end.

(** The delimiter of each kind of token. *)
Definition delimiter (t : kvtype) : string :=
  match t with
  | kvpUnknown => EmptyString
  | kvpHeader => ":"
  | kvpQuery => "=="
  | kvpBody => "="
  | kvpJSON => ":="
  | kvpFile => "@"
  end.

(** ** Slices of strings

    [kvpairs.query] and [kvpairs.body] hold slices.  A slice is a view of a
    backing array, and [append] writes into the array of its argument when
    there is room: two slices can share an array.  The arrays live in a
    store, and a slice is a pointer into it with a length and a capacity. *)

Module Slice.

Record t : Set := mk { ptr : option nat; len : nat; cap : nat }.

(** The nil slice, the zero value read from a map at a missing key. *)
Definition nil : t := mk None 0 0.

Abbreviation store := (list (list string)).

(** The elements of a slice. *)
Definition elems (h : store) (s : t) : list string :=
  match ptr s with
  | Some p => take (len s) (default [] (h !! p))
  | None => []
  end.

(** [append(s, v)].  With room left the element is written in place;
    otherwise the elements are copied to a new array, whose capacity the
    runtime chooses ([growcap], given the old capacity and the length
    needed) and which is at least the length needed. *)
Definition append (growcap : nat -> nat -> nat) (h : store) (s : t) (v : string) :
    store * t :=
  match ptr s with
  | Some p =>
    if (len s <? cap s)%nat
    then (alter (fun arr => <[len s := v]> arr) p h, mk (Some p) (S (len s)) (cap s))
    else
      let newcap := (S (len s) `max` growcap (cap s) (S (len s)))%nat in
      (h ++ [elems h s ++ v :: replicate (newcap - S (len s)) EmptyString],
       mk (Some (length h)) (S (len s)) newcap)
  | None =>
    let newcap := (1 `max` growcap 0 1)%nat in
    (h ++ [v :: replicate (newcap - 1) EmptyString], mk (Some (length h)) 1 newcap)
  end.

(** A slice points at an array of the store of its capacity. *)
Definition wf (h : store) (s : t) : Prop :=
  match ptr s with
  | Some p => exists arr, h !! p = Some arr /\ (len s <= cap s)%nat /\ cap s = length arr
  | None => len s = 0%nat
  end.

End Slice.

(** ** The argument aggregator *)

Record kvpairs : Type := mk_kvpairs {
  headers : gmap string string;
  query : gmap string Slice.t;
  body : gmap string Slice.t;
  js : gmap string string;
  file : gmap string string (* filename, not content *)
}.

Definition kvpairs_empty : kvpairs := mk_kvpairs ∅ ∅ ∅ ∅ ∅.

(** A map read [m[k]] of a map of slices: nil at a missing key. *)
Definition slice_at (m : gmap string Slice.t) (k : string) : Slice.t :=
  default Slice.nil (m !! k).

(** The outcome of a call that can return an error, or panic. *)
Inductive result (A : Type) : Type :=
  | Ok (a : A)
  | Err (msg : string)
  | Panic.
Arguments Ok {A} a.
Arguments Err {A} msg.
Arguments Panic {A}.

(** The [switch t] of [parseArgs], for one classified argument. *)
Definition parseArgs_store (growcap : nat -> nat -> nat)
    (st : Slice.store * kvpairs) (t : kvtype) (k v : string) :
    option (Slice.store * kvpairs) :=
  let '(h, kvp) := st in
  match t with
  | kvpUnknown => None
  | kvpHeader =>
    Some (h, mk_kvpairs (<[k := v]> (headers kvp)) (query kvp) (body kvp) (js kvp) (file kvp))
  | kvpQuery =>
    let vs := slice_at (query kvp) k in
    let '(h', vs') := Slice.append growcap h vs v in
    Some (h', mk_kvpairs (headers kvp) (<[k := vs']> (query kvp)) (body kvp) (js kvp) (file kvp))
  | kvpBody =>
    let vs := slice_at (query kvp) k in
    let '(h', vs') := Slice.append growcap h vs v in
    Some (h', mk_kvpairs (headers kvp) (query kvp) (<[k := vs']> (body kvp)) (js kvp) (file kvp))
  | kvpJSON =>
    Some (h, mk_kvpairs (headers kvp) (query kvp) (body kvp) (<[k := v]> (js kvp)) (file kvp))
  | kvpFile =>
    Some (h, mk_kvpairs (headers kvp) (query kvp) (body kvp) (js kvp) (<[k := v]> (file kvp)))
  end.

(** The loop of [parseArgs] over the remaining arguments. *)
Fixpoint parseArgs_loop (growcap : nat -> nat -> nat) (args : list string)
    (st : Slice.store * kvpairs) : result (Slice.store * kvpairs) :=
  match args with
  | [] => Ok st
  | arg :: args' =>
    match parseKeyValue arg with
    | None => Panic
    | Some (t, k, v) =>
      match parseArgs_store growcap st t k v with
      | None => Err ("bad key/value: " +:+ arg)
      | Some st' => parseArgs_loop growcap args' st'
      end
    end
  end.

Definition parseArgs (growcap : nat -> nat -> nat) (args : list string) :
    result (Slice.store * kvpairs) :=
  parseArgs_loop growcap args ([], kvpairs_empty).

(** The values of a key of [kvp.query] and of [kvp.body], as a list. *)
Definition query_values (st : Slice.store * kvpairs) (k : string) : list string :=
  Slice.elems st.1 (slice_at (query st.2) k).

Definition body_values (st : Slice.store * kvpairs) (k : string) : list string :=
  Slice.elems st.1 (slice_at (body st.2) k).

(** *** Notions used to state the properties of the aggregator *)

#[global] Instance kvtype_eq_dec : EqDecision kvtype.
Proof. solve_decision. Defined.

(** The slices held by [kvp.query] point at arrays of the store, and no
    two keys share an array. *)
Definition query_inv (st : Slice.store * kvpairs) : Prop :=
  (forall k s, query st.2 !! k = Some s -> Slice.wf st.1 s /\ is_Some (Slice.ptr s)) /\
  (forall k1 k2 s1 s2,
     query st.2 !! k1 = Some s1 -> query st.2 !! k2 = Some s2 ->
     Slice.ptr s1 = Slice.ptr s2 -> k1 = k2).

(** The values of the arguments of kind [t] and key [k], in the order of
    the command line. *)
Definition tokens_of (t : kvtype) (k : string) (args : list string) : list string :=
  omap (fun arg =>
          match parseKeyValue arg with
          | Some (t', k', v) =>
            if decide (t' = t /\ k' = k) then Some v else None
          | None => None
          end) args.

(** The value a map that is overwritten holds at [k] after [vs] were
    written there in turn. *)
Definition last_write (old : option string) (vs : list string) : option string :=
  match last vs with
  | Some v => Some v
  | None => old
  end.

(** *** Further notions used to state the properties of the aggregator *)

(** The list [kvp.body] holds for [k] is [E], and its array is shared with
    no list of [kvp.query] other than that of [k]. *)
Definition body_inv (k : string) (E : list string) (st : Slice.store * kvpairs) : Prop :=
  let B := slice_at (body st.2) k in
  Slice.elems st.1 B = E /\ Slice.wf st.1 B /\
  (forall k' s', query st.2 !! k' = Some s' -> Slice.ptr s' = Slice.ptr B -> k' = k).

(** The keys of the Query tokens, in the order of the command line. *)
Definition query_keys (args : list string) : list string :=
  omap (fun arg =>
          match parseKeyValue arg with
          | Some (kvpQuery, k, _) => Some k
          | _ => None
          end) args.

(** The kinds of the arguments, in the order of the command line. *)
Definition kinds (args : list string) : list kvtype :=
  omap (fun arg => (fun r : kvtype * string * string => r.1.1) <$> parseKeyValue arg) args.

(** ** Decoded values

    [interface{}] is used at the dynamic types that reach [addValues] and
    [printJSON]: what [encoding/json] decodes into, and the strings and
    string slices that [main] puts into [bodyparams]. *)

#[warnings="-register-all"] Inductive value : Type :=
  | VNil                                 (* nil: a decoded null *)
  | VBool (b : bool)                     (* bool *)
  | VString (s : string)                 (* string *)
  | VFloat64 (f : SpecFloat.spec_float)       (* float64: a number decoded by json.Unmarshal *)
  | VNumber (n : string)                 (* json.Number: a number decoded with UseNumber *)
  | VStrings (vs : list string)          (* []string *)
  | VMap (m : list (string * value))     (* map[string]interface{}, in the order a range loop visits it *)
  | VSlice (vs : list value).            (* []interface{} *)

(** [reflect.TypeOf(v)] as [fmt] prints it. *)
Definition type_name (v : value) : string :=
  match v with
  | VNil => "<nil>"
  | VBool _ => "bool"
  | VString _ => "string"
  | VFloat64 _ => "float64"
  | VNumber _ => "json.Number"
  | VStrings _ => "[]string"
  | VMap _ => "map[string]interface {}"
  | VSlice _ => "[]interface {}"
  end.

(** [v[key]] for a map value. *)
Fixpoint map_index (m : list (string * value)) (key : string) : value :=
  match m with
  | [] => VNil
  | (k, v) :: m' => if decide (k = key) then v else map_index m' key
  end.

(** ** The collaborators of the program

    What the program takes from the Go runtime, the standard library and
    the terminal-colour package, as far as the modelled code calls it. *)

Inductive color : Set :=
  | ct_None | ct_Black | ct_Red | ct_Green | ct_Yellow | ct_Blue | ct_Magenta
  | ct_Cyan | ct_White.

(** The outcome of [os.Open] followed by reading the file to its end. *)
Inductive file_result : Type :=
  | OpenError (err : string)
  | ReadError (err : string)
  | FileData (contents : string).

Abbreviation Values := (gmap string (list string)).

Class Collaborators : Type := {
  (** capacity chosen by [append] for a new array: old capacity, length needed *)
  growcap : nat -> nat -> nat;
  (** the order in which a range loop visits a map *)
  map_range : forall {A : Type}, gmap string A -> list (string * A);
  map_range_perm : forall (A : Type) (m : gmap string A), map_range m ≡ₚ map_to_list m;
  (** [fmt.Sprintf("%g", f)] *)
  Sprintf_g : SpecFloat.spec_float -> string;
  (** [json.Unmarshal] into an [interface{}]; [None] when it returns an error *)
  json_Unmarshal : string -> option value;
  (** [json.Marshal] of [bodyparams]; [None] when it returns an error *)
  json_Marshal : gmap string value -> option string;
  (** [http.NewRequest(method, url, nil)]: the error, if any *)
  NewRequest_error : string -> string -> option string;
  (** [req.URL.Query()] for the request made from a URL *)
  URL_Query : string -> Values;
  (** [url.Values.Encode] *)
  Values_Encode : Values -> string;
  (** the files of the system *)
  os_Open : string -> file_result;
  (** [filepath.Base] *)
  filepath_Base : string -> string;
  (** the body written by a [multipart.Writer] and then closed, given the
      files (field name, file name, contents) and the fields (name, value)
      in the order written *)
  multipart_Bytes : list (string * string * string) -> list (string * string) -> string;
  (** [writer.FormDataContentType()] *)
  multipart_FormDataContentType : string;
  (** [strconv.Quote] *)
  strconv_Quote : string -> string;
  (** what [ct.ChangeColor] and [ct.ResetColor] write to the terminal *)
  ct_ChangeColor : color -> bool -> color -> bool -> string;
  ct_ResetColor : string
}.

(** ** Value coercion *)

(** [values.Add(key, value)]. *)
Definition Values_Add (values : Values) (key v : string) : Values :=
  <[key := default [] (values !! key) ++ [v]]> values.

(** The line that [log.Println] writes for the given message: the operands
    separated by blanks (the time stamp of the logger is left out). *)
Definition Println2 (a b : string) : string := a +:+ " " +:+ b.

Section AddValues.
Context `{Collaborators}.

(** [addValues(values, key, vals)]: the state is [values] and the lines
    logged so far.  In the case of a map the recursive call is made on a
    key, a string: it is the case [VString] and is written out. *)
Fixpoint addValues (st : Values * list string) (key : string) (vals : value) :
    Values * list string :=
  match vals with
  | VBool val =>
    if val then (Values_Add st.1 key "true", st.2)
    else (Values_Add st.1 key "false", st.2)
  | VString val => (Values_Add st.1 key val, st.2)
  | VFloat64 val => (Values_Add st.1 key (Sprintf_g val), st.2)
  | VMap val =>
    fold_left (fun st kv => (Values_Add st.1 key kv.1, st.2)) val st
  | VSlice val =>
    (fix loop (vs : list value) (st : Values * list string) :=
       match vs with
       | [] => st
       | v :: vs' => loop vs' (addValues st key v)
       end) val st
  | _ => (st.1, st.2 ++ [Println2 "unknown type: " (type_name vals)])
  end.

End AddValues.

(** *** Notions used to state the properties of value coercion *)

Section AddValuesSpec.
Context `{Collaborators}.

(** The strings [addValues] adds for a value, and the lines it logs. *)
Fixpoint added (v : value) : list string :=
  match v with
  | VBool b => [if b then "true" else "false"]
  | VString s => [s]
  | VFloat64 f => [Sprintf_g f]
  | VMap m => m.*1
  | VSlice vs =>
    (fix elements (vs : list value) : list string :=
       match vs with
       | [] => []
       | e :: vs' => added e ++ elements vs'
       end) vs
  | _ => []
  end.

Fixpoint logged (v : value) : list string :=
  match v with
  | VBool _ | VString _ | VFloat64 _ | VMap _ => []
  | VSlice vs =>
    (fix elements (vs : list value) : list string :=
       match vs with
       | [] => []
       | e :: vs' => logged e ++ elements vs'
       end) vs
  | _ => [Println2 "unknown type: " (type_name v)]
  end.

(** From [st] to [st'] the strings [vs] were added under [key], nothing
    else was changed, and the lines [ls] were logged. *)
Definition adds (st st' : Values * list string) (key : string)
    (vs ls : list string) : Prop :=
  default [] (st'.1 !! key) = default [] (st.1 !! key) ++ vs /\
  (forall k, k <> key -> st'.1 !! k = st.1 !! k) /\
  st'.2 = st.2 ++ ls.

End AddValuesSpec.

(** ** Compiling the request: [main] up to the point where the request is
    sent

    [main] either builds the request, stops in [log.Fatal], or panics; on
    the way it logs lines with [log.Println].  The flags other than [-f]
    ([postform]) and [-m] ([useMultipart]) are at their defaults. *)

Inductive outcome (A : Type) : Type :=
  | Done (a : A)
  | Fatal (msg : string)   (* log.Fatal(msg) *)
  | Panicked.              (* run-time panic *)
Arguments Done {A} a.
Arguments Fatal {A} msg.
Arguments Panicked {A}.

(** A computation over the lines logged so far. *)
Definition M (A : Type) : Type := list string -> outcome A * list string.

#[global] Instance M_ret : MRet M := fun A a log => (Done a, log).
#[global] Instance M_bind : MBind M := fun A B f m log =>
  match m log with
  | (Done a, log') => f a log'
  | (Fatal msg, log') => (Fatal msg, log')
  | (Panicked, log') => (Panicked, log')
  end.

Definition log_Fatal {A} (msg : string) : M A := fun log => (Fatal msg, log).
Definition log_Println (msg : string) : M unit := fun log => (Done tt, log ++ [msg]).
Definition panic {A} : M A := fun log => (Panicked, log).

Abbreviation Header := (gmap string (list string)).

Definition Header_Add (h : Header) (key v : string) : Header :=
  <[key := default [] (h !! key) ++ [v]]> h.
Definition Header_Set (h : Header) (key v : string) : Header :=
  <[key := [v]]> h.

Record Request : Type := mk_Request {
  Method : string;
  URL : string;                (* the URL the request was made from *)
  RawQuery : option string;    (* [req.URL.RawQuery] once it is assigned *)
  Headers : Header;
  Body : option string;        (* [None]: the request has no body *)
  ContentLength : Z
}.

Definition method_tokens : list string :=
  ["GET"; "HEAD"; "POST"; "PUT"; "DELETE"; "PURGE"; "TRACE"; "OPTIONS";
   "CONNECT"; "PATCH"].

Section Main.
Context `{Collaborators}.

(** The loop over [kvp.query] that adds the parameters. *)
Definition add_query (h : Slice.store) (q : gmap string Slice.t) (queryparams : Values) :
    Values :=
  fold_left (fun qp kvs =>
               fold_left (fun qp v => Values_Add qp kvs.1 v) (Slice.elems h kvs.2) qp)
            (map_range q) queryparams.

(** The loop over [kvp.body]. *)
Definition merge_body (h : Slice.store) (b : gmap string Slice.t)
    (bodyparams : gmap string value) : gmap string value :=
  fold_left (fun bp kv =>
               let v := Slice.elems h kv.2 in
               match v with
               | [v0] => <[kv.1 := VString v0]> bp
               | _ => <[kv.1 := VStrings v]> bp
               end)
            (map_range b) bodyparams.

(** The loop over [kvp.js]. *)
Fixpoint merge_js (l : list (string * string)) (bodyparams : gmap string value) :
    M (gmap string value) :=
  match l with
  | [] => mret bodyparams
  | (k, v) :: l' =>
    match json_Unmarshal v with
    | None => log_Fatal ("invalid json: " +:+ v)
    | Some vint => merge_js l' (<[k := vint]> bodyparams)
    end
  end.

(** The loop over [kvp.file] that looks for the key ["-"]; the state is
    [rawBodyFilename] and [postFiles]. *)
Definition find_raw_body (l : list (string * string)) (st : string * bool) :
    string * bool :=
  fold_left (fun st kv => if decide (kv.1 = "-") then (kv.2, false) else st) l st.

(** The loop that writes the files into the multipart body. *)
Fixpoint multipart_files (l : list (string * string)) :
    M (list (string * string * string)) :=
  match l with
  | [] => mret []
  | (k, v) :: l' =>
    match os_Open v with
    | OpenError err => log_Fatal ("unable to open file: " +:+ err)
    | ReadError err => log_Fatal ("unable to write file: " +:+ err)
    | FileData c =>
      parts ← multipart_files l';
      mret ((k, filepath_Base v, c) :: parts)
    end
  end.

(** The loop that adds the files as body values. *)
Fixpoint files_as_values (l : list (string * string)) (bodyparams : gmap string value) :
    M (gmap string value) :=
  match l with
  | [] => mret bodyparams
  | (k, v) :: l' =>
    match os_Open v with
    | OpenError err => log_Fatal ("unable to open file for body: " +:+ err)
    | ReadError err => log_Fatal ("error reading body contents: " +:+ err)
    | FileData val => files_as_values l' (<[k := VString val]> bodyparams)
    end
  end.

(** [values := url.Values{}] filled by [addValues] for every body parameter. *)
Definition form_values (bodyparams : gmap string value) : M Values :=
  fun log =>
    let st := fold_left (fun st kv => addValues st kv.1 kv.2)
                        (map_range bodyparams) (∅, log) in
    (Done st.1, st.2).

(** The fields written with [writer.WriteField]. *)
Definition multipart_fields (values : Values) : list (string * string) :=
  flat_map (fun kv => map (fun vv => (kv.1, vv)) kv.2) (map_range values).

(** "assemble the body": the body and the headers of the request. *)
Definition assemble (postform useMultipart : bool) (files : gmap string string)
    (bodyparams : gmap string value) (rawBodyFilename : string) (postFiles : bool)
    (hdr : Header) : M (option string * Header) :=
  if negb (bool_decide (rawBodyFilename = EmptyString)) then
    if (1 <? Z.of_nat (size files)) then
      log_Fatal "only one input file allowed when setting raw body"
    else
      _ ← (if (0 <? Z.of_nat (size bodyparams))
           then log_Println "extra body parameters ignored when setting raw body"
           else mret tt);
      match os_Open rawBodyFilename with
      | OpenError err => log_Fatal ("unable to open file for body: " +:+ err)
      | ReadError err => log_Fatal ("error reading body contents: " +:+ err)
      | FileData body =>
        mret (Some body, Header_Add hdr "Content-Type" "application/octet-stream")
      end
  else if postFiles && useMultipart then
    parts ← multipart_files (map_range files);
    values ← form_values bodyparams;
    mret (Some (multipart_Bytes parts (multipart_fields values)),
          Header_Add hdr "Content-Type" multipart_FormDataContentType)
  else if (0 <? Z.of_nat (size bodyparams)) || (0 <? Z.of_nat (size files)) then
    bodyparams ← files_as_values (map_range files) bodyparams;
    if postform then
      values ← form_values bodyparams;
      mret (Some (Values_Encode values),
            Header_Set hdr "Content-Type" "application/x-www-form-urlencoded")
    else
      mret (json_Marshal bodyparams, Header_Set hdr "Content-Type" "application/json")
  else mret (None, hdr).

(** [strconv.Itoa] of a length. *)
Definition Itoa (n : nat) : string := pretty n.

(** The body parameters: the loops over [kvp.body] and [kvp.js]. *)
Definition body_parameters (h : Slice.store) (kvp : kvpairs) : M (gmap string value) :=
  let bodyparams := merge_body h (body kvp) ∅ in
  merge_js (map_range (js kvp)) bodyparams.

(** From "if we have at least one file" to the end of "assemble the body". *)
Definition assemble_bundle (postform useMultipart : bool) (files : gmap string string)
    (bodyparams : gmap string value) (hdr : Header) : M (option string * Header) :=
  (* if we have at least one file, maybe upload with multipart *)
  let postFiles := (0 <? Z.of_nat (size files)) in
  let '(rawBodyFilename, postFiles) :=
    find_raw_body (map_range files) (EmptyString, postFiles) in
  assemble postform useMultipart files bodyparams rawBodyFilename postFiles hdr.

(** [main] from the call of [parseArgs] on: the request for an aggregated
    bundle. *)
Definition build_request (postform useMultipart : bool) (method : string)
    (methodProvided : bool) (u : string) (h : Slice.store) (kvp : kvpairs) :
    M Request :=
  (* update the raw query if we have any new parameters *)
  let rawquery :=
    if (0 <? Z.of_nat (size (query kvp)))
    then Some (Values_Encode (add_query h (query kvp) (URL_Query u)))
    else None in
  bodyparams ← body_parameters h kvp;
  '(body, hdr) ← assemble_bundle postform useMultipart (file kvp) bodyparams ∅;
  match body with
  | Some b =>
    mret (mk_Request (if methodProvided then method else "POST") u rawquery
            (Header_Set hdr "Content-Length" (Itoa (String.length b)))
            body (Z.of_nat (String.length b)))
  | None => mret (mk_Request method u rawquery hdr None 0)
  end.

(** The method named on the command line: the leading method token, or
    [POST] with the flag [-f]; [GET] otherwise. *)
Definition split_method (postform : bool) (args0 : string) (args : list string) :
    string * bool * list string :=
  let method := if postform then "POST" else "GET" in
  let methodProvided := postform in
  if bool_decide (args0 ∈ method_tokens)
  then (args0, true, tail args)
  else (method, methodProvided, args).

Definition main_request (postform useMultipart : bool) (args : list string) :
    M (option Request) :=
  match args with
  | [] => mret None (* flag.Usage(); return *)
  | args0 :: _ =>
    let '(method, methodProvided, args) := split_method postform args0 args in
    match args with
    | [] => panic (* args[0]: index out of range *)
    | a0 :: args =>
      (* add http:// if we need it *)
      let u :=
        if negb (String.prefix "http://" a0) && negb (String.prefix "https://" a0)
        then "http://" +:+ a0 else a0 in
      match NewRequest_error method u with
      | Some err => log_Fatal ("error creating request object: " +:+ err)
      | None =>
        match parseArgs growcap args with
        | Panic => panic
        | Err msg => log_Fatal msg
        | Ok (h, kvp) =>
          req ← build_request postform useMultipart method methodProvided u h kvp;
          mret (Some req)
        end
      end
    end
  end.

End Main.

(** *** Notions used to state the properties of the compilation *)

(** A body value as [main] stores it: the only element of a one-element
    list, the list itself otherwise. *)
Definition collapse (v : list string) : value :=
  match v with
  | [v0] => VString v0
  | _ => VStrings v
  end.

Definition raw_body_warning : string :=
  "extra body parameters ignored when setting raw body".


(** The method of the request as the command line determines it: a leading
    method token, else [POST] with the flag [-f], else [POST] when there is
    a body and [GET] when there is none. *)
Definition effective_method (postform : bool) (args : list string)
    (body : option string) : string :=
  match args with
  | token :: _ =>
    if bool_decide (token ∈ method_tokens) then token
    else if postform then "POST"
    else match body with Some _ => "POST" | None => "GET" end
  | [] => EmptyString
  end.


(** *** Further notions used to state the properties of the compilation *)

(** The arguments after a leading method token. *)
Definition after_method (args : list string) : list string :=
  match args with
  | token :: rest => if bool_decide (token ∈ method_tokens) then rest else args
  | [] => []
  end.

(** The URL argument with the scheme [main] gives it. *)
Definition with_scheme (a0 : string) : string :=
  if negb (String.prefix "http://" a0) && negb (String.prefix "https://" a0)
  then "http://" +:+ a0 else a0.

(** The method before the body is looked at. *)
Definition first_method (postform : bool) (args : list string) : string :=
  match args with
  | token :: _ =>
    if bool_decide (token ∈ method_tokens) then token
    else if postform then "POST" else "GET"
  | [] => EmptyString
  end.

Definition method_given (postform : bool) (args : list string) : bool :=
  match args with
  | token :: _ => bool_decide (token ∈ method_tokens) || postform
  | [] => false
  end.

(** A computation that does not panic. *)
Definition no_panic {A} (m : M A) : Prop := forall log log', m log <> (Panicked, log').

(** The content types that [main] gives a request. *)
Definition content_types `{Collaborators} : list string :=
  ["application/octet-stream"; multipart_FormDataContentType;
   "application/x-www-form-urlencoded"; "application/json"].

(** A file that can be opened and read to its end. *)
Definition readable `{Collaborators} (path : string) : Prop :=
  exists contents, os_Open path = FileData contents.



(** ** The JSON renderer

    [printJSON] writes to the standard output; the model gives the text
    written. *)

(** The line feed. *)
Definition nl : string := String "010"%char EmptyString.

Fixpoint repeat_string (n : nat) (s : string) : string :=
  match n with
  | O => EmptyString
  | S n' => s +:+ repeat_string n' s
  end.

(** [for i := 0; i < n; i++ { fmt.Print("    ") }] *)
Definition print_indent (n : Z) : string := repeat_string (Z.to_nat n) "    ".

(** The order of Go strings: bytes compared from left to right. *)
Definition string_le (s t : string) : Prop := String.leb s t = true.

#[global] Instance string_le_dec : RelDecision string_le.
Proof. intros s t. unfold string_le. apply _. Defined.

(** [sort.Strings]. *)
Definition sort_Strings (keys : list string) : list string :=
  merge_sort string_le keys.

Section PrintJSON.
Context `{Collaborators}.

(** The case [string] of [printJSON]. *)
Definition printJSON_string (v : string) (isKey : bool) : string :=
  (if isKey then ct_ChangeColor ct_Blue true ct_None false
   else ct_ChangeColor ct_Yellow false ct_None false)
  +:+ strconv_Quote v +:+ ct_ResetColor.

(** The loop over the sorted keys of a map; [printed] gives for a key what
    [printJSON(depth+1, v[key], false)] writes. *)
Fixpoint print_members (depth : Z) (printed : string -> string) (keys : list string)
    (needNL : bool) : string :=
  match keys with
  | [] => EmptyString
  | key :: keys' =>
    (if needNL then "," +:+ nl else EmptyString)
    +:+ print_indent depth
    +:+ printJSON_string key true
    +:+ ": "
    +:+ printed key
    +:+ print_members depth printed keys' true
  end.

(** The loop over the elements of a slice, each already printed. *)
Fixpoint print_elements (depth : Z) (printed : list string) (needNL : bool) : string :=
  match printed with
  | [] => EmptyString
  | e :: printed' =>
    (if needNL then "," +:+ nl else EmptyString)
    +:+ print_indent depth
    +:+ e
    +:+ print_elements depth printed' true
  end.

(** What a key of a map is printed as, given the members with their values
    printed. *)
Fixpoint printed_at (printed : list (string * string)) (key : string) : string :=
  match printed with
  | [] => EmptyString
  | (k, s) :: printed' => if decide (k = key) then s else printed_at printed' key
  end.

(** [printJSON(depth, val, isKey)].  The values of a map are printed member
    by member and looked up by key when the loop over the sorted keys
    reaches them. *)
Fixpoint printJSON (depth : Z) (val : value) (isKey : bool) : string :=
  match val with
  | VNil =>
    ct_ChangeColor ct_Blue false ct_None false +:+ "null" +:+ ct_ResetColor
  | VBool v =>
    ct_ChangeColor ct_Blue false ct_None false
    +:+ (if v then "true" else "false") +:+ ct_ResetColor
  | VString v => printJSON_string v isKey
  | VNumber v =>
    ct_ChangeColor ct_Blue false ct_None false +:+ v +:+ ct_ResetColor
  | VMap v =>
    match v with
    | [] => "{}"
    | _ =>
      let keys := sort_Strings v.*1 in
      let printed :=
        (fix members (m : list (string * value)) : list (string * string) :=
           match m with
           | [] => []
           | (k, e) :: m' => (k, printJSON (depth + 1) e false) :: members m'
           end) v in
      "{" +:+ nl
      +:+ print_members depth (printed_at printed) keys false
      +:+ nl
      +:+ print_indent (depth - 1)
      +:+ "}"
    end
  | VSlice v =>
    match v with
    | [] => "[]"
    | _ =>
      let printed :=
        (fix elements (vs : list value) : list string :=
           match vs with
           | [] => []
           | e :: vs' => printJSON (depth + 1) e false :: elements vs'
           end) v in
      "[" +:+ nl
      +:+ print_elements depth printed false
      +:+ nl
      +:+ print_indent (depth - 1)
      +:+ "]"
    end
  | _ => "unknown type: " +:+ type_name val +:+ nl
  end.

(** The line of one member. *)
Definition member_line (depth : Z) (m : list (string * value)) (key : string) : string :=
  print_indent depth +:+ printJSON (depth + 1) (VString key) true +:+ ": "
  +:+ printJSON (depth + 1) (map_index m key) false.

End PrintJSON.

(** *** The layout of the rendering, written out

    The text that the renderer is to write, given without the loops of
    [printJSON]: the indentation as a number of blanks, the line feed as
    the character 10, and the line of a member and of an element. *)

(** [n] blanks. *)
Fixpoint blanks (n : nat) : string :=
  match n with
  | O => EmptyString
  | S n' => String " "%char (blanks n')
  end.

(** The character 10. *)
Definition line_feed : string := String (ascii_of_nat 10) EmptyString.

(** Indentation by [depth] units of four blanks; none for a depth below
    one. *)
Definition indentation (depth : Z) : string := blanks (4 * Z.to_nat depth).

(** The order of the keys: lexicographic, byte by byte. *)
Fixpoint lexicographic (s t : string) : bool :=
  match s, t with
  | EmptyString, _ => true
  | String _ _, EmptyString => false
  | String a s', String b t' =>
    (N_of_ascii a <? N_of_ascii b)%N
    || ((N_of_ascii a =? N_of_ascii b)%N && lexicographic s' t')
  end.

Section Layout.
Context `{Collaborators}.

(** A key as it is printed: quoted, between the change to the colour of
    keys (bright blue) and the reset. *)
Definition printed_key (key : string) : string :=
  ct_ChangeColor ct_Blue true ct_None false +:+ strconv_Quote key +:+ ct_ResetColor.

(** The line of a member: the indentation, the key, a colon and a blank,
    and the value of the key rendered one level deeper. *)
Definition member_text (depth : Z) (m : list (string * value)) (key : string) : string :=
  indentation depth +:+ printed_key key +:+ ": "
  +:+ printJSON (depth + 1) (map_index m key) false.

(** The line of an element: the indentation and the element rendered one
    level deeper. *)
Definition element_text (depth : Z) (e : value) : string :=
  indentation depth +:+ printJSON (depth + 1) e false.

End Layout.

(** ** Basic authentication: the flag [-auth] *)

(** [strings.SplitN(s, ":", 2)]: the text before the first colon and the
    text after it; [None] when there is no colon and the result has one
    element. *)
Fixpoint SplitN_colon (s : string) : option (string * string) :=
  match s with
  | EmptyString => None
  | String a s' =>
    if bool_decide (a = ":"%char) then Some (EmptyString, s')
    else (fun up : string * string => (String a up.1, up.2)) <$> SplitN_colon s'
  end.

(** [req.SetBasicAuth(username, password)], given the base64 encoding. *)
Definition SetBasicAuth (base64 : string -> string) (hdr : Header)
    (username password : string) : Header :=
  Header_Set hdr "Authorization" ("Basic " +:+ base64 (username +:+ ":" +:+ password)).

(** The flag [-auth], when it is not empty: the user name and the password
    are the two elements of the split at the first colon; [None] is the
    run-time panic of [s[1]]. *)
Definition set_auth (base64 : string -> string) (auth : string) (hdr : Header) :
    option Header :=
  if bool_decide (auth = EmptyString) then Some hdr
  else
    match SplitN_colon auth with
    | Some (s0, s1) => Some (SetBasicAuth base64 hdr s0 s1)
    | None => None
    end.

(** ** The default headers and the headers of the command line *)

Definition defaultHeaders (host : string) : gmap string string :=
  {["User-Agent" := "gttp http for gophers"; "Accept" := "*/*"; "Host" := host]}.

Section Headers.
Context `{Collaborators}.
(** [textproto.CanonicalMIMEHeaderKey], which [Header.Set] applies to the
    key (the names that [main] writes out itself, [Content-Type] and
    [Content-Length], are in canonical form) *)
Variable canon : string -> string.

(** [for k, v := range m { req.Header.Set(k, v) }] *)
Definition set_headers (m : gmap string string) (hdr : Header) : Header :=
  fold_left (fun hdr kv => Header_Set hdr (canon kv.1) kv.2) (map_range m) hdr.

(** The headers of the request that is sent: the default headers, then
    those of the command line, on top of the headers [hdr] set with the
    body; [host] is [req.URL.Host]. *)
Definition final_headers (host : string) (user : gmap string string) (hdr : Header) :
    Header :=
  set_headers user (set_headers (defaultHeaders host) hdr).

End Headers.

(** ** Printing the request and the response *)

(** What a function wrote to the standard output, and whether it returned
    or panicked. *)
Inductive written : Type :=
  | Wrote (out : string)
  | PanickedAfter (out : string).

Definition after (out : string) (w : written) : written :=
  match w with
  | Wrote o => Wrote (out +:+ o)
  | PanickedAfter o => PanickedAfter (out +:+ o)
  end.

Definition and_then (w k : written) : written :=
  match w with
  | Wrote o => after o k
  | PanickedAfter o => PanickedAfter o
  end.

(** [h.Get(key)] for a key in canonical form: the first value of the key,
    the empty string without one. *)
Definition Header_Get (h : Header) (key : string) : string :=
  match h !! key with
  | Some (v :: _) => v
  | _ => EmptyString
  end.

Definition msgNoBinaryToTerminal : string :=
  nl +:+ nl
  +:+ "+-----------------------------------------+" +:+ nl
  +:+ "| NOTE: binary data not shown in terminal |" +:+ nl
  +:+ "+-----------------------------------------+".

Record flags : Set := mk_flags {
  onlyHeaders : bool;   (* -headers *)
  onlyBody : bool;      (* -body *)
  color_flag : bool;    (* -color *)
  noFormatting : bool;  (* -n *)
  rawOutput : bool      (* -raw *)
}.

(** The flags after [flag.Parse]: [-n] turns the colours off, and [-raw]
    sets the other four. *)
Definition adjust_flags (f : flags) : flags :=
  let color := if noFormatting f then false else color_flag f in
  if rawOutput f then mk_flags false true false true true
  else mk_flags (onlyHeaders f) (onlyBody f) color (noFormatting f) false.

Section Output.
Context `{Collaborators}.

(** What an iteration of the loops of [printHeaders] writes before it
    evaluates [headers[k][0]], and what it writes then. *)
Definition header_line_start (useColor : bool) (k : string) : string :=
  if useColor then
    ct_ChangeColor ct_Cyan false ct_None false +:+ k
    +:+ ct_ChangeColor ct_Black false ct_None false +:+ ct_ResetColor
    +:+ ": " +:+ ct_ChangeColor ct_Yellow false ct_None false
  else EmptyString.

Definition header_line_end (useColor : bool) (k v : string) : string :=
  if useColor then v +:+ ct_ResetColor +:+ nl
  else k +:+ ": " +:+ v +:+ nl.

Fixpoint print_header_lines (useColor : bool) (headers : Header) (keys : list string) :
    written :=
  match keys with
  | [] => Wrote EmptyString
  | k :: keys' =>
    match headers !! k with
    | Some (v :: _) =>
      after (header_line_start useColor k +:+ header_line_end useColor k v)
            (print_header_lines useColor headers keys')
    | _ => PanickedAfter (header_line_start useColor k) (* headers[k][0] *)
    end
  end.

Definition printHeaders (useColor : bool) (headers : Header) : written :=
  print_header_lines useColor headers (sort_Strings (map_range headers).*1).

(** [printRequestHeaders], given the fields of the request it reads. *)
Definition printRequestHeaders (useColor : bool) (Method Path RawQuery Proto : string)
    (Header : Header) : written :=
  let u := if bool_decide (Path = EmptyString) then "/" else Path in
  let u := if negb (bool_decide (RawQuery = EmptyString))
           then u +:+ "?" +:+ RawQuery else u in
  after
    ((if useColor then
        ct_ChangeColor ct_Green false ct_None false +:+ Method
        +:+ ct_ChangeColor ct_Cyan false ct_None false +:+ " " +:+ u
        +:+ ct_ChangeColor ct_Blue false ct_None false +:+ " " +:+ Proto
      else Method +:+ " " +:+ u +:+ " " +:+ Proto)
     +:+ nl)
    (and_then (printHeaders useColor Header) (Wrote nl)).

(** [printResponseHeaders], given the fields of the response it reads;
    [response.Status[:3]] panics for a status of less than three bytes. *)
Definition printResponseHeaders (useColor : bool) (Proto Status : string)
    (Header : Header) : written :=
  if useColor then
    if (3 <=? len Status)%nat then
      after
        (ct_ChangeColor ct_Blue false ct_None false
         +:+ Proto +:+ " " +:+ str_take 3 Status
         +:+ ct_ChangeColor ct_Cyan false ct_None false
         +:+ str_drop 3 Status +:+ nl)
        (and_then (printHeaders useColor Header) (Wrote nl))
    else PanickedAfter (ct_ChangeColor ct_Blue false ct_None false)
  else
    after (Proto +:+ " " +:+ Status +:+ nl)
          (and_then (printHeaders useColor Header) (Wrote nl)).

(** [json.NewDecoder] with [UseNumber], [Decode] into an [interface{}];
    [None] when it returns an error, which leaves the [interface{}] nil *)
Variable json_Decode : string -> option value.
(** [json.MarshalIndent] of the decoded value, with an indentation of four
    blanks; [None] when it returns an error, which leaves the bytes nil *)
Variable json_MarshalIndent : value -> option string.

(** What [main] writes for the body of the response, for the flags as
    adjusted; [content_type] is [response.Header.Get("Content-type")]. *)
Definition print_body (f : flags) (content_type body : string) : string :=
  if rawOutput f then body
  else if noFormatting f then
    if contains_byte "000" body then msgNoBinaryToTerminal else body
  else
    (* maybe do some formatting *)
    (if String.prefix "application/json" content_type then
       let j := default VNil (json_Decode body) in
       if color_flag f then printJSON 1 j false
       else default EmptyString (json_MarshalIndent j)
     else if String.prefix "text/" content_type then body
     else if contains_byte "000" body then msgNoBinaryToTerminal
     else body)
    (* formatted output ends with two newlines *)
    +:+ nl +:+ nl.

(** [main] from the response on: what it writes for the flags given on the
    command line.  [Header] holds the headers of the response under their
    canonical names, so that [Header.Get("Content-type")] reads the name
    [Content-Type]. *)
Definition show_response (f0 : flags) (Proto Status : string) (Header : Header)
    (body : string) : written :=
  let f := adjust_flags f0 in
  and_then
    (if negb (onlyBody f) then printResponseHeaders (color_flag f) Proto Status Header
     else Wrote EmptyString)
    (if negb (onlyHeaders f)
     then Wrote (print_body f (Header_Get Header "Content-Type") body)
     else Wrote EmptyString).

End Output.

(** *** Notions used to state the properties of the printers *)

(** A terminal-colour package that writes nothing to the output: one that
    drives the console through calls of the system. *)
Definition colourless `{Collaborators} : Prop :=
  (forall fg fgb bg bgb, ct_ChangeColor fg fgb bg bgb = EmptyString) /\
  ct_ResetColor = EmptyString.

(** The line of a header without colours. *)
Definition plain_header_line (headers : Header) (k : string) : string :=
  k +:+ ": " +:+ Header_Get headers k +:+ nl.

(** Two decoded values that are the same document: the objects have the
    same keys, in any order, with the same documents as their members, and
    the arrays have the same documents as their elements, in the same
    order. *)
Inductive same_document : value -> value -> Prop :=
  | same_scalar v : same_document v v
  | same_object m m' :
      NoDup m.*1 -> m'.*1 ≡ₚ m.*1 ->
      (forall k, k ∈ m.*1 -> same_document (map_index m k) (map_index m' k)) ->
      same_document (VMap m) (VMap m')
  | same_array vs vs' :
      length vs = length vs' ->
      (forall i v v', vs !! i = Some v -> vs' !! i = Some v' -> same_document v v') ->
      same_document (VSlice vs) (VSlice vs').

(** The line of one element of an array. *)
Definition element_line `{Collaborators} (depth : Z) (e : value) : string :=
  print_indent depth +:+ printJSON (depth + 1) e false.

(** ** A sample of the collaborators

    A small instance, to run the model on examples: maps are visited in the
    order of [map_to_list], two files exist, and the JSON decoder knows a few
    literals. *)

Module Sample.

Definition quote : string := String "034"%char EmptyString.

Definition Unmarshal (s : string) : option value :=
  if decide (s = "true") then Some (VBool true)
  else if decide (s = "false") then Some (VBool false)
  else if decide (s = "null") then Some VNil
  else if decide (s = "2") then Some (VFloat64 (SpecFloat.S754_finite false 1 1))
  else if decide (s = "[]") then Some (VSlice [])
  else None.

Definition Open (path : string) : file_result :=
  if decide (path = "body.bin") then FileData "raw bytes"
  else if decide (path = "b") then FileData "contents of b"
  else OpenError ("open " +:+ path +:+ ": no such file or directory").

(** Key and value pairs joined without escaping. *)
Definition Encode (v : Values) : string :=
  String.concat "&"
    (flat_map (fun kv => map (fun x => kv.1 +:+ "=" +:+ x) kv.2)
              (map_to_list v)).

Definition collaborators : Collaborators.
Proof.
  refine {|
    growcap := fun old n => (old + old)%nat;
    map_range := fun A m => map_to_list m;
    Sprintf_g := fun _ => "2";
    json_Unmarshal := Unmarshal;
    json_Marshal := fun _ => Some "{}";
    NewRequest_error := fun _ _ => None;
    URL_Query := fun _ => ∅;
    Values_Encode := Encode;
    os_Open := Open;
    filepath_Base := fun p => p;
    multipart_Bytes := fun _ _ => "--boundary--";
    multipart_FormDataContentType := "multipart/form-data; boundary=boundary";
    strconv_Quote := fun s => quote +:+ s +:+ quote;
    ct_ChangeColor := fun _ _ _ _ => EmptyString;
    ct_ResetColor := EmptyString
  |}.
  done.
Defined.

End Sample.
(** ** Proof automation for byte and rune arithmetic *)

Ltac zlia := intros; Z.to_euclidean_division_equations; lia.

Ltac zcmp :=
  repeat match goal with
  | |- context [?a <? ?b] => destruct (Z.ltb_spec a b); try (exfalso; zlia)
  | |- context [?a <=? ?b] => destruct (Z.leb_spec a b); try (exfalso; zlia)
  | |- context [?a =? ?b] => destruct (Z.eqb_spec a b); try (exfalso; zlia)
  end.

Ltac zbool :=
  repeat match goal with
  | H : negb _ = false |- _ => apply negb_false_iff in H
  | H : negb _ = true |- _ => apply negb_true_iff in H
  | H : _ && _ = true |- _ => apply andb_true_iff in H; destruct H
  | H : _ || _ = false |- _ => apply orb_false_iff in H; destruct H
  | H : (_ <? _) = true |- _ => apply Z.ltb_lt in H
  | H : (_ <? _) = false |- _ => apply Z.ltb_ge in H
  | H : (_ <=? _) = true |- _ => apply Z.leb_le in H
  | H : (_ <=? _) = false |- _ => apply Z.leb_gt in H
  | H : (_ =? _) = true |- _ => apply Z.eqb_eq in H
  | H : (_ =? _) = false |- _ => apply Z.eqb_neq in H
  end.

(** ** Facts about bytes, slicing and UTF-8 *)


Lemma byte_val_range a : 0 <= byte_val a < 256.
Proof.
  unfold byte_val. pose proof (N_ascii_bounded a). lia.
Qed.

Lemma byte_of_val a : byte_of (byte_val a) = a.
Proof.
  unfold byte_of, byte_val. rewrite N2Z.id. apply ascii_N_embedding.
Qed.

Lemma byte_val_of z : 0 <= z < 256 -> byte_val (byte_of z) = z.
Proof.
  intros Hz. unfold byte_of, byte_val.
  rewrite N_ascii_embedding by lia. lia.
Qed.

Lemma byte_val_inj a b : byte_val a = byte_val b -> a = b.
Proof.
  intros H. rewrite <- (byte_of_val a), <- (byte_of_val b). by rewrite H.
Qed.

Lemma app_cons a (s t : string) : String a s +:+ t = String a (s +:+ t).
Proof. reflexivity. Qed.

Lemma str_drop_0 s : str_drop 0 s = s.
Proof. by destruct s. Qed.

Lemma str_drop_empty n : str_drop n EmptyString = EmptyString.
Proof. by destruct n. Qed.

Lemma str_drop_drop n m s : str_drop n (str_drop m s) = str_drop (m + n) s.
Proof.
  revert s. induction m as [|m IH]; intros s; simpl.
  - done.
  - destruct s; [by rewrite str_drop_empty|apply IH].
Qed.

Lemma str_take_drop n s : str_take n s +:+ str_drop n s = s.
Proof.
  revert s. induction n as [|n IH]; intros [|a s]; simpl; try done.
  by rewrite app_cons, IH.
Qed.

Lemma len_take n s : (n <= len s)%nat -> len (str_take n s) = n.
Proof.
  revert s. induction n as [|n IH]; intros [|a s]; simpl; try done; try lia.
  intros H. rewrite IH; [done|lia].
Qed.

Lemma len_drop n s : len (str_drop n s) = (len s - n)%nat.
Proof.
  revert s. induction n as [|n IH]; intros [|a s]; simpl; try done.
Qed.

Lemma len_app s t : len (s +:+ t) = (len s + len t)%nat.
Proof. induction s as [|a s IH]; [done|rewrite !app_cons; simpl; by rewrite IH]. Qed.

Lemma app_assoc_str (s t u : string) : (s +:+ t) +:+ u = s +:+ t +:+ u.
Proof. induction s as [|a s IH]; [done|rewrite !app_cons; simpl; by rewrite IH]. Qed.

Lemma app_empty_r s : s +:+ EmptyString = s.
Proof. induction s as [|a s IH]; [done|rewrite !app_cons; simpl; by rewrite IH]. Qed.

Lemma str_take_take n m s : (n <= m)%nat -> str_take n (str_take m s) = str_take n s.
Proof.
  revert m s. induction n as [|n IH]; intros [|m] [|a s] H; simpl; try done; try lia.
  rewrite IH; [done|lia].
Qed.

Lemma str_take_empty n : str_take n EmptyString = EmptyString.
Proof. by destruct n. Qed.

Lemma str_drop_take n m s : str_drop n (str_take (n + m) s) = str_take m (str_drop n s).
Proof.
  revert s. induction n as [|n IH]; intros [|a s]; simpl; try done.
  by rewrite str_take_empty.
Qed.



Lemma decoderune_width a t :
  (1 <= (decoderune (String a t)).2 <= len (String a t))%nat.
Proof.
  unfold decoderune. repeat case_match; simpl; lia.
Qed.

Lemma range_from_skip i n s :
  range_from i n s = range_from (i + n) 0 (str_drop n s).
Proof.
  revert i n. induction s as [|a s IH]; intros i n.
  - by rewrite str_drop_empty.
  - destruct n as [|n]; simpl.
    + by rewrite Nat.add_0_r.
    + rewrite IH. f_equal. lia.
Qed.

Lemma range_from_cons i a t :
  range_from i 0 (String a t) =
  (i, (decoderune (String a t)).1)
    :: range_from (i + (decoderune (String a t)).2) 0
         (str_drop (decoderune (String a t)).2 (String a t)).
Proof.
  pose proof (decoderune_width a t) as Hw.
  change (range_from i 0 (String a t))
    with ((i, (decoderune (String a t)).1)
            :: range_from (S i) ((decoderune (String a t)).2 - 1) t).
  rewrite range_from_skip.
  destruct ((decoderune (String a t)).2) as [|w]; [lia|].
  simpl. rewrite Nat.sub_0_r. do 2 f_equal. lia.
Qed.

Lemma valid_from_skip n s : valid_from n s = valid_from 0 (str_drop n s).
Proof.
  revert n. induction s as [|a s IH]; intros n.
  - by rewrite str_drop_empty.
  - destruct n as [|n]; simpl; [done|apply IH].
Qed.

Lemma valid_from_cons a t :
  valid_from 0 (String a t) =
  ((byte_val a <? 0x80) || negb ((decoderune (String a t)).2 =? 1)%nat)
  && valid_from 0 (str_drop (decoderune (String a t)).2 (String a t)).
Proof.
  pose proof (decoderune_width a t) as Hw.
  change (valid_from 0 (String a t))
    with (((byte_val a <? 0x80) || negb ((decoderune (String a t)).2 =? 1)%nat)
          && valid_from ((decoderune (String a t)).2 - 1) t).
  rewrite valid_from_skip.
  destruct ((decoderune (String a t)).2) as [|w]; [lia|].
  simpl. by rewrite Nat.sub_0_r.
Qed.

(** Induction along the iterations of a range loop. *)
Lemma rune_ind (P : string -> Prop) :
  P EmptyString ->
  (forall a t, P (str_drop (decoderune (String a t)).2 (String a t)) -> P (String a t)) ->
  forall s, P s.
Proof.
  intros Hnil Hcons s.
  remember (len s) as n eqn:Hn. revert s Hn.
  induction n as [n IH] using lt_wf_ind. intros [|a t] Hn; [done|].
  apply Hcons. pose proof (decoderune_width a t) as Hw.
  eapply IH; [|done]. rewrite len_drop. lia.
Qed.


Lemma decoded_eq s c c' w : decoded s c' w -> c = c' -> decoded s c w.
Proof. by intros ? ->. Qed.

Lemma decoderune_spec a t :
  decoded (String a t) (decoderune (String a t)).1 (decoderune (String a t)).2.
Proof.
  pose proof (byte_val_range a) as Ha.
  unfold decoderune.
  destruct (Z.ltb_spec (byte_val a) 128) as [Hlt|Hge]; [by constructor|].
  destruct (first (byte_val a)) as [[[sz lo] hi]|] eqn:Hf; [|by constructor].
  destruct t as [|a1 t1]; [by constructor|].
  destruct (in_range lo hi (byte_val a1)) eqn:H1; simpl; [|by constructor].
  unfold first in Hf.
  repeat case_match; simplify_eq; simpl; try (by constructor).
  all: unfold cont, in_range in *; zbool.
  all: (eapply decoded_eq; [constructor|]); zlia.
Qed.

Lemma decoded_scalar s c w : decoded s c w -> scalar c.
Proof.
  destruct 1 as [a t ?|a t ?|a0 a1 t ??|a0 a1 a2 t ?????|a0 a1 a2 a3 t ??????];
    unfold scalar, MaxRune, RuneError;
    try pose proof (byte_val_range a); lia.
Qed.

Lemma decoded_ascii s c w : decoded s c w -> c < 0x80 ->
  exists a t, s = String a t /\ c = byte_val a /\ w = 1%nat.
Proof.
  destruct 1 as [a t ?|a t ?|a0 a1 t ??|a0 a1 a2 t ?????|a0 a1 a2 a3 t ??????];
    unfold RuneError; intros Hc; try lia.
  by exists a, t.
Qed.

Lemma byte_of_eq z a : z = byte_val a -> byte_of z = a.
Proof. intros ->. apply byte_of_val. Qed.

Ltac bytes_eq :=
  repeat match goal with
  | |- String _ _ = String _ _ => f_equal
  | |- byte_of _ = _ => apply byte_of_eq
  end.

Lemma encoderune_decoded s c w :
  decoded s c w ->
  (w <> 1%nat \/ exists a t, s = String a t /\ byte_val a < 0x80) ->
  encoderune c = str_take w s.
Proof.
  destruct 1 as [a t ?|a t ?|a0 a1 t ??|a0 a1 a2 t ?????|a0 a1 a2 a3 t ??????];
    intros Hv.
  - pose proof (byte_val_range a).
    unfold encoderune, str3, MaxRune, in_range. zcmp; simpl.
    by rewrite byte_of_val.
  - destruct Hv as [?|(? & ? & ? & ?)]; [done|]. simplify_eq. lia.
  - unfold encoderune, str3, MaxRune, in_range. zcmp; simpl.
    bytes_eq; zlia.
  - unfold encoderune, str3, MaxRune, in_range. zcmp; simpl.
    all: bytes_eq; zlia.
  - unfold encoderune, str3, MaxRune, in_range. zcmp; simpl.
    all: bytes_eq; zlia.
Qed.

Lemma encoderune_len c : (1 <= len (encoderune c) <= 4)%nat.
Proof. unfold encoderune, str3. repeat case_match; simpl; lia. Qed.

Lemma decoderune_encoderune c t :
  decoderune (encoderune c +:+ t) =
  (if decide (scalar c) then c else RuneError, len (encoderune c)).
Proof.
  unfold encoderune, str3, scalar, MaxRune, in_range, RuneError.
  case_decide as Hc.
  - zcmp; simpl; unfold decoderune, first, cont, in_range;
      rewrite ?byte_val_of by zlia; zcmp; simpl; f_equal; zlia.
  - zcmp; simpl; try (exfalso; lia); unfold decoderune, first, cont, in_range;
      rewrite ?byte_val_of by zlia; zcmp; simpl; f_equal; zlia.
Qed.

#[global] Arguments decoderune : simpl never.
#[global] Arguments encoderune : simpl never.

Lemma decoderune_take a t n :
  ((decoderune (String a t)).2 <= n)%nat ->
  decoderune (str_take n (String a t)) = decoderune (String a t).
Proof.
  destruct n as [|n].
  { pose proof (decoderune_width a t). lia. }
  destruct t as [|a1 [|a2 [|a3 t]]]; destruct n as [|[|[|n]]]; simpl str_take;
    try done.
  all: unfold decoderune; repeat case_match; simpl; try done; try lia.
Qed.

Lemma range_from_bounds j s i c :
  (i, c) ∈ range_from j 0 s -> (j <= i < j + len s)%nat.
Proof.
  revert j. induction s as [|a t IH] using rune_ind; intros j.
  - simpl. by intros ?%elem_of_nil.
  - rewrite range_from_cons. pose proof (decoderune_width a t) as Hw.
    intros [?|Hin]%elem_of_cons.
    + simplify_eq. simpl in *. lia.
    + apply IH in Hin. rewrite len_drop in Hin. simpl in *. lia.
Qed.

Lemma range_from_take j s pre i c post :
  range_from j 0 s = pre ++ (i, c) :: post ->
  range_from j 0 (str_take (i - j) s) = pre.
Proof.
  revert j pre. induction s as [|a t IH] using rune_ind; intros j pre.
  - by destruct pre.
  - rewrite range_from_cons. pose proof (decoderune_width a t) as Hw.
    destruct pre as [|p pre]; intros Heq; simplify_eq/=.
    + by rewrite Nat.sub_diag.
    + assert ((i, c) ∈ range_from (j + (decoderune (String a t)).2) 0
                 (str_drop (decoderune (String a t)).2 (String a t))) as Hin.
      { rewrite H0. apply elem_of_app. right. left. }
      apply range_from_bounds in Hin.
      pose proof (IH _ _ H0) as IH'.
      set (w := (decoderune (String a t)).2) in *.
      destruct (i - j)%nat as [|n] eqn:Hn; [lia|].
      change (String a (str_take n t)) with (str_take (S n) (String a t)).
      assert (str_take (S n) (String a t) =
              String a (str_take n t)) as Hs by done.
      rewrite Hs at 1. rewrite range_from_cons. rewrite <- Hs.
      rewrite decoderune_take by (fold w; lia). fold w.
      f_equal. replace (S n) with (w + (i - (j + w)))%nat by lia.
      by rewrite str_drop_take.
Qed.

Lemma range_from_shift' j k s : (range_from j 0 s).*2 = (range_from k 0 s).*2.
Proof.
  revert j k. induction s as [|a t IH] using rune_ind; intros j k; [done|].
  rewrite !range_from_cons. simpl. f_equal. apply IH.
Qed.

Lemma range_from_shift j s : (range_from j 0 s).*2 = (range_string s).*2.
Proof. apply range_from_shift'. Qed.

Lemma string_of_runes_range s :
  ValidString s = true -> string_of_runes (range_string s).*2 = s.
Proof.
  unfold ValidString.
  induction s as [|a t IH] using rune_ind; [done|].
  rewrite valid_from_cons. intros [Hv Hrest]%andb_true_iff.
  unfold range_string. rewrite range_from_cons. simpl.
  rewrite range_from_shift, (IH Hrest).
  rewrite (encoderune_decoded (String a t) _ _ (decoderune_spec a t)).
  - apply str_take_drop.
  - apply orb_true_iff in Hv as [Hv|Hv].
    + right. exists a, t. split; [done|]. by apply Z.ltb_lt.
    + left. apply negb_true_iff, Nat.eqb_neq in Hv. done.
Qed.

Lemma str_drop_app s t : str_drop (len s) (s +:+ t) = t.
Proof. induction s as [|a s IH]; [done|]. simpl. apply IH. Qed.

Lemma valid_string_of_runes u : ValidString (string_of_runes u) = true.
Proof.
  unfold ValidString. induction u as [|c u IH]; [done|].
  simpl. pose proof (encoderune_len c) as Hl.
  destruct (encoderune c +:+ string_of_runes u) as [|a t] eqn:Heq.
  { destruct (encoderune c); simpl in *; [lia|done]. }
  rewrite valid_from_cons, <- Heq, decoderune_encoderune. simpl.
  rewrite str_drop_app, IH, andb_true_r.
  apply orb_true_iff.
  destruct (decide (len (encoderune c) = 1%nat)) as [H1|H1].
  - left. apply Z.ltb_lt. revert Heq H1. unfold encoderune, str3.
    repeat case_match; simpl; intros; simplify_eq; try lia.
    rewrite app_cons in Heq. simplify_eq. zbool. rewrite byte_val_of; lia.
  - right. by apply negb_true_iff, Nat.eqb_neq.
Qed.

Lemma contains_byte_drop b n s :
  contains_byte b s = false -> contains_byte b (str_drop n s) = false.
Proof.
  revert s. induction n as [|n IH]; intros [|a s]; simpl; try done.
  intros [_ ?]%orb_false_iff. by apply IH.
Qed.

Lemma contains_byte_app b s t :
  contains_byte b (s +:+ t) = contains_byte b s || contains_byte b t.
Proof.
  induction s as [|a s IH]; [done|].
  rewrite app_cons. simpl. by rewrite IH, orb_assoc.
Qed.

Lemma range_no_backslash s :
  contains_byte "\" s = false ->
  Forall (fun c => c <> rune_of "\") (range_string s).*2.
Proof.
  induction s as [|a t IH] using rune_ind; [by constructor|].
  intros Hs. unfold range_string. rewrite range_from_cons. simpl.
  rewrite range_from_shift. constructor.
  - intros Hc. pose proof (decoderune_spec a t) as Hd.
    apply decoded_ascii in Hd as (a' & t' & ? & Ha & _);
      [|rewrite Hc; by vm_compute].
    simplify_eq. rewrite Hc in Ha. apply byte_val_inj in Ha. subst a'.
    done.
  - apply IH. by apply contains_byte_drop.
Qed.

Lemma unescape_loop_plain cs u :
  Forall (fun c => c <> rune_of "\") cs -> unescape_loop cs false u = u ++ cs.
Proof.
  intros H. revert u. induction H as [|c cs Hc _ IH]; intros u; simpl.
  - by rewrite app_nil_r.
  - apply Z.eqb_neq in Hc. rewrite Hc, IH. by rewrite <- app_assoc.
Qed.

Lemma encoderune_no_backslash c :
  c <> rune_of "\" -> contains_byte "\" (encoderune c) = false.
Proof.
  intros Hc. change (rune_of "\") with 92 in Hc.
  unfold encoderune, str3, in_range, MaxRune.
  repeat case_match; zbool; simpl; repeat (apply orb_false_iff; split); try done;
    apply bool_decide_eq_false; intros Heq;
    apply (f_equal byte_val) in Heq; rewrite byte_val_of in Heq by zlia;
    change (byte_val "\") with 92 in *; zlia.
Qed.

Lemma string_of_runes_no_backslash u :
  Forall (fun c => c <> rune_of "\") u ->
  contains_byte "\" (string_of_runes u) = false.
Proof.
  induction 1 as [|c u Hc _ IH]; [done|].
  simpl. by rewrite contains_byte_app, IH, encoderune_no_backslash.
Qed.

Lemma unescape_plain s :
  contains_byte "\" s = false -> unescape s = string_of_runes (range_string s).*2.
Proof.
  intros Hs. unfold unescape.
  by rewrite unescape_loop_plain by by apply range_no_backslash.
Qed.

Lemma unescape_valid_plain s :
  ValidString s = true -> contains_byte "\" s = false -> unescape s = s.
Proof.
  intros Hv Hs. rewrite unescape_plain by done. by apply string_of_runes_range.
Qed.

Lemma unescape_idem_plain s :
  contains_byte "\" s = false -> unescape (unescape s) = unescape s.
Proof.
  intros Hs. rewrite (unescape_plain s Hs).
  apply unescape_valid_plain.
  - apply valid_string_of_runes.
  - apply string_of_runes_no_backslash. by apply range_no_backslash.
Qed.

(** ** Facts about the token classifier *)

Lemma split_unescaped_app P its esc pre d post :
  split_unescaped P its esc = Some (pre, d, post) -> its = pre ++ d :: post.
Proof.
  revert esc pre. induction its as [|[i c] its IH]; intros esc pre; [done|].
  simpl. unfold cons_pre.
  repeat case_match; intros; simplify_eq; simpl; try done;
    f_equal; eapply IH; eauto.
Qed.

Lemma split_unescaped_sat P its esc pre d post :
  split_unescaped P its esc = Some (pre, d, post) -> P d.2 = true.
Proof.
  revert esc pre. induction its as [|[i c] its IH]; intros esc pre; [done|].
  simpl. unfold cons_pre.
  repeat case_match; intros; simplify_eq; simpl; try done; eapply IH; eauto.
Qed.

Lemma parseKeyValue_loop_split s its esc k :
  parseKeyValue_loop s its esc k =
  match split_unescaped is_delim its esc with
  | None => Some (kvpUnknown, EmptyString, EmptyString)
  | Some (pre, (i, c), _) => at_delim s i c (unescape_loop pre.*2 esc k)
  end.
Proof.
  revert esc k. induction its as [|[i c] its IH]; intros esc k; [done|].
  simpl. destruct esc.
  { rewrite IH. by destruct (split_unescaped is_delim its false) as [[[? [??]] ?]|]. }
  destruct (Z.eqb_spec c (rune_of "\")) as [->|Hb].
  { rewrite IH. by destruct (split_unescaped is_delim its true) as [[[? [??]] ?]|]. }
  change (is_delim c)
    with ((c =? rune_of ":") || (c =? rune_of "=") || (c =? rune_of "@")).
  destruct (Z.eqb_spec c (rune_of ":")) as [->|Hc]; simpl.
  { done. }
  destruct (Z.eqb_spec c (rune_of "=")) as [->|He]; simpl.
  { done. }
  destruct (Z.eqb_spec c (rune_of "@")) as [->|Ha]; simpl.
  { done. }
  rewrite IH. destruct (split_unescaped is_delim its false) as [[[? [??]] ?]|]; [|done].
  simpl. apply Z.eqb_neq in Hb. by rewrite Hb.
Qed.

Lemma get_drop i j s : String.get i (str_drop j s) = String.get (j + i) s.
Proof.
  revert s. induction j as [|j IH]; intros [|a s]; simpl; done.
Qed.

Lemma range_from_get j s i c :
  (i, c) ∈ range_from j 0 s -> c < 0x80 ->
  String.get (i - j) s = Some (byte_of c).
Proof.
  revert j. induction s as [|a t IH] using rune_ind; intros j.
  - simpl. by intros ?%elem_of_nil.
  - rewrite range_from_cons. pose proof (decoderune_width a t) as Hw.
    intros [?|Hin]%elem_of_cons Hc.
    + simplify_eq. rewrite Nat.sub_diag.
      pose proof (decoderune_spec a t) as Hd.
      apply decoded_ascii in Hd as (a' & t' & ? & -> & _); [|done].
      simplify_eq. simpl. by rewrite byte_of_val.
    + pose proof (range_from_bounds _ _ _ _ Hin) as Hb.
      apply IH in Hin; [|done]. rewrite get_drop in Hin. rewrite <- Hin.
      f_equal. lia.
Qed.

Lemma get_len_Some i s : (i < len s)%nat -> is_Some (String.get i s).
Proof.
  revert i. induction s as [|a s IH]; intros i; simpl; [lia|].
  destruct i; [by eexists|]. intros. apply IH. lia.
Qed.

Lemma get_len_None i s : (len s <= i)%nat -> String.get i s = None.
Proof.
  revert i. induction s as [|a s IH]; intros i; simpl; [done|].
  destruct i; [lia|]. intros. apply IH. lia.
Qed.

Lemma peek_eq_spec s i : peek_eq s i = Some (byte_is s (i + 1) "=").
Proof.
  unfold peek_eq, byte_is, index.
  destruct (Nat.ltb_spec (i + 1) (len s)) as [Hlt|Hge].
  - destruct (get_len_Some _ _ Hlt) as [a ->]. simpl. f_equal.
    destruct (decide (a = "="%char)) as [->|Hne].
    + by rewrite bool_decide_eq_true_2.
    + rewrite bool_decide_eq_false_2 by congruence.
      apply Z.eqb_neq. intros Heq. by apply byte_val_inj in Heq.
  - rewrite get_len_None by done. by rewrite bool_decide_eq_false_2.
Qed.

Lemma byte_is_len s i a : byte_is s i a = true -> (i < len s)%nat.
Proof.
  unfold byte_is. intros H%bool_decide_eq_true.
  destruct (Nat.ltb_spec i (len s)); [done|].
  by rewrite get_len_None in H.
Qed.

Lemma slice_from_le s n : (n <= len s)%nat -> slice_from s n = Some (str_drop n s).
Proof.
  intros H. unfold slice_from. by destruct (Nat.leb_spec n (len s)); [|lia].
Qed.

Lemma at_delim_spec s i c k :
  String.get i s = Some (byte_of c) -> is_delim c = true ->
  exists kind n,
    delimiter_at s i = Some (kind, n) /\
    at_delim s i c k =
      Some (kind, string_of_runes k, unescape (str_drop (i + n) s)).
Proof.
  intros Hget Hd.
  assert (i < len s)%nat as Hi.
  { destruct (Nat.ltb_spec i (len s)); [done|]. by rewrite get_len_None in Hget. }
  unfold at_delim, delimiter_at. simpl. rewrite peek_eq_spec.
  unfold byte_is at 1 3 5. rewrite Hget.
  unfold is_delim in Hd.
  destruct (Z.eqb_spec c (rune_of ":")) as [->|Hc]; simpl.
  { destruct (byte_is s (i + 1) "=") eqn:Hp; simpl.
    - apply byte_is_len in Hp. rewrite slice_from_le by lia. by eexists _, _.
    - rewrite slice_from_le by lia. by eexists _, _. }
  destruct (Z.eqb_spec c (rune_of "=")) as [->|He]; simpl.
  { destruct (byte_is s (i + 1) "=") eqn:Hp; simpl.
    - apply byte_is_len in Hp. rewrite slice_from_le by lia. by eexists _, _.
    - rewrite slice_from_le by lia. by eexists _, _. }
  destruct (Z.eqb_spec c (rune_of "@")) as [->|Ha]; simpl; [|done].
  rewrite slice_from_le by lia. by eexists _, _.
Qed.

Lemma split_range_string P s pre i c post :
  split_unescaped P (range_string s) false = Some (pre, (i, c), post) ->
  range_string (str_take i s) = pre /\ (i < len s)%nat /\ P c = true /\
  (c < 0x80 -> String.get i s = Some (byte_of c)).
Proof.
  intros Hsp. pose proof (split_unescaped_sat _ _ _ _ _ _ Hsp) as Hsat.
  apply split_unescaped_app in Hsp. unfold range_string in *.
  assert ((i, c) ∈ range_from 0 0 s) as Hin.
  { rewrite Hsp. apply elem_of_app. right. left. }
  split; [|split; [|split]].
  - rewrite <- (Nat.sub_0_r i) at 1. by eapply range_from_take.
  - apply range_from_bounds in Hin. lia.
  - done.
  - intros Hc. rewrite <- (Nat.sub_0_r i). by apply range_from_get.
Qed.


Lemma is_delim_ascii c : is_delim c = true -> c < 0x80.
Proof.
  unfold is_delim. intros H.
  repeat (apply orb_true_iff in H as [H|H]); apply Z.eqb_eq in H; by subst.
Qed.

Lemma first_unescaped_from_Some P s n i k :
  first_unescaped_from P s n i = Some k <->
  (i <= k < i + n)%nat /\ unescaped_at P s k = true /\
  (forall j, (i <= j < k)%nat -> unescaped_at P s j = false).
Proof.
  revert i. induction n as [|n IH]; intros i; simpl.
  { split; [done|]. intros [? _]. exfalso. lia. }
  destruct (unescaped_at P s i) eqn:Hi.
  - split.
    + intros [= <-]. split; [lia|]. split; [done|]. intros; exfalso; lia.
    + intros (Hk & Hu & Hfirst). f_equal.
      destruct (decide (i = k)) as [|Hne]; [done|].
      rewrite Hfirst in Hi by lia. done.
  - rewrite IH. split.
    + intros (Hk & Hu & Hfirst). split; [lia|]. split; [done|].
      intros j Hj. destruct (decide (j = i)) as [->|]; [done|]. apply Hfirst. lia.
    + intros (Hk & Hu & Hfirst).
      assert (k <> i) by (intros ->; congruence).
      split; [lia|]. split; [done|]. intros j Hj. apply Hfirst. lia.
Qed.

Lemma first_unescaped_from_None P s n i :
  first_unescaped_from P s n i = None <->
  (forall j, (i <= j < i + n)%nat -> unescaped_at P s j = false).
Proof.
  revert i. induction n as [|n IH]; intros i; simpl.
  { split; [intros _ j ?; exfalso; lia|done]. }
  destruct (unescaped_at P s i) eqn:Hi.
  - split; [done|]. intros Hall. rewrite Hall in Hi by lia. done.
  - rewrite IH. split.
    + intros Hall j Hj. destruct (decide (j = i)) as [->|]; [done|]. apply Hall. lia.
    + intros Hall j Hj. apply Hall. lia.
Qed.

Lemma first_unescaped_from_skip P s m n i :
  (forall j, (i <= j < i + m)%nat -> unescaped_at P s j = false) ->
  first_unescaped_from P s (m + n) i = first_unescaped_from P s n (i + m).
Proof.
  revert i. induction m as [|m IH]; intros i Hall; simpl.
  - by rewrite Nat.add_0_r.
  - rewrite Hall by lia. rewrite IH by (intros; apply Hall; lia).
    f_equal. lia.
Qed.

Lemma is_delim_ascii_pred : ascii_pred is_delim.
Proof.
  intros c Hc. unfold is_delim in Hc.
  repeat (apply orb_true_iff in Hc as [Hc|Hc]); apply Z.eqb_eq in Hc; by subst.
Qed.

Lemma is_colon_or_eq_ascii_pred : ascii_pred is_colon_or_eq.
Proof.
  intros c Hc. unfold is_colon_or_eq in Hc.
  repeat (apply orb_true_iff in Hc as [Hc|Hc]); apply Z.eqb_eq in Hc; by subst.
Qed.

Lemma decoded_high t c w :
  decoded t c w -> 0x80 <= c ->
  forall k, (k < w)%nat -> exists b, String.get k t = Some b /\ 0x80 <= byte_val b.
Proof.
  destruct 1 as [a t ?|a t ?|a0 a1 t ??|a0 a1 a2 t ?????|a0 a1 a2 a3 t ??????];
    intros Hc k Hk.
  - lia.
  - destruct k; [|lia]. by exists a.
  - destruct k as [|[|k]]; [exists a0|exists a1|lia]; split; try done; lia.
  - destruct k as [|[|[|k]]]; [exists a0|exists a1|exists a2|lia];
      split; try done; lia.
  - destruct k as [|[|[|[|k]]]]; [exists a0|exists a1|exists a2|exists a3|lia];
      split; try done; lia.
Qed.

Lemma fmap_cons_pre {A B C D} (f : list A * B * C -> D) (x : A) r :
  (forall pre d post, f (x :: pre, d, post) = f (pre, d, post)) ->
  f <$> cons_pre x r = f <$> r.
Proof. intros Hf. destruct r as [[[pre d] post]|]; simpl; [|done]. by rewrite Hf. Qed.

Lemma unescaped_at_high P s k b :
  ascii_pred P -> String.get k s = Some b -> 0x80 <= byte_val b ->
  unescaped_at P s k = false.
Proof.
  intros HP Hget Hb. unfold unescaped_at, index. rewrite Hget. simpl.
  destruct (P (byte_val b)) eqn:HPb; [|done]. apply HP in HPb. lia.
Qed.

Lemma backslashes_before_0 s k b :
  String.get k s = Some b -> b <> "\"%char -> backslashes_before s (S k) = 0%nat.
Proof.
  intros Hget Hb. simpl. unfold byte_is. rewrite Hget.
  by rewrite bool_decide_eq_false_2 by congruence.
Qed.

(** The scan of the loop over the runes finds the first unescaped byte. *)
Lemma split_unescaped_first P s :
  ascii_pred P ->
  forall t j esc,
    t = str_drop j s -> esc = Nat.odd (backslashes_before s j) ->
    (fun r => r.1.2.1) <$> split_unescaped P (range_from j 0 t) esc =
    first_unescaped_from P s (len t) j.
Proof.
  intros HP t. induction t as [|a t IH] using rune_ind; intros j esc Ht Hesc; [done|].
  rewrite range_from_cons.
  pose proof (decoderune_width a t) as Hw.
  pose proof (decoderune_spec a t) as Hd.
  set (c := (decoderune (String a t)).1) in *.
  set (w := (decoderune (String a t)).2) in *.
  assert (forall k, String.get k (String a t) = String.get (j + k) s) as Hget.
  { intros k. by rewrite Ht, get_drop. }
  assert (len (String a t) = (w + len (str_drop w (String a t)))%nat) as Hlen.
  { rewrite len_drop. lia. }
  assert (str_drop w (String a t) = str_drop (j + w) s) as Hrest.
  { rewrite Ht. apply str_drop_drop. }
  specialize (IH (j + w)%nat).
  (* a step that does not stop at this rune *)
  assert (forall esc',
            (forall k, (j <= k < j + w)%nat -> unescaped_at P s k = false) ->
            esc' = Nat.odd (backslashes_before s (j + w)) ->
            (fun r : list (nat * rune) * (nat * rune) * list (nat * rune) => r.1.2.1) <$>
              cons_pre (j, c) (split_unescaped P
                 (range_from (j + w) 0 (str_drop w (String a t))) esc') =
            first_unescaped_from P s (len (String a t)) j) as Hstep.
  { intros esc' Hnone Hesc'. rewrite fmap_cons_pre by done.
    rewrite (IH esc' Hrest Hesc'), Hlen. by rewrite first_unescaped_from_skip. }
  simpl split_unescaped.
  destruct (decide (c < 0x80)) as [Hlow|Hhigh].
  - (* an ASCII rune: the byte itself *)
    destruct (decoded_ascii _ _ _ Hd Hlow) as (a' & t' & [= <- <-] & Hc & Hw1).
    rewrite Hw1 in *.
    assert (String.get j s = Some a) as Hj.
    { rewrite <- (Nat.add_0_r j), <- Hget. done. }
    assert (unescaped_at P s j = P c && negb esc) as Hu.
    { unfold unescaped_at, index. rewrite Hj. simpl. rewrite <- Hc.
      by rewrite Hesc, Nat.negb_odd. }
    destruct (decide (a = "\"%char)) as [->|Ha].
    + (* a backslash *)
      assert (backslashes_before s (j + 1) = S (backslashes_before s j)) as Hbb.
      { rewrite Nat.add_1_r. simpl. unfold byte_is. rewrite Hj.
        by rewrite bool_decide_eq_true_2. }
      assert (P c = false) as HPc.
      { destruct (P c) eqn:HPc; [|done]. apply HP in HPc as [_ HPc]. by rewrite Hc in HPc. }
      assert ((c =? rune_of "\") = true) as Hbs by (by rewrite Hc).
      rewrite Hbs.
      destruct esc; apply Hstep;
        try (intros k Hk; replace k with j by lia; by rewrite Hu, HPc);
        by rewrite Hbb, Nat.odd_succ, <- Nat.negb_odd, <- Hesc.
    + (* another ASCII byte *)
      assert (backslashes_before s (j + 1) = 0%nat) as Hbb.
      { rewrite Nat.add_1_r. by apply (backslashes_before_0 _ _ a). }
      assert ((c =? rune_of "\") = false) as Hbs.
      { apply Z.eqb_neq. rewrite Hc. intros Heq. by apply byte_val_inj in Heq. }
      rewrite Hbs.
      destruct esc.
      * apply Hstep; [|by rewrite Hbb].
        intros k Hk. replace k with j by lia. rewrite Hu. by rewrite andb_false_r.
      * destruct (P c) eqn:HPc.
        -- simpl. by rewrite Hu.
        -- apply Hstep; [|by rewrite Hbb].
           intros k Hk. replace k with j by lia. by rewrite Hu.
  - (* a rune beyond ASCII: none of its bytes is a backslash or satisfies P *)
    assert (0x80 <= c) as Hc by lia.
    pose proof (decoded_high _ _ _ Hd Hc) as Hbytes.
    assert (forall k, (j <= k < j + w)%nat -> unescaped_at P s k = false) as Hnone.
    { intros k Hk. destruct (Hbytes (k - j)%nat) as (b & Hb & Hhi); [lia|].
      rewrite Hget in Hb. replace (j + (k - j))%nat with k in Hb by lia.
      by eapply unescaped_at_high. }
    assert (Nat.odd (backslashes_before s (j + w)) = false) as Hbb.
    { destruct (Hbytes (w - 1)%nat) as (b & Hb & Hhi); [lia|].
      rewrite Hget in Hb. replace (j + w)%nat with (S (j + (w - 1))) by lia.
      rewrite (backslashes_before_0 _ _ b); [done|done|].
      intros ->. revert Hhi. by vm_compute. }
    assert ((c =? rune_of "\") = false) as ->.
    { apply Z.eqb_neq. intros ->. revert Hc. by vm_compute. }
    assert (P c = false) as ->.
    { destruct (P c) eqn:HPc; [|done]. apply HP in HPc. lia. }
    destruct esc; by apply Hstep.
Qed.

Lemma parseKeyValue_split s :
  match first_unescaped is_delim s with
  | None => parseKeyValue s = Some (kvpUnknown, EmptyString, EmptyString)
  | Some i =>
    exists kind n,
      delimiter_at s i = Some (kind, n) /\
      parseKeyValue s =
        Some (kind, unescape (str_take i s), unescape (str_drop (i + n) s))
  end.
Proof.
  unfold first_unescaped, parseKeyValue.
  rewrite <- (split_unescaped_first is_delim s is_delim_ascii_pred s 0 false) by done.
  rewrite parseKeyValue_loop_split.
  fold (range_string s).
  destruct (split_unescaped is_delim (range_string s) false)
    as [[[pre [i c]] post]|] eqn:Hsp; simpl; [|done].
  apply split_range_string in Hsp as (Hpre & Hi & Hd & Hget).
  destruct (at_delim_spec s i c (unescape_loop pre.*2 false []))
    as (kind & n & Hk & Hat); [by auto using is_delim_ascii|done|].
  exists kind, n. split; [done|]. rewrite Hat. unfold unescape at 2.
  by rewrite Hpre.
Qed.

Lemma parseKeyValue_total s : is_Some (parseKeyValue s).
Proof.
  pose proof (parseKeyValue_split s) as H.
  destruct (first_unescaped is_delim s) as [i|].
  - destruct H as (? & ? & _ & ->). by eexists.
  - rewrite H. by eexists.
Qed.

(** ** Facts about escaping *)

Lemma escape_app s t : escape (s +:+ t) = escape s +:+ escape t.
Proof.
  induction s as [|a s IH]; [done|]. rewrite app_cons. cbn [escape].
  destruct (is_special a); by rewrite !app_cons, IH.
Qed.

Lemma is_special_byte a : is_special a = is_special_rune (byte_val a).
Proof.
  unfold is_special, is_special_rune, is_delim, rune_of.
  assert (forall b : ascii, bool_decide (a = b) = (byte_val a =? byte_val b)) as Hb.
  { intros b. case_bool_decide as Hab.
    - subst. by rewrite Z.eqb_refl.
    - symmetry. apply Z.eqb_neq. intros Heq. by apply byte_val_inj in Heq. }
  rewrite !Hb. by rewrite !orb_assoc.
Qed.

Lemma is_special_rune_low c : is_special_rune c = true -> 0 <= c < 0x80.
Proof.
  unfold is_special_rune. intros [Hc|Hc]%orb_true_iff.
  - apply Z.eqb_eq in Hc. by subst.
  - by apply is_delim_ascii_pred in Hc as [? _].
Qed.

Lemma escape_no_special s : no_special s = true -> escape s = s.
Proof.
  induction s as [|a s IH]; [done|]. cbn [no_special escape].
  intros [Ha Hs]%andb_true_iff.
  apply negb_true_iff in Ha. by rewrite Ha, IH.
Qed.

Lemma is_special_rune_high c : ~ (0 <= c < 0x80) -> is_special_rune c = false.
Proof.
  intros Hc. destruct (is_special_rune c) eqn:Hsp; [|done].
  by apply is_special_rune_low in Hsp.
Qed.

Lemma encoderune_no_special c :
  is_special_rune c = false -> no_special (encoderune c) = true.
Proof.
  intros Hc.
  unfold encoderune, str3, in_range, MaxRune.
  repeat case_match; zbool; cbn [no_special]; rewrite !is_special_byte;
    rewrite ?byte_val_of by zlia; rewrite ?Hc;
    rewrite ?is_special_rune_high by zlia; done.
Qed.

(** The encoding of a rune, escaped. *)
Lemma escape_encoderune c :
  escape (encoderune c) =
  if is_special_rune c then String "\" (encoderune c) else encoderune c.
Proof.
  destruct (is_special_rune c) eqn:Hsp.
  - apply is_special_rune_low in Hsp as Hlow.
    assert (encoderune c = String (byte_of c) EmptyString) as ->.
    { unfold encoderune.
      by rewrite (proj2 (Z.leb_le 0 c)), (proj2 (Z.leb_le c 0x7F)) by lia. }
    cbn [escape]. by rewrite is_special_byte, byte_val_of, Hsp by lia.
  - by apply escape_no_special, encoderune_no_special.
Qed.

Lemma escape_string_of_runes u :
  escape (string_of_runes u) = string_of_runes (escape_runes u).
Proof.
  induction u as [|c u IH]; [done|].
  simpl. rewrite escape_app, escape_encoderune, IH.
  destruct (is_special_rune c); [|done].
  simpl. by rewrite app_cons.
Qed.

Lemma escape_runes_scalar u : Forall scalar u -> Forall scalar (escape_runes u).
Proof.
  assert (scalar (rune_of "\")) as Hb
    by (change (rune_of "\") with 92; unfold scalar, MaxRune; lia).
  induction 1 as [|c u Hc _ IH]; [done|]. cbn [escape_runes].
  destruct (is_special_rune c); repeat (apply Forall_cons_2; [assumption|]); done.
Qed.

(** Decoding what was encoded. *)
Lemma range_string_of_runes u t j :
  Forall scalar u ->
  (range_from j 0 (string_of_runes u +:+ t)).*2 = u ++ (range_string t).*2.
Proof.
  intros Hu. revert j. induction Hu as [|c u Hc _ IH]; intros j.
  - apply range_from_shift.
  - cbn [string_of_runes]. rewrite app_assoc_str.
    pose proof (encoderune_len c) as Hl.
    destruct (encoderune c +:+ string_of_runes u +:+ t) as [|a r] eqn:Heq.
    { destruct (encoderune c); simpl in *; [lia|done]. }
    rewrite range_from_cons, <- Heq, decoderune_encoderune.
    rewrite decide_True by done. cbn [fst snd fmap list_fmap].
    by rewrite str_drop_app, IH.
Qed.

Lemma unescape_loop_escape_runes u acc :
  unescape_loop (escape_runes u) false acc = acc ++ u.
Proof.
  revert acc. induction u as [|c u IH]; intros acc.
  - simpl. by rewrite app_nil_r.
  - cbn [escape_runes]. destruct (is_special_rune c) eqn:Hsp.
    + cbn [unescape_loop]. rewrite Z.eqb_refl. cbn [unescape_loop].
      rewrite IH. by rewrite <- app_assoc.
    + cbn [unescape_loop]. unfold is_special_rune in Hsp.
      apply orb_false_iff in Hsp as [-> _].
      rewrite IH. by rewrite <- app_assoc.
Qed.

Lemma range_scalar j s : Forall scalar (range_from j 0 s).*2.
Proof.
  revert j. induction s as [|a t IH] using rune_ind; intros j; [constructor|].
  rewrite range_from_cons. cbn [fmap list_fmap snd]. apply Forall_cons_2; [|apply IH].
  pose proof (decoderune_spec a t) as Hd.
  destruct (decoderune (String a t)) as [c w]. by apply decoded_scalar in Hd.
Qed.

Lemma range_of_runes u :
  Forall scalar u -> (range_string (string_of_runes u)).*2 = u.
Proof.
  intros Hu. pose proof (range_string_of_runes u EmptyString 0%nat Hu) as Hr.
  by rewrite app_empty_r, app_nil_r in Hr.
Qed.

Lemma unescape_of_escaped_runes u :
  Forall scalar u -> unescape (string_of_runes (escape_runes u)) = string_of_runes u.
Proof.
  intros Hu. unfold unescape.
  rewrite range_of_runes by by apply escape_runes_scalar.
  by rewrite unescape_loop_escape_runes.
Qed.

Lemma unescape_escape s : ValidString s = true -> unescape (escape s) = s.
Proof.
  intros Hs. rewrite <- (string_of_runes_range s Hs) at 1.
  rewrite escape_string_of_runes, unescape_of_escaped_runes by apply range_scalar.
  by apply string_of_runes_range.
Qed.

(** *** An escaped key in front of a delimiter *)

Lemma range_of_runes_app u t j :
  Forall scalar u ->
  exists its, its.*2 = u /\
    range_from j 0 (string_of_runes u +:+ t) =
    its ++ range_from (j + len (string_of_runes u)) 0 t.
Proof.
  intros Hu. revert j. induction Hu as [|c u Hc _ IH]; intros j.
  - exists []. split; [done|]. simpl. by rewrite Nat.add_0_r.
  - cbn [string_of_runes]. rewrite app_assoc_str.
    pose proof (encoderune_len c) as Hl.
    destruct (encoderune c +:+ string_of_runes u +:+ t) as [|a r] eqn:Heq.
    { destruct (encoderune c); simpl in *; [lia|done]. }
    rewrite range_from_cons, <- Heq, decoderune_encoderune.
    rewrite decide_True by done. cbn [fst snd].
    rewrite str_drop_app.
    destruct (IH (j + len (encoderune c))%nat) as (its & Hits & ->).
    exists ((j, c) :: its). split; [by rewrite fmap_cons, Hits|].
    by rewrite len_app, Nat.add_assoc.
Qed.

Lemma split_unescaped_escaped u its i c post :
  its.*2 = escape_runes u -> is_delim c = true ->
  split_unescaped is_delim (its ++ (i, c) :: post) false = Some (its, (i, c), post).
Proof.
  intros Hits Hc. revert its Hits. induction u as [|d u IH]; intros its Hits.
  - destruct its; [|done]. cbn [app split_unescaped].
    apply is_delim_ascii_pred in Hc as Hc'. destruct Hc' as [_ Hne].
    apply Z.eqb_neq in Hne. by rewrite Hne, Hc.
  - cbn [escape_runes] in Hits. destruct (is_special_rune d) eqn:Hsp.
    + destruct its as [|[j1 c1] [|[j2 c2] its]];
        cbn [fmap list_fmap snd] in Hits; simplify_eq.
      cbn [app split_unescaped]. rewrite Z.eqb_refl. by rewrite (IH its).
    + destruct its as [|[j1 c1] its];
        cbn [fmap list_fmap snd] in Hits; simplify_eq.
      cbn [app split_unescaped].
      unfold is_special_rune in Hsp. apply orb_false_iff in Hsp as [-> ->].
      by rewrite (IH its).
Qed.

Lemma get_app_r p r i : String.get (len p + i) (p +:+ r) = String.get i r.
Proof. induction p as [|a p IH]; [done|]. rewrite app_cons. apply IH. Qed.

Lemma byte_is_app_r p r i a : byte_is (p +:+ r) (len p + i) a = byte_is r i a.
Proof. unfold byte_is. by rewrite get_app_r. Qed.

Lemma delimiter_at_app_r p r i : delimiter_at (p +:+ r) (len p + i) = delimiter_at r i.
Proof.
  unfold delimiter_at. by rewrite <- !Nat.add_assoc, !byte_is_app_r.
Qed.

Lemma str_drop_app_r p r n : str_drop (len p + n) (p +:+ r) = str_drop n r.
Proof. induction p as [|a p IH]; [done|]. rewrite app_cons. apply IH. Qed.

Lemma delimiter_at_is_delim r kind n :
  delimiter_at r 0 = Some (kind, n) ->
  exists a r', r = String a r' /\ is_delim (byte_val a) = true.
Proof.
  unfold delimiter_at, byte_is. destruct r as [|a r']; [done|]. simpl.
  intros H. exists a, r'. split; [done|]. unfold is_delim, rune_of.
  repeat case_bool_decide; simplify_eq; done.
Qed.

Lemma parseKeyValue_escaped_key k rest kind n :
  ValidString k = true -> delimiter_at rest 0 = Some (kind, n) ->
  parseKeyValue (escape k +:+ rest) = Some (kind, k, unescape (str_drop n rest)).
Proof.
  intros Hk Hd. destruct (delimiter_at_is_delim _ _ _ Hd) as (a & r' & -> & Ha).
  pose proof (string_of_runes_range k Hk) as Hu.
  pose proof (range_scalar 0 k) as Hsc.
  fold (range_string k) in Hsc. set (u := (range_string k).*2) in *.
  assert (escape k = string_of_runes (escape_runes u)) as He
    by (by rewrite <- escape_string_of_runes, Hu).
  unfold parseKeyValue. rewrite parseKeyValue_loop_split.
  unfold range_string at 1. rewrite He at 1.
  destruct (range_of_runes_app (escape_runes u) (String a r') 0)
    as (its & Hits & ->); [by apply escape_runes_scalar|].
  rewrite <- He. rewrite range_from_cons.
  pose proof (is_delim_ascii_pred _ Ha) as [Hlow _].
  assert (decoderune (String a r') = (byte_val a, 1%nat)) as ->.
  { unfold decoderune, first. by destruct (Z.ltb_spec (byte_val a) 0x80); [|lia]. }
  cbn [fst snd]. rewrite (split_unescaped_escaped _ _ _ _ _ Hits Ha).
  rewrite Hits, unescape_loop_escape_runes. cbn [app].
  simpl (0 + _)%nat.
  destruct (at_delim_spec (escape k +:+ String a r') (len (escape k)) (byte_val a) u)
    as (kind' & n' & Hd' & ->); [|done|].
  { rewrite <- (Nat.add_0_r (len _)), get_app_r. simpl. by rewrite byte_of_val. }
  rewrite <- (Nat.add_0_r (len (escape k))) in Hd'.
  rewrite delimiter_at_app_r in Hd'.
  rewrite Hd in Hd'. simplify_eq.
  by rewrite str_drop_app_r, Hu.
Qed.

Lemma escape_not_eq v i : byte_is (escape v) i "=" = false \/ (0 < i)%nat.
Proof.
  destruct i; [left|right; lia].
  destruct v as [|a v]; [done|]. cbn [escape].
  destruct (is_special a) eqn:Ha; [done|].
  unfold byte_is. simpl. apply bool_decide_eq_false. intros [= ->]. done.
Qed.

(** *** The decoder, rune by rune *)

Lemma unescape_loop_acc cs esc acc :
  unescape_loop cs esc acc = acc ++ unescape_loop cs esc [].
Proof.
  revert esc acc. induction cs as [|c cs IH]; intros esc acc.
  - simpl. by rewrite app_nil_r.
  - cbn [unescape_loop]. destruct esc; [|destruct (c =? rune_of "\")].
    + rewrite (IH false (acc ++ [c])), (IH false ([] ++ [c])). by rewrite <- app_assoc.
    + apply IH.
    + rewrite (IH false (acc ++ [c])), (IH false ([] ++ [c])). by rewrite <- app_assoc.
Qed.

Lemma string_of_runes_app u v :
  string_of_runes (u ++ v) = string_of_runes u +:+ string_of_runes v.
Proof.
  induction u as [|c u IH]; [done|]. simpl. by rewrite IH, app_assoc_str.
Qed.

Lemma range_encoderune c t :
  scalar c -> (range_string (encoderune c +:+ t)).*2 = c :: (range_string t).*2.
Proof.
  intros Hc. pose proof (range_string_of_runes [c] t 0) as Hr.
  cbn [string_of_runes] in Hr. rewrite app_empty_r in Hr.
  apply Hr. by constructor.
Qed.

Lemma unescape_plain_rune c t :
  scalar c -> c <> rune_of "\" ->
  unescape (encoderune c +:+ t) = encoderune c +:+ unescape t.
Proof.
  intros Hc Hne. unfold unescape. rewrite range_encoderune by done.
  cbn [unescape_loop]. apply Z.eqb_neq in Hne. rewrite Hne.
  rewrite unescape_loop_acc, string_of_runes_app. simpl. by rewrite app_empty_r.
Qed.

Lemma unescape_escaped_rune c t :
  scalar c ->
  unescape (String "\" (encoderune c +:+ t)) = encoderune c +:+ unescape t.
Proof.
  intros Hc. unfold unescape.
  change (String "\" (encoderune c +:+ t))
    with (encoderune (rune_of "\") +:+ encoderune c +:+ t).
  rewrite range_encoderune.
  2:{ change (rune_of "\") with 92; unfold scalar, MaxRune; lia. }
  rewrite range_encoderune by done.
  cbn [unescape_loop]. rewrite Z.eqb_refl.
  rewrite unescape_loop_acc, string_of_runes_app. simpl. by rewrite app_empty_r.
Qed.

Lemma parseKeyValue_valid s t k v :
  parseKeyValue s = Some (t, k, v) -> ValidString k = true /\ ValidString v = true.
Proof.
  pose proof (parseKeyValue_split s) as H.
  destruct (first_unescaped is_delim s) as [i|].
  - destruct H as (kind & n & _ & ->). intros [= <- <- <-].
    split; apply valid_string_of_runes.
  - rewrite H. by intros [= <- <- <-].
Qed.

Lemma unescape_loop_escape_runes_app u rest acc :
  unescape_loop (escape_runes u ++ rest) false acc = unescape_loop rest false (acc ++ u).
Proof.
  revert acc. induction u as [|c u IH]; intros acc.
  - simpl. by rewrite app_nil_r.
  - cbn [escape_runes]. destruct (is_special_rune c) eqn:Hsp.
    + cbn [app unescape_loop]. rewrite Z.eqb_refl. cbn [unescape_loop].
      rewrite IH. by rewrite <- app_assoc.
    + cbn [app unescape_loop]. unfold is_special_rune in Hsp.
      apply orb_false_iff in Hsp as [-> _].
      rewrite IH. by rewrite <- app_assoc.
Qed.

(** A lone backslash at the end, after text that was escaped. *)
Lemma unescape_escape_trailing s :
  ValidString s = true -> unescape (escape s +:+ "\") = s.
Proof.
  intros Hs. rewrite <- (string_of_runes_range s Hs) at 1.
  rewrite escape_string_of_runes. unfold unescape, range_string.
  rewrite range_string_of_runes by apply escape_runes_scalar, range_scalar.
  change (range_string "\").*2 with [rune_of "\"].
  rewrite unescape_loop_escape_runes_app. cbn [unescape_loop app].
  rewrite Z.eqb_refl. cbn [unescape_loop].
  by apply string_of_runes_range.
Qed.

(** ** Facts about slices and the argument aggregator *)

Module ArgsFacts.
Import Slice.
Local Open Scope nat_scope.

Lemma wf_nil h : wf h nil.
Proof. done. Qed.

Lemma elems_length h s : wf h s -> length (elems h s) = len s.
Proof.
  unfold wf, elems. destruct (ptr s) as [p|]; [|by intros ->].
  intros (arr & -> & ? & ?). simpl. rewrite length_take. lia.
Qed.

Lemma append_elems growcap h s v h' s' :
  wf h s -> append growcap h s v = (h', s') ->
  elems h' s' = elems h s ++ [v] /\ wf h' s' /\ len s' = S (len s) /\
  length h <= length h' /\
  (ptr s' = ptr s \/ ptr s' = Some (length h)) /\ is_Some (ptr s').
Proof.
  intros Hwf. pose proof (elems_length _ _ Hwf) as Hlen. revert Hwf Hlen.
  unfold append, wf, elems. destruct s as [[p|] n c]; simpl.
  - intros (arr & Hp & Hn & Hc) Hlen.
    destruct (Nat.ltb_spec n c) as [Hlt|Hge]; intros [= <- <-]; simpl.
    + rewrite list_lookup_alter_eq, Hp. simpl.
      rewrite length_alter. split_and!; try done; [| |by left].
      * rewrite (take_S_r _ _ v) by (apply list_lookup_insert_eq; lia).
        by rewrite take_insert_ge by lia.
      * eexists. split; [done|]. rewrite length_insert. lia.
    + rewrite lookup_app_r, Nat.sub_diag by done. simpl.
      rewrite Hp in *. simpl in *. rewrite length_app. simpl.
      split_and!; try done; try lia; [| |by right].
      * rewrite cons_middle, app_assoc.
        rewrite take_app_length'; [done|]. rewrite length_app. simpl. lia.
      * eexists. split; [done|]. rewrite length_app. simpl.
        rewrite length_replicate. lia.
  - intros -> _ [= <- <-]. simpl.
    rewrite lookup_app_r, Nat.sub_diag by done. simpl.
    rewrite length_app. simpl. split_and!; try done; try lia; [|by right].
    eexists. split; [done|]. simpl. rewrite length_replicate. lia.
Qed.

(** Appending to [s] leaves the elements of a slice [s0] as they are when
    [s0] does not extend over the free part of the array of [s]. *)
Lemma append_elems_other growcap h s v h' s' s0 :
  wf h s0 -> append growcap h s v = (h', s') ->
  (ptr s0 = ptr s -> len s0 <= len s) ->
  elems h' s0 = elems h s0 /\ wf h' s0.
Proof.
  unfold append, wf, elems. destruct s0 as [[p0|] n0 c0]; simpl; [|by intros].
  intros (arr0 & Hp0 & Hn0 & Hc0).
  destruct s as [[p|] n c]; simpl.
  - destruct (Nat.ltb_spec n c) as [Hlt|Hge]; intros [= <- <-] Hsh; simpl.
    + destruct (decide (p0 = p)) as [->|Hne].
      * rewrite list_lookup_alter_eq, Hp0. simpl.
        specialize (Hsh eq_refl).
        split; [by rewrite take_insert_ge by lia|].
        eexists. split; [done|]. rewrite length_insert. lia.
      * rewrite list_lookup_alter_ne by done. rewrite Hp0. eauto.
    + rewrite lookup_app_l by (by eapply lookup_lt_Some). rewrite Hp0. eauto.
  - intros [= <- <-] _.
    rewrite lookup_app_l by (by eapply lookup_lt_Some). rewrite Hp0. eauto.
Qed.


Lemma query_inv_empty : query_inv ([], kvpairs_empty).
Proof. split; intros *; simpl; by rewrite lookup_empty. Qed.

Lemma slice_at_wf st k : query_inv st -> wf st.1 (slice_at (query st.2) k).
Proof.
  intros [Hwf _]. unfold slice_at.
  destruct (query st.2 !! k) as [s|] eqn:Hk; simpl; [by apply (Hwf k)|done].
Qed.

Lemma slice_at_other st k k0 s0 :
  query_inv st -> query st.2 !! k0 = Some s0 -> k0 <> k ->
  ptr s0 <> ptr (slice_at (query st.2) k).
Proof.
  intros [Hwf Hinj] Hk0 Hne. unfold slice_at.
  destruct (query st.2 !! k) as [s|] eqn:Hk; simpl.
  - intros Heq. by apply Hne, (Hinj k0 k s0 s).
  - destruct (Hwf _ _ Hk0) as [_ [p Hp]]. by rewrite Hp.
Qed.

Lemma store_query growcap st k v st' :
  query_inv st -> parseArgs_store growcap st kvpQuery k v = Some st' ->
  query_inv st' /\
  query_values st' k = query_values st k ++ [v] /\
  (forall k', k' <> k -> query_values st' k' = query_values st k') /\
  headers st'.2 = headers st.2 /\ js st'.2 = js st.2 /\ file st'.2 = file st.2.
Proof.
  intros Hinv. pose proof (slice_at_wf st k Hinv) as Hs.
  destruct st as [h kvp]. simpl in *.
  destruct (append growcap h (slice_at (query kvp) k) v) as [h' s'] eqn:Happ.
  intros [= <-]. unfold query_values, slice_at at 1 3 4. simpl.
  destruct (append_elems _ _ _ _ _ _ Hs Happ) as (Hel & Hwf' & Hlen & Hh & Hptr & Hsome).
  assert (forall k0 s0, query kvp !! k0 = Some s0 -> k0 <> k ->
            elems h' s0 = elems h s0 /\ wf h' s0) as Hother.
  { intros k0 s0 Hk0 Hne. eapply append_elems_other; [|done|].
    - by apply (proj1 Hinv k0).
    - intros Heq. by destruct (slice_at_other (h, kvp) k k0 s0). }
  split_and!; try done.
  - split; simpl.
    + intros k0 s0. rewrite lookup_insert. case_decide as Hk.
      * by intros [= <-].
      * intros Hk0. split; [|by apply (proj1 Hinv k0)].
        by destruct (Hother k0 s0).
    + intros k1 k2 s1 s2. rewrite !lookup_insert.
      assert (forall k0 s0, query kvp !! k0 = Some s0 -> k0 <> k ->
                ptr s0 <> ptr s') as Hfresh.
      { intros k0 s0 Hk0 Hne Heq.
        destruct Hptr as [Hp|Hp]; rewrite Hp in Heq.
        - by destruct (slice_at_other (h, kvp) k k0 s0).
        - destruct (proj1 Hinv _ _ Hk0) as [Hw _]. unfold wf in Hw.
          rewrite Heq in Hw. destruct Hw as (arr & Harr & _).
          apply lookup_lt_Some in Harr. simpl in *. lia. }
      repeat case_decide; intros; simplify_eq; try done.
      * exfalso. by eapply (Hfresh k2 s2).
      * exfalso. by eapply (Hfresh k1 s1).
      * by eapply (proj2 Hinv k1 k2).
  - by rewrite lookup_insert_eq.
  - intros k' Hne. rewrite lookup_insert_ne by done.
    destruct (query kvp !! k') as [s0|] eqn:Hk'; simpl; [|done].
    by destruct (Hother k' s0).
Qed.

Lemma store_body growcap st k v st' :
  query_inv st -> parseArgs_store growcap st kvpBody k v = Some st' ->
  query_inv st' /\
  body_values st' k = query_values st k ++ [v] /\
  (forall k', query_values st' k' = query_values st k') /\
  headers st'.2 = headers st.2 /\ js st'.2 = js st.2 /\ file st'.2 = file st.2.
Proof.
  intros Hinv. pose proof (slice_at_wf st k Hinv) as Hs.
  destruct st as [h kvp]. simpl in *.
  destruct (append growcap h (slice_at (query kvp) k) v) as [h' s'] eqn:Happ.
  intros [= <-]. unfold query_values, body_values, slice_at at 1 3 4. simpl.
  destruct (append_elems _ _ _ _ _ _ Hs Happ) as (Hel & Hwf' & Hlen & Hh & Hptr & Hsome).
  assert (forall k0 s0, query kvp !! k0 = Some s0 ->
            elems h' s0 = elems h s0 /\ wf h' s0) as Hother.
  { intros k0 s0 Hk0. eapply append_elems_other; [|done|].
    - by apply (proj1 Hinv k0).
    - intros Heq. destruct (decide (k0 = k)) as [->|Hne].
      + unfold slice_at. by rewrite Hk0.
      + by destruct (slice_at_other (h, kvp) k k0 s0). }
  split_and!; try done.
  - split; simpl.
    + intros k0 s0 Hk0. split; [|by apply (proj1 Hinv k0)].
      by destruct (Hother k0 s0).
    + apply Hinv.
  - by rewrite lookup_insert_eq.
  - intros k'. destruct (query kvp !! k') as [s0|] eqn:Hk'; simpl; [|done].
    by destruct (Hother k' s0).
Qed.


Lemma last_write_cons old v vs : last_write old (v :: vs) = last_write (Some v) vs.
Proof. unfold last_write. destruct vs as [|x vs]; [done|]. rewrite last_cons_cons.
  destruct (last (x :: vs)) eqn:H; [done|]. by apply last_None in H.
Qed.

Lemma store_overwrite growcap st t k v st' :
  t = kvpHeader \/ t = kvpJSON \/ t = kvpFile ->
  query_inv st -> parseArgs_store growcap st t k v = Some st' ->
  query_inv st' /\ (forall k', query_values st' k' = query_values st k') /\
  headers st'.2 = (if decide (t = kvpHeader) then <[k := v]> (headers st.2) else headers st.2) /\
  js st'.2 = (if decide (t = kvpJSON) then <[k := v]> (js st.2) else js st.2) /\
  file st'.2 = (if decide (t = kvpFile) then <[k := v]> (file st.2) else file st.2).
Proof.
  destruct st as [h kvp].
  intros [->|[->| ->]] Hinv Hst; simpl in Hst; injection Hst as <-;
    simpl; split_and!; done.
Qed.

Lemma decide_kind_key {A} (t t' : kvtype) (k k' : string) (a b : A) :
  (if decide (t' = t /\ k' = k) then a else b) =
  (if decide (t' = t) then if decide (k' = k) then a else b else b).
Proof. repeat case_decide; try done; exfalso; tauto. Qed.

Lemma parseArgs_loop_fold growcap args st st' k :
  query_inv st -> parseArgs_loop growcap args st = Ok st' ->
  query_inv st' /\
  query_values st' k = query_values st k ++ tokens_of kvpQuery k args /\
  headers st'.2 !! k = last_write (headers st.2 !! k) (tokens_of kvpHeader k args) /\
  js st'.2 !! k = last_write (js st.2 !! k) (tokens_of kvpJSON k args) /\
  file st'.2 !! k = last_write (file st.2 !! k) (tokens_of kvpFile k args).
Proof.
  revert st. induction args as [|arg args IH]; intros st Hinv.
  { intros [= <-]. by rewrite app_nil_r. }
  simpl. unfold tokens_of. simpl. fold (tokens_of kvpQuery k args)
    (tokens_of kvpHeader k args) (tokens_of kvpJSON k args)
    (tokens_of kvpFile k args).
  destruct (parseKeyValue arg) as [[[t k'] v]|]; [|done].
  destruct (parseArgs_store growcap st t k' v) as [st1|] eqn:Hst; [|done].
  intros Hloop. rewrite !decide_kind_key.
  assert (query_inv st1 /\
          query_values st1 k =
            query_values st k ++
              (if decide (t = kvpQuery) then if decide (k' = k) then [v] else [] else []) /\
          headers st1.2 !! k =
            (if decide (t = kvpHeader) then <[k' := v]> (headers st.2) !! k
             else headers st.2 !! k) /\
          js st1.2 !! k =
            (if decide (t = kvpJSON) then <[k' := v]> (js st.2) !! k
             else js st.2 !! k) /\
          file st1.2 !! k =
            (if decide (t = kvpFile) then <[k' := v]> (file st.2) !! k
             else file st.2 !! k))
    as (Hinv1 & Hq & Hh & Hj & Hf).
  { destruct t.
    - by destruct st.
    - destruct (store_overwrite _ _ kvpHeader _ _ _ (or_introl eq_refl) Hinv Hst)
        as (? & Hq & -> & -> & ->). simpl. by rewrite Hq, app_nil_r.
    - destruct (store_query _ _ _ _ _ Hinv Hst) as (? & Hq & Hq' & -> & -> & ->).
      simpl. split_and!; try done. case_decide as Hk.
      + by subst.
      + rewrite Hq' by done. by rewrite app_nil_r.
    - destruct (store_body _ _ _ _ _ Hinv Hst) as (? & _ & Hq' & -> & -> & ->).
      simpl. by rewrite Hq', app_nil_r.
    - destruct (store_overwrite _ _ kvpJSON _ _ _ (or_intror (or_introl eq_refl)) Hinv Hst)
        as (? & Hq & -> & -> & ->). simpl. by rewrite Hq, app_nil_r.
    - destruct (store_overwrite _ _ kvpFile _ _ _ (or_intror (or_intror eq_refl)) Hinv Hst)
        as (? & Hq & -> & -> & ->). simpl. by rewrite Hq, app_nil_r. }
  destruct (IH _ Hinv1 Hloop) as (? & Hq2 & Hh2 & Hj2 & Hf2).
  rewrite Hq2, Hh2, Hj2, Hf2, Hq, Hh, Hj, Hf. split; [done|].
  rewrite !lookup_insert.
  destruct t; simpl; destruct (decide (k' = k)) as [->|Hne]; simpl;
    rewrite ?last_write_cons, <- ?app_assoc, ?app_nil_r; done.
Qed.

(** Two Body tokens for a key in a row: the list of the key is the list
    of the query values of that key followed by the second value. *)
Lemma store_body_twice growcap st k v1 v2 st1 st2 :
  query_inv st ->
  parseArgs_store growcap st kvpBody k v1 = Some st1 ->
  parseArgs_store growcap st1 kvpBody k v2 = Some st2 ->
  body_values st2 k = query_values st k ++ [v2].
Proof.
  intros Hinv H1 H2.
  destruct (store_body _ _ _ _ _ Hinv H1) as (Hinv1 & _ & Hq & _).
  destruct (store_body _ _ _ _ _ Hinv1 H2) as (_ & -> & _). by rewrite Hq.
Qed.

(** What [parseArgs] does aggregate as the specification says: the query
    values of a key in the order of the command line, and the last header,
    JSON fragment and file written for a key. *)
Lemma parseArgs_query_header_json_file growcap args st k :
  parseArgs growcap args = Ok st ->
  query_values st k = tokens_of kvpQuery k args /\
  headers st.2 !! k = last (tokens_of kvpHeader k args) /\
  js st.2 !! k = last (tokens_of kvpJSON k args) /\
  file st.2 !! k = last (tokens_of kvpFile k args).
Proof.
  intros Hp. unfold parseArgs in Hp.
  destruct (parseArgs_loop_fold _ _ _ _ k query_inv_empty Hp)
    as (_ & Hq & Hh & Hj & Hf).
  rewrite Hq, Hh, Hj, Hf. unfold last_write. simpl. rewrite !lookup_empty.
  split_and!; try done; by destruct (last _).
Qed.

(** [parseArgs] stops only at an argument of unknown kind. *)
Lemma parseArgs_store_Some growcap st t k v :
  t <> kvpUnknown -> is_Some (parseArgs_store growcap st t k v).
Proof.
  destruct st as [h kvp]. destruct t; try done; intros _; simpl;
    try (by eexists); by destruct (append _ _ _ _).
Qed.

Lemma parseArgs_loop_Ok growcap args st :
  Forall (fun arg => exists t k v,
            parseKeyValue arg = Some (t, k, v) /\ t <> kvpUnknown) args ->
  exists st', parseArgs_loop growcap args st = Ok st'.
Proof.
  intros Hall. revert st. induction Hall as [|arg args (t & k & v & Hkv & Ht) _ IH];
    intros st; simpl; [by eexists|].
  rewrite Hkv.
  destruct (parseArgs_store_Some growcap st t k v Ht) as [st1 ->]. apply IH.
Qed.

End ArgsFacts.

(** ** Further facts about the argument aggregator *)

Module BodyFacts.
Import Slice ArgsFacts.
Local Open Scope nat_scope.

Lemma wf_ptr_lt h s p : wf h s -> ptr s = Some p -> p < length h.
Proof.
  unfold wf. intros Hwf Hp. rewrite Hp in Hwf. destruct Hwf as (arr & Harr & _).
  by apply lookup_lt_Some in Harr.
Qed.

(** An [append] to the list of another key leaves the list of [k] alone. *)
Lemma append_bystander growcap st k E k' v h' s' :
  query_inv st -> body_inv k E st -> k' <> k ->
  append growcap st.1 (slice_at (query st.2) k') v = (h', s') ->
  elems h' (slice_at (body st.2) k) = E /\ wf h' (slice_at (body st.2) k) /\
  ptr s' <> ptr (slice_at (body st.2) k) /\
  (forall k0 s0, query st.2 !! k0 = Some s0 -> wf h' s0).
Proof.
  intros Hinv (HE & HB & Hsh) Hne Happ.
  pose proof (slice_at_wf st k' Hinv) as Hs.
  destruct (append_elems _ _ _ _ _ _ Hs Happ) as (_ & _ & _ & _ & Hptr & Hsome).
  assert (ptr (slice_at (body st.2) k) = ptr (slice_at (query st.2) k') ->
          len (slice_at (body st.2) k) <= len (slice_at (query st.2) k')) as Hlen.
  { intros Heq. destruct (query st.2 !! k') as [s|] eqn:Hk'.
    - exfalso. apply Hne, (Hsh k' s); [done|]. rewrite Heq.
      unfold slice_at. by rewrite Hk'.
    - assert (ptr (slice_at (query st.2) k') = None) as Hnil
        by (unfold slice_at; by rewrite Hk').
      unfold wf in HB. rewrite Heq, Hnil in HB. lia. }
  destruct (append_elems_other _ _ _ _ _ _ _ HB Happ Hlen) as [Hel Hwf].
  split_and!; [congruence|done| |].
  - intros Heq. destruct Hsome as [p Hp]. destruct Hptr as [Hq|Hq].
    + unfold slice_at at 1 in Hq.
      destruct (query st.2 !! k') as [s|] eqn:Hk'; simpl in Hq.
      * apply Hne, (Hsh k' s); [done|congruence].
      * congruence.
    + pose proof (wf_ptr_lt _ _ (length st.1) HB) as Hlt.
      rewrite <- Heq, Hq in Hlt. specialize (Hlt eq_refl). lia.
  - intros k0 s0 Hk0. destruct (proj1 Hinv _ _ Hk0) as [Hw0 _].
    destruct (decide (k0 = k')) as [->|Hne0].
    + eapply append_elems_other; [done|done|]. unfold slice_at. by rewrite Hk0.
    + eapply append_elems_other; [done|done|]. intros Heq.
      by destruct (slice_at_other st k' k0 s0).
Qed.

Lemma body_inv_step growcap st k E t k' v st' :
  query_inv st -> body_inv k E st ->
  ~ ((t = kvpBody \/ t = kvpQuery) /\ k' = k) ->
  parseArgs_store growcap st t k' v = Some st' ->
  query_inv st' /\ body_inv k E st'.
Proof.
  intros Hinv Hb Hnot Hst.
  destruct t.
  - by destruct st.
  - destruct (store_overwrite growcap st kvpHeader k' v st') as (? & _); auto.
    split; [done|]. destruct st as [h kvp]. by simplify_eq/=.
  - assert (k' <> k) as Hne by (intros ->; apply Hnot; auto).
    destruct (store_query growcap st k' v st' Hinv Hst) as (Hinv' & _).
    split; [done|]. destruct st as [h kvp]. simpl in Hst.
    destruct (append growcap h (slice_at (query kvp) k') v) as [h' s'] eqn:Happ.
    destruct (append_bystander growcap (h, kvp) k E k' v h' s' Hinv Hb Hne Happ)
      as (Hel & Hwf & Hp & _).
    simplify_eq/=. unfold body_inv. simpl. split_and!; [done..|].
    intros k0 s0. rewrite lookup_insert. case_decide as Hk.
    + intros [= <-] Heq. by destruct Hp.
    + apply Hb.
  - assert (k' <> k) as Hne by (intros ->; apply Hnot; auto).
    destruct (store_body growcap st k' v st' Hinv Hst) as (Hinv' & _).
    split; [done|]. destruct st as [h kvp]. simpl in Hst.
    destruct (append growcap h (slice_at (query kvp) k') v) as [h' s'] eqn:Happ.
    destruct (append_bystander growcap (h, kvp) k E k' v h' s' Hinv Hb Hne Happ)
      as (Hel & Hwf & Hp & _).
    simplify_eq/=. unfold body_inv, slice_at. simpl.
    rewrite lookup_insert_ne by done. split_and!; [done..|].
    apply Hb.
  - destruct (store_overwrite growcap st kvpJSON k' v st') as (? & _); auto.
    split; [done|]. destruct st as [h kvp]. by simplify_eq/=.
  - destruct (store_overwrite growcap st kvpFile k' v st') as (? & _); auto.
    split; [done|]. destruct st as [h kvp]. by simplify_eq/=.
Qed.

Lemma body_inv_store growcap st k v st' :
  query_inv st -> parseArgs_store growcap st kvpBody k v = Some st' ->
  body_inv k (query_values st k ++ [v]) st'.
Proof.
  intros Hinv Hst. pose proof (slice_at_wf st k Hinv) as Hs.
  destruct (store_body growcap st k v st' Hinv Hst) as (Hinv' & Hb & _).
  destruct st as [h kvp]. simpl in *.
  destruct (append growcap h (slice_at (query kvp) k) v) as [h' s'] eqn:Happ.
  destruct (append_elems _ _ _ _ _ _ Hs Happ) as (Hel & Hwf' & _ & _ & Hptr & Hsome).
  simplify_eq/=. unfold body_inv, slice_at at 1 2 3. simpl.
  rewrite lookup_insert_eq. simpl. split_and!; [done..|].
  intros k0 s0 Hk0 Heq. destruct Hptr as [Hq|Hq].
  - destruct (decide (k0 = k)) as [|Hne]; [done|].
    destruct (slice_at_other (h, kvp) k k0 s0 Hinv Hk0 Hne). simpl. congruence.
  - destruct (proj1 Hinv _ _ Hk0) as [Hw0 _].
    pose proof (wf_ptr_lt _ _ (length h) Hw0) as Hlt.
    rewrite Heq, Hq in Hlt. specialize (Hlt eq_refl). simpl in Hlt. lia.
Qed.

Lemma tokens_of_cons t k arg args :
  tokens_of t k (arg :: args) =
  match parseKeyValue arg with
  | Some (t', k', v) =>
    if decide (t' = t /\ k' = k) then v :: tokens_of t k args else tokens_of t k args
  | None => tokens_of t k args
  end.
Proof.
  unfold tokens_of. simpl.
  destruct (parseKeyValue arg) as [[[t' k'] v]|]; [|done]. by case_decide.
Qed.

Lemma body_inv_loop growcap k E args st st' :
  query_inv st -> body_inv k E st ->
  tokens_of kvpBody k args = [] -> tokens_of kvpQuery k args = [] ->
  parseArgs_loop growcap args st = Ok st' -> body_inv k E st'.
Proof.
  revert st. induction args as [|arg args IH]; intros st Hinv Hb.
  { by intros _ _ [= <-]. }
  rewrite !tokens_of_cons. simpl.
  destruct (parseKeyValue arg) as [[[t k'] v]|]; [|done].
  destruct (parseArgs_store growcap st t k' v) as [st1|] eqn:Hst; [|done].
  intros HB HQ Hloop.
  destruct (body_inv_step growcap st k E t k' v st1 Hinv Hb) as [Hinv1 Hb1]; [|done|].
  { intros [[->| ->] ->].
    - by rewrite decide_True in HB.
    - by rewrite decide_True in HQ. }
  apply (IH st1); try done.
  - clear HQ. by case_decide.
  - clear HB. by case_decide.
Qed.

Lemma parseArgs_loop_app growcap a b st :
  parseArgs_loop growcap (a ++ b) st =
  match parseArgs_loop growcap a st with
  | Ok st' => parseArgs_loop growcap b st'
  | Err msg => Err msg
  | Panic => Panic
  end.
Proof.
  revert st. induction a as [|arg a IH]; intros st; [done|]. simpl.
  destruct (parseKeyValue arg) as [[[t k] v]|]; [|done].
  by destruct (parseArgs_store growcap st t k v).
Qed.

End BodyFacts.

Module OutcomeFacts.
Import ArgsFacts.

Lemma delimiter_at_known s i kind n : delimiter_at s i = Some (kind, n) -> kind <> kvpUnknown.
Proof. unfold delimiter_at. repeat case_match; intros; simplify_eq; done. Qed.

Lemma parseArgs_loop_outcome growcap args st :
  match list_find (fun arg => first_unescaped is_delim arg = None) args with
  | Some (_, arg) => parseArgs_loop growcap args st = Err ("bad key/value: " +:+ arg)
  | None => exists st', parseArgs_loop growcap args st = Ok st'
  end.
Proof.
  revert st. induction args as [|arg args IH]; intros st; [by eexists|].
  cbn [list_find parseArgs_loop]. pose proof (parseKeyValue_split arg) as Hsplit.
  case_decide as Hd.
  - rewrite Hd in Hsplit. rewrite Hsplit. by destruct st.
  - destruct (first_unescaped is_delim arg) as [i|]; [|done].
    destruct Hsplit as (kind & n & Hk & ->).
    apply delimiter_at_known in Hk.
    destruct (parseArgs_store_Some growcap st kind
                (unescape (str_take i arg)) (unescape (str_drop (i + n) arg)) Hk)
      as [st1 ->].
    specialize (IH st1).
    destruct (list_find _ args) as [[j a]|]; simpl; done.
Qed.

End OutcomeFacts.

Module QueryFacts.
Import Slice ArgsFacts.

Lemma store_query_keys growcap st t k v st' k' :
  parseArgs_store growcap st t k v = Some st' ->
  is_Some (query st'.2 !! k') <->
  (t = kvpQuery /\ k' = k) \/ is_Some (query st.2 !! k').
Proof.
  destruct st as [h kvp]. destruct t; simpl; try done;
    try (intros [= <-]; simpl; split; [by right|by intros [[? _]|]]).
  - destruct (append _ _ _ _) as [h' s']. intros [= <-]. simpl.
    rewrite lookup_insert. case_decide as Hk; split.
    + intros _. left. by subst.
    + by eexists.
    + by right.
    + intros [[_ ->]|]; done.
  - destruct (append _ _ _ _) as [h' s']. intros [= <-]. simpl.
    split; [by right|by intros [[? _]|]].
Qed.

Lemma parseArgs_loop_query_keys growcap args st st' k :
  parseArgs_loop growcap args st = Ok st' ->
  is_Some (query st'.2 !! k) <-> is_Some (query st.2 !! k) \/ k ∈ query_keys args.
Proof.
  revert st. induction args as [|arg args IH]; intros st.
  { intros [= <-]. unfold query_keys. simpl. rewrite elem_of_nil. tauto. }
  simpl. unfold query_keys. simpl. fold (query_keys args).
  destruct (parseKeyValue arg) as [[[t k'] v]|]; [|done].
  destruct (parseArgs_store growcap st t k' v) as [st1|] eqn:Hst; [|done].
  intros Hloop. rewrite (IH st1 Hloop), (store_query_keys _ _ _ _ _ _ k Hst).
  destruct t; simpl; rewrite ?elem_of_cons; split; intros; destruct_or?;
    destruct_and?; simplify_eq; auto.
Qed.

End QueryFacts.

Module KindFacts.

Lemma store_kinds growcap st t k v st' :
  parseArgs_store growcap st t k v = Some st' ->
  (body st'.2 = ∅ <-> body st.2 = ∅ /\ t <> kvpBody) /\
  (js st'.2 = ∅ <-> js st.2 = ∅ /\ t <> kvpJSON) /\
  (file st'.2 = ∅ <-> file st.2 = ∅ /\ t <> kvpFile).
Proof.
  destruct st as [h kvp]. destruct t; simpl; try done;
    try destruct (Slice.append _ _ _ _) as [h' s'];
    intros [= <-]; simpl; split_and!; split;
    try (intros ?; split; [done|discriminate]);
    try (by intros [? _]);
    try (by intros ?%insert_non_empty);
    by intros [_ ?].
Qed.

Lemma parseArgs_loop_kinds growcap args st st' :
  parseArgs_loop growcap args st = Ok st' ->
  (body st'.2 = ∅ <-> body st.2 = ∅ /\ kvpBody ∉ kinds args) /\
  (js st'.2 = ∅ <-> js st.2 = ∅ /\ kvpJSON ∉ kinds args) /\
  (file st'.2 = ∅ <-> file st.2 = ∅ /\ kvpFile ∉ kinds args).
Proof.
  revert st. induction args as [|arg args IH]; intros st.
  { intros [= <-]. unfold kinds. simpl. rewrite !elem_of_nil. tauto. }
  simpl. unfold kinds. simpl. fold (kinds args).
  destruct (parseKeyValue arg) as [[[t k] v]|]; [|done]. simpl.
  destruct (parseArgs_store growcap st t k v) as [st1|] eqn:Hst; [|done].
  intros Hloop. destruct (IH st1 Hloop) as (Hb & Hj & Hf).
  destruct (store_kinds _ _ _ _ _ _ Hst) as (Hb1 & Hj1 & Hf1).
  rewrite Hb, Hj, Hf, Hb1, Hj1, Hf1, !not_elem_of_cons.
  split_and!; split; intros; destruct_and?; split_and?; auto.
Qed.

End KindFacts.

Module LastFacts.
Import Slice ArgsFacts BodyFacts.

Lemma tokens_of_app t k a b : tokens_of t k (a ++ b) = tokens_of t k a ++ tokens_of t k b.
Proof. unfold tokens_of. apply omap_app. Qed.

Lemma kinds_app a b : kinds (a ++ b) = kinds a ++ kinds b.
Proof. unfold kinds. apply omap_app. Qed.

Lemma tokens_of_no_kind t k args : t ∉ kinds args -> tokens_of t k args = [].
Proof.
  induction args as [|arg args IH]; [done|].
  rewrite tokens_of_cons. unfold kinds. simpl. fold (kinds args).
  destruct (parseKeyValue arg) as [[[t' k'] v]|]; simpl; [|done].
  intros [Hne Hin]%not_elem_of_cons. rewrite decide_False by (intros [-> _]; done).
  by apply IH.
Qed.

(** The last token of a kind and a key. *)
Lemma tokens_of_last t k args v :
  last (tokens_of t k args) = Some v ->
  exists pre arg post,
    args = pre ++ arg :: post /\ parseKeyValue arg = Some (t, k, v) /\
    tokens_of t k post = [].
Proof.
  induction args as [|a args IH] using rev_ind; [done|].
  rewrite tokens_of_app.
  destruct (tokens_of t k [a]) as [|x l] eqn:Ha.
  - rewrite app_nil_r. intros (pre & arg & post & -> & Harg & Hpost)%IH.
    exists pre, arg, (post ++ [a]). split_and!; [by rewrite <- app_assoc|done|].
    by rewrite tokens_of_app, Hpost, Ha.
  - rewrite tokens_of_cons in Ha. 
    destruct (parseKeyValue a) as [[[t' k'] v']|] eqn:Hkv; [|done].
    case_decide as Hd; [|done]. destruct Hd as [-> ->].
    injection Ha as <- <-. rewrite last_snoc. intros [= <-].
    exists args, a, []. by split_and!.
Qed.

Lemma store_body_keys growcap st t k v st' k' :
  parseArgs_store growcap st t k v = Some st' ->
  is_Some (body st'.2 !! k') <->
  (t = kvpBody /\ k' = k) \/ is_Some (body st.2 !! k').
Proof.
  destruct st as [h kvp]. destruct t; simpl; try done;
    try (intros [= <-]; simpl; split; [by right|by intros [[? _]|]]).
  - destruct (append _ _ _ _) as [h' s']. intros [= <-]. simpl.
    split; [by right|by intros [[? _]|]].
  - destruct (append _ _ _ _) as [h' s']. intros [= <-]. simpl.
    rewrite lookup_insert. case_decide as Hk; split.
    + intros _. left. by subst.
    + by eexists.
    + by right.
    + intros [[_ ->]|]; done.
Qed.

Lemma parseArgs_loop_body_keys growcap args st st' k :
  parseArgs_loop growcap args st = Ok st' ->
  is_Some (body st'.2 !! k) <-> is_Some (body st.2 !! k) \/ tokens_of kvpBody k args <> [].
Proof.
  revert st. induction args as [|arg args IH]; intros st.
  { intros [= <-]. simpl. unfold tokens_of. simpl. tauto. }
  cbn [parseArgs_loop]. rewrite tokens_of_cons.
  destruct (parseKeyValue arg) as [[[t k'] v]|]; [|done].
  destruct (parseArgs_store growcap st t k' v) as [st1|] eqn:Hst; [|done].
  intros Hloop. rewrite (IH st1 Hloop), (store_body_keys _ _ _ _ _ _ k Hst).
  case_decide as Hd.
  - destruct Hd as [-> ->]. split; [right; done|auto].
  - split; [intros [[[-> ->]|]|]; auto; by destruct Hd|intros [|]; auto].
Qed.

Lemma parseArgs_body_values growcap pre arg post st k v :
  parseArgs growcap (pre ++ arg :: post) = Ok st ->
  parseKeyValue arg = Some (kvpBody, k, v) ->
  tokens_of kvpBody k post = [] -> tokens_of kvpQuery k post = [] ->
  body_values st k = tokens_of kvpQuery k pre ++ [v].
Proof.
  unfold parseArgs. rewrite parseArgs_loop_app.
  destruct (parseArgs_loop growcap pre ([], kvpairs_empty)) as [st0| |] eqn:Hpre;
    [|done..].
  destruct (parseArgs_loop_fold growcap pre _ st0 k query_inv_empty Hpre)
    as (Hinv0 & Hq0 & _).
  simpl. intros Hloop Harg. rewrite Harg in Hloop.
  destruct (parseArgs_store growcap st0 kvpBody k v) as [st1|] eqn:Hst; [|done].
  intros HB HQ.
  destruct (store_body growcap st0 k v st1 Hinv0 Hst) as (Hinv1 & _).
  pose proof (body_inv_store growcap st0 k v st1 Hinv0 Hst) as Hb1.
  destruct (body_inv_loop growcap k _ post st1 st Hinv1 Hb1 HB HQ Hloop) as [Hel _].
  unfold body_values. by rewrite Hel, Hq0.
Qed.

(** Without Query tokens, the list of a key in [kvp.body] is the value of
    its last Body token alone. *)
Lemma parseArgs_body_last growcap args st k :
  parseArgs growcap args = Ok st -> kvpQuery ∉ kinds args ->
  (fun s => collapse (elems st.1 s)) <$> body st.2 !! k =
  VString <$> last (tokens_of kvpBody k args).
Proof.
  intros Hp Hnq.
  pose proof (parseArgs_loop_body_keys _ _ _ _ k Hp) as Hkeys. simpl in Hkeys.
  rewrite lookup_empty in Hkeys.
  destruct (last (tokens_of kvpBody k args)) as [v|] eqn:Hlast.
  - assert (is_Some (body st.2 !! k)) as [s Hs].
    { apply Hkeys. right. intros Hnil. by rewrite Hnil in Hlast. }
    destruct (tokens_of_last _ _ _ _ Hlast) as (pre & arg & post & -> & Harg & Hpost).
    rewrite kinds_app in Hnq. apply not_elem_of_app in Hnq as [Hpre Hq].
    change (arg :: post) with ([arg] ++ post) in Hq. rewrite kinds_app in Hq.
    apply not_elem_of_app in Hq as [_ Hq].
    pose proof (parseArgs_body_values _ _ _ _ _ _ _ Hp Harg Hpost
                  (tokens_of_no_kind _ k _ Hq)) as Hb.
    rewrite (tokens_of_no_kind _ k _ Hpre) in Hb.
    unfold body_values, slice_at in Hb. rewrite Hs in Hb. simpl in Hb.
    rewrite Hs. simpl. by rewrite Hb.
  - destruct (body st.2 !! k) as [s|] eqn:Hs; [|done].
    assert (tokens_of kvpBody k args <> []) as Hne.
    { destruct (proj1 Hkeys) as [[? [=]]|]; [by eexists|done]. }
    destruct (tokens_of kvpBody k args) as [|x l] using rev_ind; [done|].
    by rewrite last_snoc in Hlast.
Qed.

End LastFacts.

(** ** Facts about value coercion *)

Section AddValuesFacts.
Context `{Collaborators}.

Lemma addValues_map st key m :
  addValues st key (VMap m) =
  fold_left (fun st k => addValues st key (VString k)) m.*1 st.
Proof.
  simpl. revert st. induction m as [|[k v] m IH]; intros st; [done|].
  simpl. apply IH.
Qed.

Lemma addValues_slice st key vs :
  addValues st key (VSlice vs) = fold_left (fun st v => addValues st key v) vs st.
Proof.
  simpl. revert st. induction vs as [|v vs IH]; intros st; [done|].
  simpl. apply IH.
Qed.

Lemma Values_Add_lookup values key v :
  default [] (Values_Add values key v !! key) = default [] (values !! key) ++ [v].
Proof. unfold Values_Add. by rewrite lookup_insert_eq. Qed.


End AddValuesFacts.


(** ** Further facts about value coercion *)

(** Induction on a value whose array elements and object members satisfy
    the property. *)
Section ValueInd.
Variable P : value -> Prop.
Hypothesis HNil : P VNil.
Hypothesis HBool : forall b, P (VBool b).
Hypothesis HString : forall s, P (VString s).
Hypothesis HFloat64 : forall f, P (VFloat64 f).
Hypothesis HNumber : forall n, P (VNumber n).
Hypothesis HStrings : forall vs, P (VStrings vs).
Hypothesis HMap : forall m, Forall (fun kv => P kv.2) m -> P (VMap m).
Hypothesis HSlice : forall vs, Forall P vs -> P (VSlice vs).

Fixpoint value_nested_ind (v : value) : P v :=
  match v with
  | VNil => HNil
  | VBool b => HBool b
  | VString s => HString s
  | VFloat64 f => HFloat64 f
  | VNumber n => HNumber n
  | VStrings vs => HStrings vs
  | VMap m =>
    HMap m ((fix members (m : list (string * value)) : Forall (fun kv => P kv.2) m :=
               match m with
               | [] => List.Forall_nil _
               | (k, e) :: m' =>
                 @List.Forall_cons _ (fun kv => P kv.2) (k, e) m'
                   (value_nested_ind e) (members m')
               end) m)
  | VSlice vs =>
    HSlice vs ((fix elements (vs : list value) : Forall P vs :=
                  match vs with
                  | [] => List.Forall_nil _
                  | e :: vs' =>
                    @List.Forall_cons _ P e vs' (value_nested_ind e) (elements vs')
                  end) vs)
  end.
End ValueInd.

Section AddValuesMore.
Context `{Collaborators}.

Lemma added_slice vs : added (VSlice vs) = vs ≫= added.
Proof. simpl. induction vs as [|v vs IH]; [done|]. by rewrite IH. Qed.

Lemma logged_slice vs : logged (VSlice vs) = vs ≫= logged.
Proof. simpl. induction vs as [|v vs IH]; [done|]. by rewrite IH. Qed.

Lemma Values_Add_other values key v k :
  k <> key -> Values_Add values key v !! k = values !! k.
Proof. intros Hne. unfold Values_Add. by rewrite lookup_insert_ne. Qed.

Lemma adds_trans st1 st2 st3 key vs1 ls1 vs2 ls2 :
  adds st1 st2 key vs1 ls1 -> adds st2 st3 key vs2 ls2 ->
  adds st1 st3 key (vs1 ++ vs2) (ls1 ++ ls2).
Proof.
  intros (Ha & Hb & Hc) (Ha' & Hb' & Hc'). split_and!.
  - by rewrite Ha', Ha, <- app_assoc.
  - intros k Hk. by rewrite Hb', Hb.
  - by rewrite Hc', Hc, <- app_assoc.
Qed.

Lemma adds_one st key v : adds st (Values_Add st.1 key v, st.2) key [v] [].
Proof.
  split_and!; simpl.
  - apply Values_Add_lookup.
  - intros k Hk. by apply Values_Add_other.
  - by rewrite app_nil_r.
Qed.

Lemma addValues_adds key v st :
  adds st (addValues st key v) key (added v) (logged v).
Proof.
  revert st. induction v as [| | | | | |m _|vs IH] using value_nested_ind; intros st;
    try (by apply adds_one).
  - split_and!; simpl; [by rewrite app_nil_r|done|done].
  - destruct b; apply adds_one.
  - split_and!; simpl; [by rewrite app_nil_r|done|done].
  - split_and!; simpl; [by rewrite app_nil_r|done|done].
  - rewrite addValues_map. change (added (VMap m)) with m.*1.
    change (logged (VMap m)) with (@nil string).
    generalize (m.*1). clear m. intros ks. revert st.
    induction ks as [|k ks IHk]; intros st.
    + split_and!; simpl; by rewrite ?app_nil_r.
    + cbn [fold_left]. 
      exact (adds_trans st _ _ key [k] [] ks [] (adds_one st key k) (IHk _)).
  - rewrite addValues_slice, added_slice, logged_slice. revert st.
    induction IH as [|v vs Hv _ IHvs]; intros st.
    + split_and!; simpl; by rewrite ?app_nil_r.
    + cbn [fold_left mbind list_bind]. 
      exact (adds_trans st _ _ key _ _ _ _ (Hv st) (IHvs _)).
Qed.

End AddValuesMore.

(** ** Facts about the compilation of the request *)

Section MainFacts.
Context `{Collaborators}.

Lemma map_range_elem {A} (m : gmap string A) k v :
  (k, v) ∈ map_range m <-> m !! k = Some v.
Proof. rewrite map_range_perm. apply elem_of_map_to_list. Qed.

Lemma map_range_NoDup {A} (m : gmap string A) : NoDup (map_range m).*1.
Proof. rewrite map_range_perm. apply NoDup_fst_map_to_list. Qed.

Lemma map_range_empty {A} : map_range (∅ : gmap string A) = [].
Proof.
  apply Permutation_nil_r. rewrite map_range_perm. by rewrite map_to_list_empty.
Qed.

Lemma map_range_singleton {A} k (v : A) : map_range ({[k := v]} : gmap string A) = [(k, v)].
Proof.
  apply Permutation_singleton_r. rewrite map_range_perm.
  by rewrite map_to_list_singleton.
Qed.

(** A loop that stores [f v] at [k] for the pairs of a list without
    repeated keys. *)
Lemma fold_insert_lookup {A B} (f : A -> B) (l : list (string * A)) (bp : gmap string B) k :
  NoDup l.*1 ->
  fold_left (fun bp kv => <[kv.1 := f kv.2]> bp) l bp !! k =
  match list_find (fun kv => kv.1 = k) l with
  | Some (_, kv) => Some (f kv.2)
  | None => bp !! k
  end.
Proof.
  revert bp. induction l as [|[k' v] l IH]; intros bp Hnd; [done|].
  apply NoDup_cons in Hnd as [Hk' Hnd]. simpl. rewrite IH by done.
  case_decide as Hk; simpl in *.
  - subst k'. destruct (list_find _ l) as [[i [k2 v2]]|] eqn:Hfind; simpl.
    + apply list_find_Some in Hfind as (Hi & Heq & _). simpl in *. subst k2.
      exfalso. apply Hk'. apply list_elem_of_fmap. exists (k, v2). split; [done|].
      by eapply list_elem_of_lookup_2.
    + by rewrite lookup_insert_eq.
  - destruct (list_find _ l) as [[i [k2 v2]]|] eqn:Hfind; simpl; [done|].
    by rewrite lookup_insert_ne.
Qed.

Lemma list_find_map_range {A} (m : gmap string A) k :
  (snd <$> list_find (fun kv => kv.1 = k) (map_range m)) = ((fun v => (k, v)) <$> m !! k).
Proof.
  destruct (list_find _ (map_range m)) as [[i [k' v]]|] eqn:Hfind; simpl.
  - apply list_find_Some in Hfind as (Hi & Heq & _). simpl in *. subst k'.
    apply list_elem_of_lookup_2, map_range_elem in Hi. by rewrite Hi.
  - destruct (m !! k) as [v|] eqn:Hk; [|done].
    apply map_range_elem in Hk. eapply list_find_None in Hfind.
    rewrite Forall_forall in Hfind. by destruct (Hfind _ Hk).
Qed.

Lemma merge_body_lookup h (b : gmap string Slice.t) k :
  merge_body h b ∅ !! k = (fun s => collapse (Slice.elems h s)) <$> b !! k.
Proof.
  unfold merge_body.
  assert (forall l bp,
    fold_left (fun (bp : gmap string value) (kv : string * Slice.t) =>
                 match Slice.elems h kv.2 with
                 | [v0] => <[kv.1 := VString v0]> bp
                 | _ => <[kv.1 := VStrings (Slice.elems h kv.2)]> bp
                 end) l bp =
    fold_left (fun bp kv => <[kv.1 := (fun s => collapse (Slice.elems h s)) kv.2]> bp) l bp)
    as ->.
  { induction l as [|kv l IH]; intros bp; [done|]. simpl. rewrite IH.
    f_equal. unfold collapse. by destruct (Slice.elems h kv.2) as [|? [|? ?]]. }
  pose proof (fold_insert_lookup (fun s => collapse (Slice.elems h s))
                (map_range b) ∅ k (map_range_NoDup b)) as Hfold.
  simpl in Hfold. rewrite Hfold. clear Hfold.
  pose proof (list_find_map_range b k) as Hf.
  destruct (list_find _ (map_range b)) as [[i kv]|]; simpl in *;
    destruct (b !! k); simplify_eq/=; done.
Qed.

(** The loop over the JSON fragments either stops at a fragment that does
    not decode, or stores the decoded value of every fragment. *)
Lemma merge_js_spec (l : list (string * string)) bp log :
  NoDup l.*1 ->
  (exists k raw, (k, raw) ∈ l /\ json_Unmarshal raw = None /\
                 merge_js l bp log = (Fatal ("invalid json: " +:+ raw), log)) \/
  (exists bp', merge_js l bp log = (Done bp', log) /\
               (forall k raw, (k, raw) ∈ l -> bp' !! k = json_Unmarshal raw /\
                                             is_Some (json_Unmarshal raw)) /\
               (forall k, k ∉ l.*1 -> bp' !! k = bp !! k)).
Proof.
  revert bp. induction l as [|[k raw] l IH]; intros bp Hnd.
  { right. exists bp. split_and!; [done| |done]. by intros ?? ?%elem_of_nil. }
  apply NoDup_cons in Hnd as [Hk Hnd]. simpl.
  destruct (json_Unmarshal raw) as [vint|] eqn:Hraw.
  - destruct (IH (<[k := vint]> bp) Hnd) as [(k' & raw' & Hin & Hnone & ->)|(bp' & -> & Hl & Hr)].
    + left. exists k', raw'. split_and!; [by right|done|done].
    + right. exists bp'. split_and!; [done| |].
      * intros k' raw' [?|Hin]%elem_of_cons.
        -- simplify_eq. rewrite Hr by done. rewrite lookup_insert_eq. by rewrite Hraw.
        -- by apply Hl.
      * intros k' Hk'. apply not_elem_of_cons in Hk' as [Hne Hk'].
        rewrite Hr by done. by rewrite lookup_insert_ne.
  - left. exists k, raw. split_and!; [by left|done|done].
Qed.

Lemma find_raw_body_spec (files : gmap string string) (postFiles : bool) :
  find_raw_body (map_range files) (EmptyString, postFiles) =
  match files !! "-" with
  | Some v => (v, false)
  | None => (EmptyString, postFiles)
  end.
Proof.
  unfold find_raw_body.
  assert (forall (l : list (string * string)) st,
    NoDup l.*1 ->
    fold_left (fun (st : string * bool) (kv : string * string) =>
                 if decide (kv.1 = "-") then (kv.2, false) else st) l st =
    match list_find (fun kv => kv.1 = "-") l with
    | Some (_, kv) => (kv.2, false)
    | None => st
    end) as Hfold.
  { induction l as [|[k v] l IH]; intros st Hnd; [done|].
    apply NoDup_cons in Hnd as [Hk Hnd]. simpl. rewrite IH by done.
    case_decide as Hd; simpl in *.
    - subst k. destruct (list_find _ l) as [[i [k2 v2]]|] eqn:Hfind; simpl; [|done].
      apply list_find_Some in Hfind as (Hi & Heq & _). simpl in *. subst k2.
      exfalso. apply Hk. apply list_elem_of_fmap. exists ("-", v2). split; [done|].
      by eapply list_elem_of_lookup_2.
    - by destruct (list_find _ l) as [[i [k2 v2]]|]. }
  rewrite Hfold by apply map_range_NoDup.
  pose proof (list_find_map_range files "-") as Hf.
  destruct (list_find _ (map_range files)) as [[i kv]|]; simpl in *;
    destruct (files !! "-"); simplify_eq/=; done.
Qed.


(** The body assembler with a raw body file of a non-empty name. *)
Lemma assemble_bundle_raw pf um (files : gmap string string) (bp : gmap string value)
    hdr log path :
  files !! "-" = Some path -> path <> EmptyString ->
  assemble_bundle pf um files bp hdr log =
  if (1 <? Z.of_nat (size files))
  then (Fatal "only one input file allowed when setting raw body", log)
  else
    (match os_Open path with
     | OpenError err => Fatal ("unable to open file for body: " +:+ err)
     | ReadError err => Fatal ("error reading body contents: " +:+ err)
     | FileData b => Done (Some b, Header_Add hdr "Content-Type" "application/octet-stream")
     end,
     if (0 <? Z.of_nat (size bp)) then log ++ [raw_body_warning] else log).
Proof.
  intros Hfile Hpath. unfold assemble_bundle.
  rewrite find_raw_body_spec, Hfile. unfold assemble.
  rewrite bool_decide_eq_false_2 by done. simpl.
  destruct (1 <? Z.of_nat (size files)); [done|].
  unfold mbind, M_bind, mret, M_ret, log_Println, log_Fatal.
  destruct (0 <? Z.of_nat (size bp)); by destruct (os_Open path).
Qed.

(** The body assembler without files and without body parameters. *)
Lemma assemble_bundle_nothing pf um hdr log :
  assemble_bundle pf um ∅ ∅ hdr log = (Done (None, hdr), log).
Proof.
  unfold assemble_bundle. rewrite find_raw_body_spec, lookup_empty.
  unfold assemble. rewrite bool_decide_eq_true_2 by done.
  by rewrite !map_size_empty.
Qed.

Lemma body_parameters_nothing h kvp log :
  body kvp = ∅ -> js kvp = ∅ -> body_parameters h kvp log = (Done ∅, log).
Proof.
  intros Hb Hj. unfold body_parameters, merge_body.
  by rewrite Hb, Hj, !map_range_empty.
Qed.

(** The request of a bundle without body fields, JSON fragments and
    files. *)
Lemma build_request_nothing pf um method mp u h kvp log :
  body kvp = ∅ -> js kvp = ∅ -> file kvp = ∅ ->
  build_request pf um method mp u h kvp log =
  (Done (mk_Request method u
           (if (0 <? Z.of_nat (size (query kvp)))
            then Some (Values_Encode (add_query h (query kvp) (URL_Query u)))
            else None)
           ∅ None 0), log).
Proof.
  intros Hb Hj Hf. unfold build_request.
  unfold mbind at 1. unfold M_bind. rewrite body_parameters_nothing by done.
  unfold mbind, M_bind. rewrite Hf, assemble_bundle_nothing. done.
Qed.

(** The method of a request that was built. *)
Lemma build_request_method pf um method mp u h kvp log req log' :
  build_request pf um method mp u h kvp log = (Done req, log') ->
  Method req =
    match Body req with
    | Some _ => if mp then method else "POST"
    | None => method
    end.
Proof.
  unfold build_request, mbind, M_bind, mret, M_ret.
  destruct (body_parameters h kvp log) as [[bp| |] log1]; try done.
  destruct (assemble_bundle pf um (file kvp) bp ∅ log1) as [[[[b|] hdr]| |] log2];
    try done; by intros [= <- <-].
Qed.

End MainFacts.

Section MethodFacts.
Context `{Collaborators}.

Lemma main_request_method postform useMultipart args log req log' :
  main_request postform useMultipart args log = (Done (Some req), log') ->
  Method req = effective_method postform args (Body req).
Proof.
  unfold main_request, effective_method, split_method.
  destruct args as [|args0 args]; [done|].
  case_bool_decide as Htok; simpl.
  - destruct args as [|a0 args]; [done|].
    destruct (NewRequest_error _ _); [done|].
    destruct (parseArgs growcap args) as [[h kvp]| |]; try done.
    unfold mbind, M_bind, mret, M_ret.
    destruct (build_request _ _ _ _ _ _ _ _) as [[r| |] log1] eqn:Hb; try done.
    intros [= <- <-]. apply build_request_method in Hb. rewrite Hb.
    by destruct (Body r).
  - destruct (NewRequest_error _ _); [done|].
    destruct (parseArgs growcap args) as [[h kvp]| |]; try done.
    unfold mbind, M_bind, mret, M_ret.
    destruct (build_request _ _ _ _ _ _ _ _) as [[r| |] log1] eqn:Hb; try done.
    intros [= <- <-]. apply build_request_method in Hb. rewrite Hb.
    by destruct postform, (Body r).
Qed.

Lemma main_request_get_query useMultipart log :
  NewRequest_error "GET" "http://httpbin.org/get" = None ->
  URL_Query "http://httpbin.org/get" = ∅ ->
  Values_Encode {["q" := ["5"]]} = "q=5" ->
  main_request false useMultipart ["httpbin.org/get"; "q==5"] log =
  (Done (Some (mk_Request "GET" "http://httpbin.org/get" (Some "q=5") ∅ None 0)), log).
Proof.
  intros Hnew Hquery Henc. unfold main_request.
  change (split_method false "httpbin.org/get" ["httpbin.org/get"; "q==5"])
    with ("GET", false, ["httpbin.org/get"; "q==5"]).
  cbv beta iota.
  change (negb (String.prefix "http://" "httpbin.org/get")
          && negb (String.prefix "https://" "httpbin.org/get")) with true.
  cbv beta iota.
  change ("http://" +:+ "httpbin.org/get") with "http://httpbin.org/get".
  rewrite Hnew.
  destruct (parseArgs growcap ["q==5"]) as [[h kvp]| |] eqn:Hp;
    vm_compute in Hp; try discriminate Hp.
  injection Hp as <- <-.
  unfold mbind, M_bind, mret, M_ret.
  rewrite build_request_nothing by done.
  set (s := Slice.mk _ _ _).
  change (query (mk_kvpairs _ _ _ _ _)) with ({["q" := s]} : gmap string Slice.t).
  rewrite map_size_singleton. simpl. unfold add_query.
  rewrite map_range_singleton, Hquery. simpl.
  change (Slice.elems _ s) with ["5"]. simpl.
  unfold Values_Add. rewrite lookup_empty. simpl. rewrite insert_empty.
  by rewrite Henc.
Qed.

End MethodFacts.


(** ** Further facts about the compilation of the request *)

Section MainMore.
Context `{Collaborators}.

(** [main] in stages. *)
Lemma main_request_stages postform useMultipart args log :
  main_request postform useMultipart args log =
  match args with
  | [] => (Done None, log)
  | _ :: _ =>
    match after_method args with
    | [] => (Panicked, log)
    | a0 :: rest =>
      match NewRequest_error (first_method postform args) (with_scheme a0) with
      | Some err => (Fatal ("error creating request object: " +:+ err), log)
      | None =>
        match parseArgs growcap rest with
        | Panic => (Panicked, log)
        | Err msg => (Fatal msg, log)
        | Ok (h, kvp) =>
          match build_request postform useMultipart (first_method postform args)
                  (method_given postform args) (with_scheme a0) h kvp log with
          | (Done req, log') => (Done (Some req), log')
          | (Fatal msg, log') => (Fatal msg, log')
          | (Panicked, log') => (Panicked, log')
          end
        end
      end
    end
  end.
Proof.
  unfold main_request, split_method, after_method, first_method, method_given.
  destruct args as [|args0 args]; [done|].
  case_bool_decide as Htok; simpl.
  - destruct args as [|a0 rest]; [done|]. fold (with_scheme a0).
    destruct (NewRequest_error _ _); [done|].
    by destruct (parseArgs growcap rest) as [[h kvp]| |].
  - fold (with_scheme args0).
    replace (if postform then "POST" else "GET")
      with (if postform then "POST" else "GET") by done.
    destruct (NewRequest_error _ _); [done|].
    destruct (parseArgs growcap args) as [[h kvp]| |]; try done.
Qed.

Lemma no_panic_ret {A} (a : A) : no_panic (mret a).
Proof. by intros log log'. Qed.

Lemma no_panic_fatal {A} msg : no_panic (@log_Fatal A msg).
Proof. by intros log log'. Qed.

Lemma no_panic_bind {A B} (m : M A) (f : A -> M B) :
  no_panic m -> (forall a, no_panic (f a)) -> no_panic (m ≫= f).
Proof.
  intros Hm Hf log log'. unfold mbind, M_bind.
  destruct (m log) as [[a|msg|] log1] eqn:Hml; [apply Hf|done|].
  by destruct (Hm log log1).
Qed.

Lemma no_panic_merge_js l bp : no_panic (merge_js l bp).
Proof.
  revert bp. induction l as [|[k v] l IH]; intros bp; simpl; [apply no_panic_ret|].
  destruct (json_Unmarshal v); [apply IH|apply no_panic_fatal].
Qed.

Lemma no_panic_multipart_files l : no_panic (multipart_files l).
Proof.
  induction l as [|[k v] l IH]; simpl; [apply no_panic_ret|].
  destruct (os_Open v); try apply no_panic_fatal.
  apply no_panic_bind; [done|]. intros parts. apply no_panic_ret.
Qed.

Lemma no_panic_files_as_values l bp : no_panic (files_as_values l bp).
Proof.
  revert bp. induction l as [|[k v] l IH]; intros bp; simpl; [apply no_panic_ret|].
  destruct (os_Open v); try apply no_panic_fatal. apply IH.
Qed.

Lemma no_panic_form_values bp : no_panic (form_values bp).
Proof. by intros log log'. Qed.

Lemma no_panic_assemble pf um files bp raw postFiles hdr :
  no_panic (assemble pf um files bp raw postFiles hdr).
Proof.
  unfold assemble. repeat case_match;
    repeat first
      [ apply no_panic_fatal | apply no_panic_ret
      | apply no_panic_bind; [|intros ?]
      | apply no_panic_multipart_files | apply no_panic_files_as_values
      | apply no_panic_form_values ];
    by intros log log'.
Qed.

Lemma no_panic_build_request pf um method mp u h kvp :
  no_panic (build_request pf um method mp u h kvp).
Proof.
  unfold build_request, body_parameters, assemble_bundle.
  apply no_panic_bind; [apply no_panic_merge_js|]. intros bp.
  destruct (find_raw_body _ _) as [raw postFiles].
  apply no_panic_bind; [apply no_panic_assemble|]. intros [[b|] hdr];
    apply no_panic_ret.
Qed.

Lemma build_request_Done pf um method mp u h kvp log req log' :
  build_request pf um method mp u h kvp log = (Done req, log') ->
  exists bp log1 body hdr,
    body_parameters h kvp log = (Done bp, log1) /\
    assemble_bundle pf um (file kvp) bp ∅ log1 = (Done (body, hdr), log') /\
    URL req = u /\
    RawQuery req =
      (if (0 <? Z.of_nat (size (query kvp)))
       then Some (Values_Encode (add_query h (query kvp) (URL_Query u)))
       else None) /\
    Body req = body /\
    Headers req =
      match body with
      | Some b => Header_Set hdr "Content-Length" (Itoa (String.length b))
      | None => hdr
      end /\
    ContentLength req =
      match body with Some b => Z.of_nat (String.length b) | None => 0 end.
Proof.
  unfold build_request, mbind, M_bind, mret, M_ret.
  destruct (body_parameters h kvp log) as [[bp| |] log1]; try done.
  destruct (assemble_bundle pf um (file kvp) bp ∅ log1) as [[[[b|] hdr]| |] log2] eqn:Ha;
    try done; intros [= <- <-]; by eexists _, _, _, _.
Qed.

(** The headers and the body that [assemble] gives for empty headers. *)
Lemma assemble_headers pf um files bp raw postFiles log body hdr log' :
  assemble pf um files bp raw postFiles ∅ log = (Done (body, hdr), log') ->
  (body = None /\ hdr = ∅) \/
  (exists ct, ct ∈ content_types /\ hdr = {["Content-Type" := [ct]]} /\
              (body = None -> ct = "application/json")).
Proof.
  unfold assemble, content_types, mbind, M_bind, mret, M_ret, log_Fatal, log_Println.
  unfold Header_Add, Header_Set. rewrite lookup_empty. simpl.
  rewrite !insert_empty.
  repeat case_match; intros; simplify_eq; try (by left);
    right; eexists; (split; [|split; [reflexivity|done]]); set_solver.
Qed.

Lemma parseArgs_no_panic args : parseArgs growcap args <> Panic.
Proof.
  pose proof (OutcomeFacts.parseArgs_loop_outcome growcap args ([], kvpairs_empty)) as Ho.
  unfold parseArgs. destruct (list_find _ args) as [[i a]|].
  - by rewrite Ho.
  - destruct Ho as [st ->]. done.
Qed.

Lemma main_request_Done pf um args log req log' :
  main_request pf um args log = (Done (Some req), log') ->
  exists a0 rest h kvp,
    after_method args = a0 :: rest /\
    NewRequest_error (first_method pf args) (with_scheme a0) = None /\
    parseArgs growcap rest = Ok (h, kvp) /\
    build_request pf um (first_method pf args) (method_given pf args)
      (with_scheme a0) h kvp log = (Done req, log').
Proof.
  rewrite main_request_stages. destruct args as [|a args]; [done|].
  destruct (after_method (a :: args)) as [|a0 rest]; [done|].
  destruct (NewRequest_error _ _) eqn:Hnew; [done|].
  destruct (parseArgs growcap rest) as [[h kvp]| |] eqn:Hp; try done.
  destruct (build_request _ _ _ _ _ _ _ _) as [[r| |] log1] eqn:Hb; try done.
  intros [= <- <-]. by exists a0, rest, h, kvp.
Qed.

Lemma with_scheme_prefix a0 :
  String.prefix "http://" (with_scheme a0) = true \/
  String.prefix "https://" (with_scheme a0) = true.
Proof.
  unfold with_scheme.
  destruct (String.prefix "http://" a0) eqn:H1; [by left|].
  destruct (String.prefix "https://" a0) eqn:H2; [by right|].
  left. simpl. by destruct a0.
Qed.

(** The loop that adds the query parameters, key by key. *)
Lemma add_query_lookup h (q : gmap string Slice.t) base k :
  default [] (add_query h q base !! k) =
  default [] (base !! k) ++ Slice.elems h (slice_at q k).
Proof.
  unfold add_query, slice_at.
  pose proof (list_find_map_range q k) as Hfind.
  pose proof (map_range_NoDup q) as Hnd.
  assert (Slice.elems h (default Slice.nil (q !! k)) =
          match list_find (fun kv => kv.1 = k) (map_range q) with
          | Some (_, kv) => Slice.elems h kv.2
          | None => []
          end) as ->.
  { destruct (list_find _ (map_range q)) as [[i kv]|]; simpl in *;
      destruct (q !! k); simplify_eq/=; done. }
  clear Hfind. revert base. generalize (map_range q) Hnd. clear Hnd.
  intros l Hnd. induction l as [|[k' s] l IH]; intros base.
  { simpl. by rewrite app_nil_r. }
  apply NoDup_cons in Hnd as [Hk' Hnd]. cbn [fold_left]. rewrite IH by done.
  assert (forall vs qp,
    default [] (fold_left (fun qp v => Values_Add qp k' v) vs qp !! k) =
    default [] (qp !! k) ++ (if decide (k' = k) then vs else [])) as Hin.
  { clear. induction vs as [|v vs IH]; intros qp.
    - simpl. case_decide; by rewrite app_nil_r.
    - cbn [fold_left]. rewrite IH. case_decide as Hk.
      + subst. rewrite Values_Add_lookup. by rewrite <- app_assoc.
      + unfold Values_Add. by rewrite lookup_insert_ne. }
  cbn [fst snd]. rewrite Hin. cbn [list_find]. simpl.
  destruct (decide (k' = k)) as [->|Hne].
  - simpl. destruct (list_find _ l) as [[i [k2 v2]]|] eqn:Hfind; simpl.
    + apply list_find_Some in Hfind as (Hi & Heq & _). simpl in *. subst k2.
      exfalso. apply Hk'. apply list_elem_of_fmap. exists (k, v2). split; [done|].
      by eapply list_elem_of_lookup_2.
    + by rewrite app_nil_r.
  - simpl. rewrite app_nil_r. by destruct (list_find _ l) as [[i [k2 v2]]|].
Qed.

Lemma multipart_files_Done l log parts log' :
  multipart_files l log = (Done parts, log') ->
  Forall (fun kv => readable kv.2) l /\ log' = log.
Proof.
  revert parts. induction l as [|[k v] l IH]; intros parts; simpl.
  { by intros [= <- <-]. }
  destruct (os_Open v) as [err|err|c] eqn:Hopen; try done.
  unfold mbind, M_bind, mret, M_ret.
  destruct (multipart_files l log) as [[ps| |] log1] eqn:Hl; try done.
  intros [= <- <-]. destruct (IH ps eq_refl) as [Hall ->].
  split; [|done]. apply Forall_cons_2; [by exists c|done].
Qed.

Lemma files_as_values_Done l bp log bp' log' :
  files_as_values l bp log = (Done bp', log') ->
  Forall (fun kv => readable kv.2) l /\ log' = log.
Proof.
  revert bp. induction l as [|[k v] l IH]; intros bp; simpl.
  { by intros [= <- <-]. }
  destruct (os_Open v) as [err|err|c] eqn:Hopen; try done.
  intros [Hall ->]%IH. split; [|done]. apply Forall_cons_2; [by exists c|done].
Qed.

Lemma size_le_1_lookup {A} (m : gmap string A) k1 k2 v1 v2 :
  (size m <= 1)%nat -> m !! k1 = Some v1 -> m !! k2 = Some v2 -> k1 = k2.
Proof.
  intros Hsz H1 H2. destruct (decide (k1 = k2)) as [|Hne]; [done|].
  exfalso. rewrite <- (insert_id m k1 v1) in Hsz by done.
  rewrite <- insert_delete_eq in Hsz.
  rewrite map_size_insert_None in Hsz by apply lookup_delete_eq.
  assert (size (delete k1 m) <> 0)%nat; [|lia].
  apply (map_size_ne_0_lookup_2 _ k2). by rewrite lookup_delete_ne.
Qed.

(** A body is assembled only when every file of the bundle was read. *)
Lemma assemble_bundle_readable pf um files bp hdr log r log' :
  assemble_bundle pf um files bp hdr log = (Done r, log') ->
  forall k path, files !! k = Some path -> readable path.
Proof.
  unfold assemble_bundle. rewrite find_raw_body_spec.
  assert (forall l : list (string * string),
            Forall (fun kv => readable kv.2) l ->
            (forall k path, (k, path) ∈ l -> readable path)) as Hall.
  { intros l Hl k path Hin. rewrite Forall_forall in Hl. apply (Hl _ Hin). }
  destruct (files !! "-") as [raw|] eqn:Hraw; unfold assemble.
  - case_bool_decide as Hempty; simpl.
    + assert (size files <> 0)%nat as Hsz by by apply (map_size_ne_0_lookup_2 _ "-").
      destruct (Z.ltb_spec 0 (Z.of_nat (size files))); [|lia].
      rewrite orb_true_r. unfold mbind at 1. unfold M_bind.
      destruct (files_as_values _ _ _) as [[bp'| |] log1] eqn:Hf; try done.
      intros _ k path Hk. apply files_as_values_Done in Hf as [Hf _].
      apply (Hall _ Hf k). by apply map_range_elem.
    + destruct (Z.ltb_spec 1 (Z.of_nat (size files))); [done|].
      unfold mbind, M_bind.
      destruct (if 0 <? Z.of_nat (size bp) then _ else _) as [[[]| |] log1]; try done.
      destruct (os_Open raw) as [err|err|c] eqn:Hopen; try done.
      intros _ k path Hk.
      assert (k = "-") as -> by (apply (size_le_1_lookup files _ _ path raw); [lia|done..]).
      simplify_eq. by exists c.
  - simpl. destruct (0 <? Z.of_nat (size files)) eqn:Hsz; simpl.
    + destruct um; simpl.
      * unfold mbind at 1. unfold M_bind.
        destruct (multipart_files _ _) as [[ps| |] log1] eqn:Hf; try done.
        intros _ k path Hk. apply multipart_files_Done in Hf as [Hf _].
        apply (Hall _ Hf k). by apply map_range_elem.
      * rewrite orb_true_r. unfold mbind at 1. unfold M_bind.
        destruct (files_as_values _ _ _) as [[bp'| |] log1] eqn:Hf; try done.
        intros _ k path Hk. apply files_as_values_Done in Hf as [Hf _].
        apply (Hall _ Hf k). by apply map_range_elem.
    + intros _ k path Hk. apply Z.ltb_ge in Hsz.
      assert (size files <> 0)%nat by by apply (map_size_ne_0_lookup_2 _ k).
      lia.
Qed.

Lemma size_pos {A} (m : gmap string A) :
  (0 <? Z.of_nat (size m)) = negb (bool_decide (m = ∅)).
Proof.
  case_bool_decide as Hm; simpl.
  - subst. by rewrite map_size_empty.
  - apply map_size_non_empty_iff in Hm. apply Z.ltb_lt. lia.
Qed.



(** The body parameters and the body of a request without File and Query
    tokens. *)
Lemma main_request_plain_body (pf um : bool) (args log : list string) (req : Request)
    (log' : list string) :
  main_request pf um args log = (Done (Some req), log') ->
  let rest := tail (after_method args) in
  kvpFile ∉ kinds rest -> kvpQuery ∉ kinds rest ->
  exists (bp : gmap string value) (log1 : list string),
    (forall k, bp !! k =
               match last (tokens_of kvpJSON k rest) with
               | Some raw => json_Unmarshal raw
               | None => VString <$> last (tokens_of kvpBody k rest)
               end) /\
    Body req =
      if decide (bp = ∅) then None
      else if pf then
        Some (Values_Encode
                (fold_left (fun st kv => addValues st kv.1 kv.2) (map_range bp) (∅, log1)).1)
      else json_Marshal bp.
Proof.
  intros (a0 & rest & h & kvp & Ha & _ & Hp & Hb)%main_request_Done.
  apply build_request_Done in Hb
    as (bp & log1 & bd & hdr & Hbp & Has & _ & _ & -> & _).
  cbv zeta. rewrite Ha. cbn [tail]. intros Hnf Hnq.
  destruct (KindFacts.parseArgs_loop_kinds _ _ _ _ Hp) as (_ & _ & Hkf).
  assert (file kvp = ∅) as Hfile by (apply Hkf; by split).
  exists bp, log1. split.
  - intros k.
    destruct (ArgsFacts.parseArgs_query_header_json_file _ _ _ k Hp) as (_ & _ & Hj & _).
    simpl in Hj. rewrite <- Hj.
    unfold body_parameters in Hbp.
    destruct (merge_js_spec (map_range (js kvp)) (merge_body h (body kvp) ∅) log
                (map_range_NoDup _))
      as [(k' & raw' & Hin & Hnone & Hm')|(bp' & Hm' & Hl & Hr)];
      rewrite Hm' in Hbp; [done|]. injection Hbp as -> ->.
    destruct (js kvp !! k) as [raw|] eqn:Hk.
    + apply map_range_elem in Hk. by destruct (Hl _ _ Hk) as [-> _].
    + rewrite Hr.
      * rewrite merge_body_lookup.
        apply (LastFacts.parseArgs_body_last _ _ (h, kvp) k Hp Hnq).
      * intros ([k' raw] & -> & Hin%map_range_elem)%list_elem_of_fmap.
        simpl in Hk. congruence.
  - rewrite Hfile in Has. unfold assemble_bundle in Has.
    rewrite map_range_empty in Has. simpl in Has.
    unfold assemble in Has. simpl in Has. rewrite map_size_empty in Has.
    simpl in Has. rewrite orb_false_r, size_pos in Has.
    case_decide as Hempty.
    + rewrite bool_decide_eq_true_2 in Has by done. simpl in Has.
      by injection Has as <- _ _.
    + rewrite bool_decide_eq_false_2 in Has by done. simpl in Has.
      rewrite map_range_empty in Has. simpl in Has.
      destruct pf; simpl in Has.
      * unfold mbind, M_bind, mret, M_ret, form_values in Has.
        by injection Has as <- _ _.
      * by injection Has as <- _ _.
Qed.

(** The loop that fills the form values, key by key. *)
Lemma form_values_lookup (l : list (string * value)) (st : Values * list string) k :
  NoDup l.*1 ->
  default [] ((fold_left (fun st kv => addValues st kv.1 kv.2) l st).1 !! k) =
  default [] (st.1 !! k) ++
  match list_find (fun kv => kv.1 = k) l with
  | Some (_, kv) => added kv.2
  | None => []
  end.
Proof.
  revert st. induction l as [|[k' v] l IH]; intros st Hnd.
  { simpl. by rewrite app_nil_r. }
  apply NoDup_cons in Hnd as [Hk' Hnd]. cbn [fold_left]. rewrite IH by done.
  destruct (addValues_adds k' v st) as (Hkey & Hother & _).
  cbn [list_find fst snd]. simpl. destruct (decide (k' = k)) as [->|Hne]; simpl.
  - rewrite Hkey. destruct (list_find _ l) as [[i [k2 v2]]|] eqn:Hfind; simpl.
    + apply list_find_Some in Hfind as (Hi & Heq & _). simpl in *. subst k2.
      exfalso. apply Hk'. apply list_elem_of_fmap. exists (k, v2). split; [done|].
      by eapply list_elem_of_lookup_2.
    + by rewrite app_nil_r.
  - rewrite Hother by done. by destruct (list_find _ l) as [[i [k2 v2]]|].
Qed.

End MainMore.

(** ** Facts about the JSON renderer *)

Lemma string_compare_refl s : String.compare s s = Eq.
Proof.
  induction s as [|a s IH]; [done|]. simpl.
  unfold Ascii.compare. by rewrite N.compare_refl.
Qed.

Lemma string_compare_trans s t u c :
  String.compare s t = c -> String.compare t u = c -> String.compare s u = c.
Proof.
  revert t u. induction s as [|a s IH]; intros [|b t] [|d u]; simpl; try congruence.
  unfold Ascii.compare.
  destruct (N.compare_spec (N_of_ascii a) (N_of_ascii b)) as [Hab|Hab|Hab];
    destruct (N.compare_spec (N_of_ascii b) (N_of_ascii d)) as [Hbd|Hbd|Hbd];
    destruct (N.compare_spec (N_of_ascii a) (N_of_ascii d)) as [Had|Had|Had];
    try congruence; try lia; eauto.
Qed.

#[global] Instance string_le_total : Total string_le.
Proof. intros s t. apply String.leb_total. Qed.

#[global] Instance string_le_antisymm : AntiSymm (=) string_le.
Proof. intros s t. apply String.leb_antisym. Qed.

#[global] Instance string_le_trans : Transitive string_le.
Proof.
  intros s t u. unfold string_le, String.leb.
  destruct (String.compare s t) eqn:Hst; try done;
    destruct (String.compare t u) eqn:Htu; try done; intros _ _.
  - by rewrite (string_compare_trans _ _ _ _ Hst Htu).
  - apply String.compare_eq_iff in Hst as ->. by rewrite Htu.
  - apply String.compare_eq_iff in Htu as <-. by rewrite Hst.
  - by rewrite (string_compare_trans _ _ _ _ Hst Htu).
Qed.

Lemma sort_Strings_sorted keys : StronglySorted string_le (sort_Strings keys).
Proof. apply StronglySorted_merge_sort; apply _. Qed.

Lemma sort_Strings_perm keys : sort_Strings keys ≡ₚ keys.
Proof. apply merge_sort_Permutation. Qed.

(** The result of sorting does not depend on the order of the input. *)
Lemma sort_Strings_proper keys keys' :
  keys ≡ₚ keys' -> sort_Strings keys = sort_Strings keys'.
Proof.
  intros Hp. apply (StronglySorted_unique string_le).
  - apply sort_Strings_sorted.
  - apply sort_Strings_sorted.
  - by rewrite !sort_Strings_perm.
Qed.

Lemma map_index_perm m m' key :
  NoDup m.*1 -> m ≡ₚ m' -> map_index m key = map_index m' key.
Proof.
  intros Hnd Hp. revert Hnd.
  induction Hp as [|[k v] m m' Hp IH|[k1 v1] [k2 v2] m|m1 m2 m3 H12 IH12 H23 IH23];
    intros Hnd; simpl in *.
  - done.
  - apply NoDup_cons in Hnd as [_ Hnd]. by rewrite IH.
  - apply NoDup_cons in Hnd as [Hn _]. repeat case_decide; try done.
    subst. exfalso. apply Hn. left.
  - rewrite IH12 by done. apply IH23. by rewrite <- H12.
Qed.

Section PrintJSONFacts.
Context `{Collaborators}.

Lemma print_members_true depth printed keys :
  print_members depth printed keys true =
  String.concat EmptyString
    (map (fun key => "," +:+ nl +:+ print_indent depth +:+ printJSON_string key true
                     +:+ ": " +:+ printed key) keys).
Proof.
  induction keys as [|k [|k' keys] IH]; try done.
  - simpl. by rewrite !app_empty_r.
  - change (print_members depth printed (k :: k' :: keys) true)
      with (("," +:+ nl) +:+ print_indent depth +:+ printJSON_string k true +:+ ": "
            +:+ printed k +:+ print_members depth printed (k' :: keys) true).
    rewrite IH. simpl. rewrite !app_assoc_str. done.
Qed.


Lemma print_members_false depth printed k keys :
  print_members depth printed (k :: keys) false =
  String.concat ("," +:+ nl)
    (map (fun key => print_indent depth +:+ printJSON_string key true
                     +:+ ": " +:+ printed key) (k :: keys)).
Proof.
  revert k. induction keys as [|k' keys IH]; intros k.
  - simpl. by rewrite !app_empty_r.
  - change (print_members depth printed (k :: k' :: keys) false)
      with (print_indent depth +:+ printJSON_string k true +:+ ": " +:+ printed k
            +:+ print_members depth printed (k' :: keys) true).
    assert (forall ks, print_members depth printed ks true =
                       String.concat EmptyString (map (fun key => ("," +:+ nl) +:+ print_indent depth +:+ printJSON_string key true +:+ ": " +:+ printed key) ks)) as Htrue.
    { intros ks. induction ks as [|x ks IHks]; [done|].
      change (print_members depth printed (x :: ks) true)
        with (("," +:+ nl) +:+ print_indent depth +:+ printJSON_string x true
              +:+ ": " +:+ printed x +:+ print_members depth printed ks true).
      rewrite IHks. destruct ks as [|y ks]; simpl; [by rewrite !app_empty_r|].
      by rewrite !app_assoc_str. }
    specialize (IH k'). 
    change (print_members depth printed (k' :: keys) false)
      with (print_indent depth +:+ printJSON_string k' true +:+ ": " +:+ printed k'
            +:+ print_members depth printed keys true) in IH.
    change (print_members depth printed (k' :: keys) true)
      with (("," +:+ nl) +:+ print_indent depth +:+ printJSON_string k' true
            +:+ ": " +:+ printed k' +:+ print_members depth printed keys true).
    rewrite IH. simpl. by rewrite !app_assoc_str.
Qed.

Lemma printed_at_members depth (m : list (string * value)) key :
  key ∈ m.*1 ->
  printed_at (map (fun kv => (kv.1, printJSON (depth + 1) kv.2 false)) m) key =
  printJSON (depth + 1) (map_index m key) false.
Proof.
  induction m as [|[k v] m IH]; simpl.
  - by intros ?%elem_of_nil.
  - intros [->|Hin]%elem_of_cons.
    + by rewrite !decide_True.
    + case_decide; [done|]. by apply IH.
Qed.

Lemma printJSON_map depth p m isKey :
  printJSON depth (VMap (p :: m)) isKey =
  "{" +:+ nl
  +:+ String.concat ("," +:+ nl)
        (map (member_line depth (p :: m)) (sort_Strings (p :: m).*1))
  +:+ nl +:+ print_indent (depth - 1) +:+ "}".
Proof.
  assert (forall l,
    (fix members (m : list (string * value)) : list (string * string) :=
       match m with
       | [] => []
       | (k, e) :: m' => (k, printJSON (depth + 1) e false) :: members m'
       end) l = map (fun kv => (kv.1, printJSON (depth + 1) kv.2 false)) l) as Hmem.
  { induction l as [|[k e] l IH]; [done|]. simpl. by rewrite <- IH. }
  change (printJSON depth (VMap (p :: m)) isKey)
    with ("{" +:+ nl
          +:+ print_members depth
                (printed_at
                   ((fix members (m : list (string * value)) : list (string * string) :=
                       match m with
                       | [] => []
                       | (k, e) :: m' => (k, printJSON (depth + 1) e false) :: members m'
                       end) (p :: m)))
                (sort_Strings (p :: m).*1) false
          +:+ nl +:+ print_indent (depth - 1) +:+ "}").
  rewrite Hmem.
  assert (print_members depth
            (printed_at (map (fun kv => (kv.1, printJSON (depth + 1) kv.2 false)) (p :: m)))
            (sort_Strings (p :: m).*1) false =
          String.concat ("," +:+ nl)
            (map (member_line depth (p :: m)) (sort_Strings (p :: m).*1))) as ->; [|done].
  pose proof (sort_Strings_perm (p :: m).*1) as Hperm.
  destruct (sort_Strings (p :: m).*1) as [|k keys] eqn:Hkeys.
  { by apply Permutation_nil_l in Hperm. }
  rewrite print_members_false. apply (f_equal (String.concat _)).
  apply map_ext_in. intros key Hin. unfold member_line.
  rewrite printed_at_members; [done|].
  rewrite <- Hperm. by apply list_elem_of_In.
Qed.

Lemma printJSON_map_perm depth m m' isKey :
  NoDup m.*1 -> m' ≡ₚ m ->
  printJSON depth (VMap m') isKey = printJSON depth (VMap m) isKey.
Proof.
  intros Hnd Hp. destruct m as [|p m], m' as [|p' m']; try done.
  - by apply Permutation_nil_r in Hp.
  - by apply Permutation_nil_l in Hp.
  - rewrite !printJSON_map.
    rewrite (sort_Strings_proper (p' :: m').*1 (p :: m).*1) by by rewrite Hp.
    assert (map (member_line depth (p' :: m')) (sort_Strings (p :: m).*1) =
            map (member_line depth (p :: m)) (sort_Strings (p :: m).*1)) as ->; [|done].
    apply map_ext. intros key. unfold member_line.
    by rewrite (map_index_perm (p :: m) (p' :: m') key).
Qed.

End PrintJSONFacts.

(** ** Facts about the headers and the printers *)

(** *** Basic authentication *)

Lemma SplitN_colon_spec s :
  match SplitN_colon s with
  | Some (u, p) => s = u +:+ ":" +:+ p /\ contains_byte ":" u = false
  | None => contains_byte ":" s = false
  end.
Proof.
  induction s as [|a s IH]; [done|]. cbn [SplitN_colon contains_byte].
  case_bool_decide as Ha.
  - subst. by split.
  - destruct (SplitN_colon s) as [[u p]|]; simpl.
    + destruct IH as [-> Hu]. split; [done|].
      by rewrite bool_decide_eq_false_2.
    + done.
Qed.

(** *** The final headers *)

Section HeadersFacts.
Context `{Collaborators}.
Variable canon : string -> string.

Lemma fold_set_miss (l : list (string * string)) hdr c :
  (forall k v, (k, v) ∈ l -> canon k <> c) ->
  fold_left (fun hdr kv => Header_Set hdr (canon kv.1) kv.2) l hdr !! c = hdr !! c.
Proof.
  revert hdr. induction l as [|[k v] l IH]; intros hdr Hl; [done|].
  cbn [fold_left]. rewrite IH by (intros k' v' Hin; apply (Hl k' v'); by right).
  unfold Header_Set. rewrite lookup_insert_ne; [done|]. apply (Hl k v). by left.
Qed.

Lemma fold_set_hit (l : list (string * string)) hdr k v :
  NoDup l.*1 -> (k, v) ∈ l ->
  (forall k' v', (k', v') ∈ l -> canon k' = canon k -> k' = k) ->
  fold_left (fun hdr kv => Header_Set hdr (canon kv.1) kv.2) l hdr !! canon k = Some [v].
Proof.
  revert hdr. induction l as [|[k1 v1] l IH]; intros hdr Hnd Hin Huniq.
  { by apply elem_of_nil in Hin. }
  apply NoDup_cons in Hnd as [Hk1 Hnd]. cbn [fold_left].
  apply elem_of_cons in Hin as [Heq|Hin].
  - injection Heq as <- <-. rewrite fold_set_miss.
    + unfold Header_Set. by rewrite lookup_insert_eq.
    + intros k' v' Hin' Hc. assert (k' = k) as -> by (apply (Huniq k' v'); [by right|done]).
      apply Hk1. apply list_elem_of_fmap. by exists (k, v').
  - apply IH; [done..|]. intros k' v' Hin'. apply (Huniq k' v'). by right.
Qed.

Lemma set_headers_miss (m : gmap string string) hdr c :
  (forall k, is_Some (m !! k) -> canon k <> c) ->
  set_headers canon m hdr !! c = hdr !! c.
Proof.
  intros Hm. apply fold_set_miss. intros k v Hin%map_range_elem. apply Hm. by eexists.
Qed.

Lemma set_headers_hit (m : gmap string string) hdr k v :
  m !! k = Some v ->
  (forall k', is_Some (m !! k') -> canon k' = canon k -> k' = k) ->
  set_headers canon m hdr !! canon k = Some [v].
Proof.
  intros Hk Huniq. apply fold_set_hit.
  - apply map_range_NoDup.
  - by apply map_range_elem.
  - intros k' v' Hin%map_range_elem. apply Huniq. by eexists.
Qed.

Lemma defaultHeaders_lookup host k :
  is_Some (defaultHeaders host !! k) <-> k = "User-Agent" \/ k = "Accept" \/ k = "Host".
Proof.
  unfold defaultHeaders. split.
  - intros [v Hv].
    apply lookup_insert_Some in Hv as [[Hk _]|[? Hv]]; [auto|].
    apply lookup_insert_Some in Hv as [[Hk _]|[? Hv]]; [auto|].
    apply lookup_singleton_Some in Hv as [Hk _]; auto.
  - intros [-> | [-> | ->]]; by eexists.
Qed.

End HeadersFacts.

Section PrintFacts.
Context `{Collaborators}.

Lemma print_header_lines_plain headers keys :
  Forall (fun k => exists v vs, headers !! k = Some (v :: vs)) keys ->
  print_header_lines false headers keys =
  Wrote (String.concat EmptyString (map (plain_header_line headers) keys)).
Proof.
  induction 1 as [|k keys (v & vs & Hk) _ IH]; [done|].
  cbn [print_header_lines map]. rewrite Hk, IH. unfold after.
  unfold plain_header_line at 2, Header_Get. rewrite Hk. simpl.
  f_equal. destruct keys; simpl; [by rewrite app_empty_r|done].
Qed.

Lemma print_header_lines_panics uc headers keys k :
  k ∈ keys -> headers !! k = Some [] ->
  exists out, print_header_lines uc headers keys = PanickedAfter out.
Proof.
  intros Hin Hk. induction keys as [|k' keys IH]; [by apply elem_of_nil in Hin|].
  cbn [print_header_lines].
  destruct (headers !! k') as [[|v vs]|] eqn:Hk'; [by eexists| |by eexists].
  apply elem_of_cons in Hin as [->|Hin]; [congruence|].
  destruct (IH Hin) as [out ->]. by eexists.
Qed.

Lemma header_keys_sorted (headers : Header) :
  sort_Strings (map_range headers).*1 = sort_Strings (map_to_list headers).*1.
Proof. apply sort_Strings_proper. by rewrite map_range_perm. Qed.

Lemma elem_of_header_keys (headers : Header) k :
  k ∈ sort_Strings (map_to_list headers).*1 <-> is_Some (headers !! k).
Proof.
  rewrite sort_Strings_perm, list_elem_of_fmap. split.
  - intros ([k' vs] & -> & Hin%elem_of_map_to_list). by eexists.
  - intros [vs Hk]. exists (k, vs). split; [done|]. by apply elem_of_map_to_list.
Qed.

(** [printHeaders] without colours. *)
Lemma printHeaders_plain headers :
  (forall k vs, headers !! k = Some vs -> vs <> []) ->
  printHeaders false headers =
  Wrote (String.concat EmptyString
           (map (plain_header_line headers) (sort_Strings (map_to_list headers).*1))).
Proof.
  intros Hne. unfold printHeaders. rewrite header_keys_sorted.
  apply print_header_lines_plain, Forall_forall. intros k [vs Hk]%elem_of_header_keys.
  destruct vs as [|v vs]; [by destruct (Hne _ _ Hk)|]. by eexists _, _.
Qed.

Lemma printHeaders_panics uc headers k :
  headers !! k = Some [] -> exists out, printHeaders uc headers = PanickedAfter out.
Proof.
  intros Hk. unfold printHeaders. rewrite header_keys_sorted.
  apply (print_header_lines_panics _ _ _ k); [|done].
  apply elem_of_header_keys. by eexists.
Qed.

Lemma app_empty_l s : EmptyString +:+ s = s.
Proof. done. Qed.

Lemma print_header_lines_colourless headers keys :
  colourless ->
  Forall (fun k => exists v vs, headers !! k = Some (v :: vs)) keys ->
  print_header_lines true headers keys = print_header_lines false headers keys.
Proof.
  intros [Hc Hr]. induction 1 as [|k keys (v & vs & Hk) _ IH]; [done|].
  cbn [print_header_lines]. rewrite IH, Hk.
  unfold header_line_start, header_line_end. rewrite !Hc, !Hr.
  by rewrite ?app_assoc_str, ?app_empty_l, ?app_assoc_str, ?app_empty_r, ?app_empty_l.
Qed.

End PrintFacts.

(** ** Further facts about the JSON renderer *)

Section PrintJSONMore.
Context `{Collaborators}.

Lemma print_elements_false depth e printed :
  print_elements depth (e :: printed) false =
  String.concat ("," +:+ nl) (map (fun e => print_indent depth +:+ e) (e :: printed)).
Proof.
  revert e. induction printed as [|e' printed IH]; intros e.
  - simpl. by rewrite !app_empty_r.
  - change (print_elements depth (e :: e' :: printed) false)
      with (print_indent depth +:+ e +:+ print_elements depth (e' :: printed) true).
    specialize (IH e').
    change (print_elements depth (e' :: printed) false)
      with (print_indent depth +:+ e' +:+ print_elements depth printed true) in IH.
    change (print_elements depth (e' :: printed) true)
      with (("," +:+ nl) +:+ print_indent depth +:+ e' +:+ print_elements depth printed true).
    rewrite IH. simpl. by rewrite !app_assoc_str.
Qed.

Lemma printJSON_slice depth e vs isKey :
  printJSON depth (VSlice (e :: vs)) isKey =
  "[" +:+ nl
  +:+ String.concat ("," +:+ nl) (map (element_line depth) (e :: vs))
  +:+ nl +:+ print_indent (depth - 1) +:+ "]".
Proof.
  assert (forall l,
    (fix elements (vs : list value) : list string :=
       match vs with
       | [] => []
       | e :: vs' => printJSON (depth + 1) e false :: elements vs'
       end) l = map (fun e => printJSON (depth + 1) e false) l) as Hel.
  { induction l as [|x l IH]; [done|]. simpl. by rewrite <- IH. }
  change (printJSON depth (VSlice (e :: vs)) isKey)
    with ("[" +:+ nl
          +:+ print_elements depth
                ((fix elements (vs : list value) : list string :=
                    match vs with
                    | [] => []
                    | e :: vs' => printJSON (depth + 1) e false :: elements vs'
                    end) (e :: vs)) false
          +:+ nl +:+ print_indent (depth - 1) +:+ "]").
  rewrite Hel. cbn [map]. rewrite print_elements_false.
  change (printJSON (depth + 1) e false :: map (fun e0 => printJSON (depth + 1) e0 false) vs)
    with (map (fun e0 => printJSON (depth + 1) e0 false) (e :: vs)).
  by rewrite map_map.
Qed.

Lemma map_index_printed depth m m' :
  (forall k, k ∈ m.*1 ->
     forall depth isKey,
       printJSON depth (map_index m k) isKey = printJSON depth (map_index m' k) isKey) ->
  forall keys, (forall k, k ∈ keys -> k ∈ m.*1) ->
  map (member_line depth m) keys = map (member_line depth m') keys.
Proof.
  intros Hm keys Hkeys. apply map_ext_in. intros k Hk%list_elem_of_In.
  unfold member_line. by rewrite (Hm k (Hkeys k Hk)).
Qed.

End PrintJSONMore.

(** ** The layout of the rendering *)

Lemma blanks_length n : String.length (blanks n) = n.
Proof. induction n as [|n IH]; [done|]. simpl. by rewrite IH. Qed.

Lemma blanks_add n k : blanks (n + k) = blanks n +:+ blanks k.
Proof. induction n as [|n IH]; [done|]. simpl. by rewrite IH. Qed.

Lemma print_indent_indentation depth : print_indent depth = indentation depth.
Proof.
  unfold print_indent, indentation. generalize (Z.to_nat depth). intros n.
  induction n as [|n IH]; [done|].
  replace (4 * S n)%nat with (4 + 4 * n)%nat by lia.
  rewrite blanks_add. cbn [repeat_string]. by rewrite IH.
Qed.

Lemma nl_line_feed : nl = line_feed.
Proof. reflexivity. Qed.

Lemma string_le_lexicographic s t : string_le s t <-> lexicographic s t = true.
Proof.
  unfold string_le, String.leb. revert t.
  induction s as [|a s IH]; intros [|b t]; simpl; try done.
  unfold Ascii.compare.
  destruct (N.compare_spec (N_of_ascii a) (N_of_ascii b)) as [Heq|Hlt|Hgt].
  - rewrite Heq, N.ltb_irrefl, N.eqb_refl. simpl. apply IH.
  - apply N.ltb_lt in Hlt as Hlt'. by rewrite Hlt'.
  - assert ((N_of_ascii a <? N_of_ascii b)%N = false) as -> by (apply N.ltb_ge; lia).
    assert ((N_of_ascii a =? N_of_ascii b)%N = false) as -> by (apply N.eqb_neq; lia).
    done.
Qed.

Lemma sort_Strings_lexicographic keys :
  StronglySorted (fun s t => lexicographic s t = true) (sort_Strings keys).
Proof.
  pose proof (sort_Strings_sorted keys) as Hs.
  induction Hs as [|k l Hl IH Hall]; constructor; [done|].
  eapply Forall_impl; [exact Hall|]. intros t. apply string_le_lexicographic.
Qed.

Section LayoutFacts.
Context `{Collaborators}.

Lemma member_line_text depth m key : member_line depth m key = member_text depth m key.
Proof. unfold member_line, member_text. by rewrite print_indent_indentation. Qed.

Lemma element_line_text depth e : element_line depth e = element_text depth e.
Proof. unfold element_line, element_text. by rewrite print_indent_indentation. Qed.

Lemma printJSON_map_text depth p m isKey :
  printJSON depth (VMap (p :: m)) isKey =
  "{" +:+ line_feed
  +:+ String.concat ("," +:+ line_feed)
        (map (member_text depth (p :: m)) (sort_Strings (p :: m).*1))
  +:+ line_feed +:+ indentation (depth - 1) +:+ "}".
Proof.
  rewrite printJSON_map, print_indent_indentation, nl_line_feed.
  do 2 f_equal. f_equal. f_equal. apply map_ext. intros key. apply member_line_text.
Qed.

Lemma printJSON_slice_text depth e vs isKey :
  printJSON depth (VSlice (e :: vs)) isKey =
  "[" +:+ line_feed
  +:+ String.concat ("," +:+ line_feed) (map (element_text depth) (e :: vs))
  +:+ line_feed +:+ indentation (depth - 1) +:+ "]".
Proof.
  rewrite printJSON_slice, print_indent_indentation, nl_line_feed.
  do 2 f_equal. f_equal. f_equal. apply map_ext. intros x. apply element_line_text.
Qed.

End LayoutFacts.

(** * The claims *)

(** ** The token classifier and the escape decoder *)

(** C2: the kind of an argument comes from its first unescaped delimiter
    in a scan from the left (a delimiter byte [:], [=] or [@] with an even
    number of backslashes immediately before it): [:=] gives Json, [:]
    Header, [==] Query, [=] Body and [@] File, and without an unescaped
    delimiter the kind is Unknown; the key is the escape-decoded text
    before the delimiter and the value the escape-decoded text after it.
    The seven examples of the specification follow. *)
Theorem C2_parseKeyValue_first_unescaped_delimiter :
  (forall keyvalue,
     match first_unescaped is_delim keyvalue with
     | None => parseKeyValue keyvalue = Some (kvpUnknown, EmptyString, EmptyString)
     | Some i =>
       exists kind n,
         delimiter_at keyvalue i = Some (kind, n) /\
         parseKeyValue keyvalue =
           Some (kind, unescape (str_take i keyvalue),
                 unescape (str_drop (i + n) keyvalue))
     end) /\
  parseKeyValue "a:b" = Some (kvpHeader, "a", "b") /\
  parseKeyValue "a:=1" = Some (kvpJSON, "a", "1") /\
  parseKeyValue "a==b" = Some (kvpQuery, "a", "b") /\
  parseKeyValue "a=b" = Some (kvpBody, "a", "b") /\
  parseKeyValue "a@file.txt" = Some (kvpFile, "a", "file.txt") /\
  parseKeyValue "noDelimiter" = Some (kvpUnknown, EmptyString, EmptyString) /\
  parseKeyValue "a\:=b" = Some (kvpBody, "a:", "b").
Proof.
  split; [apply parseKeyValue_split|].
  repeat split; reflexivity.
Qed.

(** C8, as stated, fails: in ["a@b:"] the first unescaped [:] or [=] is the
    last character, and the argument is a File token with the value ["b:"],
    not a Header with an empty value. *)
Lemma C8_trailing_colon_after_at :
  first_unescaped is_colon_or_eq "a@b:" = Some 3%nat /\
  (3 + 1)%nat = len "a@b:" /\
  parseKeyValue "a@b:" = Some (kvpFile, "a", "b:") /\
  ~ (exists key, parseKeyValue "a@b:" = Some (single_kind "a@b:" 3, key, EmptyString)).
Proof.
  split_and!; try reflexivity. intros [key Hkey]. discriminate Hkey.
Qed.

(** C8, amended: classification never faults; and when the first unescaped
    delimiter of an argument ([:], [=] or [@]) is a [:] or a [=] and is the
    last character, the result is Header (for [:]) or Body (for [=]) with
    the empty value. *)
Theorem C8_parseKeyValue_total_and_trailing_delimiter (keyvalue : string) :
  is_Some (parseKeyValue keyvalue) /\
  (forall i,
     first_unescaped is_delim keyvalue = Some i ->
     byte_is keyvalue i ":" || byte_is keyvalue i "=" = true ->
     (i + 1)%nat = len keyvalue ->
     parseKeyValue keyvalue =
       Some (single_kind keyvalue i, unescape (str_take i keyvalue), EmptyString)).
Proof.
  split; [apply parseKeyValue_total|].
  intros i Hfirst Hc Hlast.
  pose proof (parseKeyValue_split keyvalue) as Hsp. rewrite Hfirst in Hsp.
  destruct Hsp as (kind & n & Hd & ->).
  assert (byte_is keyvalue (i + 1) "=" = false) as Hpeek.
  { destruct (byte_is keyvalue (i + 1) "=") eqn:Hb; [|done].
    apply byte_is_len in Hb. lia. }
  assert (str_drop (i + 1) keyvalue = EmptyString) as Hdrop.
  { pose proof (len_drop (i + 1) keyvalue) as Hl. rewrite <- Hlast, Nat.sub_diag in Hl.
    by destruct (str_drop (i + 1) keyvalue). }
  unfold delimiter_at in Hd. rewrite Hpeek in Hd. unfold single_kind.
  destruct (byte_is keyvalue i ":"); simplify_eq; [by rewrite Hdrop|].
  simpl in Hc. rewrite Hc in Hd. simplify_eq. by rewrite Hdrop.
Qed.

Lemma C8_witness :
  parseKeyValue "a:" = Some (kvpHeader, "a", EmptyString).
Proof.
  apply (proj2 (C8_parseKeyValue_total_and_trailing_delimiter "a:") 1%nat);
    reflexivity.
Defined.

(** C9, as stated, fails: a byte that is not valid UTF-8 is no backslash,
    and [unescape] replaces it by the encoding of U+FFFD. *)
Lemma C9_invalid_byte_is_replaced :
  contains_byte "\" (String (byte_of 255) EmptyString) = false /\
  unescape (String (byte_of 255) EmptyString) = str3 0xEF 0xBF 0xBD /\
  unescape (String (byte_of 255) EmptyString) <> String (byte_of 255) EmptyString.
Proof. split_and!; [reflexivity|reflexivity|discriminate]. Qed.

(** C9, amended: [unescape] returns a string without backslashes unchanged
    when the string is valid UTF-8; and on every string without backslashes
    a second [unescape] changes nothing. *)
Theorem C9_unescape_without_backslash (s : string) :
  contains_byte "\" s = false ->
  (ValidString s = true -> unescape s = s) /\
  unescape (unescape s) = unescape s.
Proof.
  intros Hs. split.
  - intros Hv. by apply unescape_valid_plain.
  - by apply unescape_idem_plain.
Qed.

Lemma C9_witness :
  unescape "a=b" = "a=b" /\ unescape (unescape "a=b") = unescape "a=b".
Proof.
  destruct (C9_unescape_without_backslash "a=b" eq_refl) as [Hvalid Hidem].
  split; [apply Hvalid; reflexivity|exact Hidem].
Defined.

(** ** The argument aggregator *)

(** C1: with the key [k] given twice as a Body token, [k=v1] then [k=v2],
    [parseArgs] leaves the one-element list [v2] for [k], not [v1; v2]:
    the case [kvpBody] appends to the list read from [kvp.query].  The
    case [kvpQuery] does append: [k==v1] then [k==v2] leave [v1; v2]. *)
Theorem C1_parseArgs_repeated_body_key (growcap : nat -> nat -> nat) :
  (exists st,
     parseArgs growcap ["k=v1"; "k=v2"] = Ok st /\
     body_values st "k" = ["v2"] /\
     body_values st "k" <> ["v1"; "v2"]) /\
  (exists st,
     parseArgs growcap ["k==v1"; "k==v2"] = Ok st /\
     query_values st "k" = ["v1"; "v2"]).
Proof.
  split.
  - eexists. split; [vm_compute; reflexivity|].
    split; [vm_compute; reflexivity|vm_compute; discriminate].
  - destruct (ArgsFacts.parseArgs_loop_Ok growcap ["k==v1"; "k==v2"]
                ([], kvpairs_empty)) as [st Hst].
    { repeat constructor; by eexists _, _, _. }
    exists st. split; [exact Hst|].
    by destruct (ArgsFacts.parseArgs_query_header_json_file _ _ _ "k" Hst) as [-> _].
Qed.

(** ** Value coercion *)


(** ** The body assembler *)

(** C10: when a key is both a body field and a JSON fragment, the body
    parameters hold the decoded fragment for it, in place of the form value
    stored first; the merge stops only at a fragment that does not
    decode. *)
Theorem C10_json_replaces_body_field `{Collaborators} (h : Slice.store) (kvp : kvpairs)
    (log : list string) (k : string) (vs : Slice.t) (raw : string) :
  body kvp !! k = Some vs -> js kvp !! k = Some raw ->
  merge_body h (body kvp) ∅ !! k = Some (collapse (Slice.elems h vs)) /\
  ((exists k' raw', js kvp !! k' = Some raw' /\ json_Unmarshal raw' = None /\
      body_parameters h kvp log = (Fatal ("invalid json: " +:+ raw'), log)) \/
   (exists bp v, body_parameters h kvp log = (Done bp, log) /\
      json_Unmarshal raw = Some v /\ bp !! k = Some v)).
Proof.
  intros Hb Hj. split.
  { by rewrite merge_body_lookup, Hb. }
  unfold body_parameters.
  destruct (merge_js_spec (map_range (js kvp)) (merge_body h (body kvp) ∅) log
              (map_range_NoDup _))
    as [(k' & raw' & Hin & Hnone & Hm)|(bp & Hm & Hl & _)].
  - left. exists k', raw'. by apply map_range_elem in Hin.
  - right. apply map_range_elem in Hj. destruct (Hl _ _ Hj) as [Hk [v Hv]].
    exists bp, v. split_and!; [done|done|]. by rewrite Hk.
Qed.

Lemma C10_witness :
  let kvp := mk_kvpairs ∅ ∅ {["k" := Slice.mk (Some 0%nat) 1 1]} {["k" := "true"]} ∅ in
  merge_body (H := Sample.collaborators) [["form"]] (body kvp) ∅ !! "k"
    = Some (VString "form") /\
  exists bp,
    body_parameters (H := Sample.collaborators) [["form"]] kvp [] = (Done bp, []) /\
    bp !! "k" = Some (VBool true).
Proof.
  intros kvp.
  destruct (C10_json_replaces_body_field (H := Sample.collaborators)
              [["form"]] kvp [] "k" (Slice.mk (Some 0%nat) 1 1) "true" eq_refl eq_refl)
    as [Hform [(k' & raw' & _ & _ & Hfatal)|(bp & v & Hdone & Hv & Hk)]].
  - discriminate Hfatal.
  - split; [exact Hform|]. exists bp. split; [exact Hdone|].
    injection Hv as <-. exact Hk.
Defined.

(** C3, as stated, fails: with the empty file name at the key ["-"] the
    raw body is not selected, and a second file does not give the error of
    several raw body files. *)
Lemma C3_empty_raw_body_file_name :
  (exists st, parseArgs (growcap (Collaborators := Sample.collaborators))
                ["-@"; "upload@b"] = Ok st /\
              file st.2 = {["-" := EmptyString; "upload" := "b"]}) /\
  assemble_bundle (H := Sample.collaborators) false true
    {["-" := EmptyString; "upload" := "b"]} ∅ ∅ [] =
    (Fatal "unable to open file for body: open : no such file or directory", []) /\
  main_request (H := Sample.collaborators) false true ["x.org"; "-@"; "upload@b"] [] =
    (Fatal "unable to open file for body: open : no such file or directory", []).
Proof.
  split; [|split; vm_compute; reflexivity].
  eexists. split; vm_compute; reflexivity.
Qed.

(** C3, amended: when the file map holds a non-empty file name at ["-"],
    any further file entry is fatal; with ["-"] as the only entry the body
    is the contents of that file with the content type
    [application/octet-stream] (a file that cannot be opened or read is
    fatal); body parameters are logged as ignored and do not change the
    outcome. *)
Theorem C3_raw_body_file `{Collaborators} (postform useMultipart : bool)
    (files : gmap string string) (bodyparams : gmap string value) (hdr : Header)
    (log : list string) (path : string) :
  files !! "-" = Some path -> path <> EmptyString ->
  ((exists k, k <> "-" /\ is_Some (files !! k)) ->
   assemble_bundle postform useMultipart files bodyparams hdr log =
     (Fatal "only one input file allowed when setting raw body", log)) /\
  (files = {["-" := path]} ->
   assemble_bundle postform useMultipart files bodyparams hdr log =
     (match os_Open path with
      | OpenError err => Fatal ("unable to open file for body: " +:+ err)
      | ReadError err => Fatal ("error reading body contents: " +:+ err)
      | FileData b => Done (Some b, Header_Add hdr "Content-Type" "application/octet-stream")
      end,
      if bool_decide (bodyparams = ∅) then log else log ++ [raw_body_warning])) /\
  (assemble_bundle postform useMultipart files bodyparams hdr log).1 =
  (assemble_bundle postform useMultipart files ∅ hdr log).1.
Proof.
  intros Hfile Hpath. rewrite !(assemble_bundle_raw _ _ _ _ _ _ path) by done. split_and!.
  - intros (k & Hk & [v Hv]).
    assert (2 <= size files)%nat as Hsize.
    { rewrite <- (insert_id files "-" path) by done.
      rewrite <- insert_delete_eq.
      rewrite map_size_insert_None by apply lookup_delete_eq.
      assert (size (delete "-" files) <> 0)%nat; [|lia].
      apply (map_size_ne_0_lookup_2 _ k). by rewrite lookup_delete_ne. }
    destruct (Z.ltb_spec 1 (Z.of_nat (size files))); [done|lia].
  - intros ->. rewrite map_size_singleton. simpl. f_equal.
    case_bool_decide as Hbp.
    + subst. by rewrite map_size_empty.
    + apply map_size_non_empty_iff in Hbp.
      destruct (Z.ltb_spec 0 (Z.of_nat (size bodyparams))); [done|lia].
  - by destruct (1 <? Z.of_nat (size files)).
Qed.

Lemma C3_witness :
  assemble_bundle (H := Sample.collaborators) false true {["-" := "body.bin"]}
    {["name" := VString "bob"]} ∅ [] =
  (Done (Some "raw bytes", {["Content-Type" := ["application/octet-stream"]]}),
   [raw_body_warning]).
Proof.
  assert (({["-" := "body.bin"]} : gmap string string) !! "-" = Some "body.bin")
    as Hfile by reflexivity.
  assert ("body.bin" <> EmptyString) as Hpath by discriminate.
  rewrite (proj1 (proj2 (C3_raw_body_file (H := Sample.collaborators) false true
                           {["-" := "body.bin"]} {["name" := VString "bob"]} ∅ []
                           "body.bin" Hfile Hpath)) eq_refl).
  reflexivity.
Defined.

(** C4, as stated, fails: with the flag [-f] and no body field, JSON
    fragment or file, the request has no body and no content type. *)
Lemma C4_form_flag_alone_gives_no_body :
  main_request (H := Sample.collaborators) true true ["httpbin.org/post"] [] =
  (Done (Some (mk_Request "POST" "http://httpbin.org/post" None ∅ None 0)), []).
Proof. vm_compute. reflexivity. Qed.

(** C4, amended: in form mode, a bundle without body fields, JSON
    fragments and files gives no payload and no content type: the assembler
    returns no body and leaves the headers as they are, and the request is
    built with the method supplied, no body and no header. *)
Theorem C4_form_mode_without_inputs `{Collaborators} (useMultipart : bool)
    (method : string) (methodProvided : bool) (u : string) (h : Slice.store)
    (kvp : kvpairs) (hdr : Header) (log : list string) :
  body kvp = ∅ -> js kvp = ∅ -> file kvp = ∅ ->
  body_parameters h kvp log = (Done ∅, log) /\
  assemble_bundle true useMultipart (file kvp) ∅ hdr log = (Done (None, hdr), log) /\
  exists req,
    build_request true useMultipart method methodProvided u h kvp log = (Done req, log) /\
    Body req = None /\ Headers req = ∅ /\ Method req = method.
Proof.
  intros Hb Hj Hf. split_and!.
  - by apply body_parameters_nothing.
  - rewrite Hf. apply assemble_bundle_nothing.
  - eexists. split; [by apply build_request_nothing|done].
Qed.

Lemma C4_witness :
  exists req,
    build_request (H := Sample.collaborators) true true "POST" true
      "http://httpbin.org/post" [] kvpairs_empty [] = (Done req, []) /\
    Body req = None /\ Headers req = ∅ /\ Method req = "POST".
Proof.
  apply (C4_form_mode_without_inputs (H := Sample.collaborators) true "POST" true
           "http://httpbin.org/post" [] kvpairs_empty ∅ [] eq_refl eq_refl eq_refl).
Defined.

(** C5: a bundle without body fields, JSON fragments and files gives a
    request without body and without content type, with the method
    supplied; the method of every request built is the leading method
    token if there is one, else [POST] with the form flag, else [POST] with
    a body and [GET] without one; and the arguments [httpbin.org/get] and
    [q==5] give a GET request for [http://httpbin.org/get] with the query
    [q=5] and no body, for a library that accepts the URL, finds no query in
    it and encodes the pair as [q=5]. *)
Theorem C5_method_and_payload `{Collaborators} (postform useMultipart : bool)
    (log : list string) :
  (forall method methodProvided u h kvp,
     body kvp = ∅ -> js kvp = ∅ -> file kvp = ∅ ->
     exists req,
       build_request postform useMultipart method methodProvided u h kvp log =
         (Done req, log) /\
       Body req = None /\ Headers req !! "Content-Type" = None /\ Method req = method) /\
  (forall args req log',
     main_request postform useMultipart args log = (Done (Some req), log') ->
     Method req = effective_method postform args (Body req)) /\
  (NewRequest_error "GET" "http://httpbin.org/get" = None ->
   URL_Query "http://httpbin.org/get" = ∅ ->
   Values_Encode {["q" := ["5"]]} = "q=5" ->
   main_request false useMultipart ["httpbin.org/get"; "q==5"] log =
   (Done (Some (mk_Request "GET" "http://httpbin.org/get" (Some "q=5") ∅ None 0)), log)).
Proof.
  split_and!.
  - intros method mp u h kvp Hb Hj Hf. eexists.
    split; [by apply build_request_nothing|done].
  - intros args req log'. apply main_request_method.
  - apply main_request_get_query.
Qed.

Lemma C5_witness :
  main_request (H := Sample.collaborators) false true ["httpbin.org/get"; "q==5"] [] =
    (Done (Some (mk_Request "GET" "http://httpbin.org/get" (Some "q=5") ∅ None 0)), []) /\
  effective_method false ["httpbin.org/get"; "q==5"] None = "GET" /\
  exists req,
    build_request (H := Sample.collaborators) false true "GET" false
      "http://httpbin.org/get" [] kvpairs_empty [] = (Done req, []) /\
    Body req = None /\ Headers req !! "Content-Type" = None /\ Method req = "GET".
Proof.
  destruct (C5_method_and_payload (H := Sample.collaborators) false true [])
    as (Hnone & Hmethod & Hexample).
  assert (main_request (H := Sample.collaborators) false true
            ["httpbin.org/get"; "q==5"] [] =
          (Done (Some (mk_Request "GET" "http://httpbin.org/get" (Some "q=5") ∅ None 0)), []))
    as Hrun by (apply Hexample; reflexivity).
  split; [exact Hrun|]. split.
  - exact (eq_sym (Hmethod _ _ _ Hrun)).
  - exact (Hnone "GET" false "http://httpbin.org/get" [] kvpairs_empty
             eq_refl eq_refl eq_refl).
Defined.

(** ** The JSON renderer *)

(** C6: a non-empty object is printed as an opening brace and a line
    feed, one line per member in the lexicographic order of the keys, each
    line indented by [depth] units of four blanks and made of the key in
    quotes, a colon, a blank and the value, the lines separated by a comma
    and a line feed, and then a line feed and the closing brace indented by
    one unit less; the text does not depend on the order in which the map
    is visited.  The empty object is printed as [{}] and the empty array as
    [[]]. *)
Theorem C6_printJSON_object `{Collaborators} (depth : Z) (isKey : bool) :
  printJSON depth (VMap []) isKey = "{}" /\
  printJSON depth (VSlice []) isKey = "[]" /\
  (forall m m' : list (string * value),
     m <> [] -> NoDup m.*1 -> m' ≡ₚ m ->
     StronglySorted (fun s t => lexicographic s t = true) (sort_Strings m.*1) /\
     sort_Strings m.*1 ≡ₚ m.*1 /\
     printJSON depth (VMap m) isKey =
       "{" +:+ line_feed
       +:+ String.concat ("," +:+ line_feed)
             (map (member_text depth m) (sort_Strings m.*1))
       +:+ line_feed +:+ indentation (depth - 1) +:+ "}" /\
     printJSON depth (VMap m') isKey = printJSON depth (VMap m) isKey) /\
  String.length (indentation depth) = (4 * Z.to_nat depth)%nat.
Proof.
  split; [done|]. split; [done|]. split; [|apply blanks_length].
  intros m m' Hne Hnd Hp. split_and!.
  - apply sort_Strings_lexicographic.
  - apply sort_Strings_perm.
  - destruct m as [|p m]; [done|]. apply printJSON_map_text.
  - by apply printJSON_map_perm.
Qed.

Lemma C6_witness :
  StronglySorted (fun s t => lexicographic s t = true) (sort_Strings ["b"; "a"]) /\
  sort_Strings ["b"; "a"] ≡ₚ ["b"; "a"] /\
  printJSON (H := Sample.collaborators) 1
    (VMap [("b", VNumber "1"); ("a", VNumber "2")]) false =
    "{" +:+ line_feed
    +:+ String.concat ("," +:+ line_feed)
          (map (member_text (H := Sample.collaborators) 1
                  [("b", VNumber "1"); ("a", VNumber "2")])
               (sort_Strings ["b"; "a"]))
    +:+ line_feed +:+ indentation (1 - 1) +:+ "}" /\
  printJSON (H := Sample.collaborators) 1
    (VMap [("a", VNumber "2"); ("b", VNumber "1")]) false =
  printJSON (H := Sample.collaborators) 1
    (VMap [("b", VNumber "1"); ("a", VNumber "2")]) false.
Proof.
  apply (proj1 (proj2 (proj2 (C6_printJSON_object (H := Sample.collaborators) 1 false)))
           [("b", VNumber "1"); ("a", VNumber "2")]
           [("a", VNumber "2"); ("b", VNumber "1")]).
  - discriminate.
  - simpl. apply NoDup_cons. split; [|apply NoDup_singleton].
    intros Hin%list_elem_of_singleton. discriminate Hin.
  - apply perm_swap.
Defined.

Example printJSON_a_before_b :
  printJSON (H := Sample.collaborators) 1
    (VMap [("b", VNumber "1"); ("a", VNumber "2")]) false =
  "{" +:+ nl +:+ "    " +:+ Sample.quote +:+ "a" +:+ Sample.quote +:+ ": 2," +:+ nl
  +:+ "    " +:+ Sample.quote +:+ "b" +:+ Sample.quote +:+ ": 1" +:+ nl +:+ "}".
Proof. reflexivity. Qed.

(** * Further properties of the code *)

(** ** The token layer *)

(** X1: whatever the bytes of its argument, [unescape] returns valid
    UTF-8, and so are the key and the value that [parseKeyValue] returns:
    what does not decode has become the replacement character. *)
Theorem X1_decoded_text_is_valid_utf8 (s : string) :
  ValidString (unescape s) = true /\
  forall t k v, parseKeyValue s = Some (t, k, v) ->
                ValidString k = true /\ ValidString v = true.
Proof. split; [apply valid_string_of_runes|apply parseKeyValue_valid]. Qed.

Lemma X1_witness :
  ValidString (unescape "k:v") = true /\
  ValidString "k" = true /\ ValidString "v" = true.
Proof.
  split.
  - exact (proj1 (X1_decoded_text_is_valid_utf8 "k:v")).
  - apply (proj2 (X1_decoded_text_is_valid_utf8 "k:v") kvpHeader "k" "v").
    vm_compute. reflexivity.
Defined.

(** X2: [unescape] undoes [escape]: for valid UTF-8 text in which every
    backslash and every delimiter byte was given a backslash, it returns the
    text; a lone backslash that follows at the end is dropped. *)
Theorem X2_unescape_inverts_escape (s : string) :
  ValidString s = true ->
  unescape (escape s) = s /\ unescape (escape s +:+ "\") = s.
Proof.
  intros Hs. split; [by apply unescape_escape|by apply unescape_escape_trailing].
Qed.

Lemma X2_witness :
  unescape (escape "a:b=c@d\e") = "a:b=c@d\e" /\
  unescape (escape "a:b=c@d\e" +:+ "\") = "a:b=c@d\e".
Proof. apply X2_unescape_inverts_escape. vm_compute. reflexivity. Defined.

(** X3: [parseKeyValue] reads back what was escaped: an escaped key, the
    delimiter of a kind and an escaped value give that kind, the key and the
    value, for valid UTF-8 text, also when the key or the value hold
    delimiter bytes. *)
Theorem X3_parseKeyValue_reads_escaped_pair (t : kvtype) (k v : string) :
  t <> kvpUnknown -> ValidString k = true -> ValidString v = true ->
  parseKeyValue (escape k +:+ delimiter t +:+ escape v) = Some (t, k, v).
Proof.
  intros Ht Hk Hv.
  destruct (escape_not_eq v 0) as [Hne|?]; [|lia].
  assert (exists n, delimiter_at (delimiter t +:+ escape v) 0 = Some (t, n) /\
                    str_drop n (delimiter t +:+ escape v) = escape v) as (n & Hd & Hdrop).
  { destruct t; [done|..]; unfold delimiter_at;
      [exists 1%nat|exists 2%nat|exists 1%nat|exists 2%nat|exists 1%nat]; simpl;
      unfold byte_is in *; simpl in *;
      change (EmptyString +:+ escape v) with (escape v); rewrite ?Hne; done. }
  rewrite (parseKeyValue_escaped_key _ _ _ _ Hk Hd), Hdrop.
  by rewrite unescape_escape.
Qed.

Lemma X3_witness :
  parseKeyValue (escape "a=b" +:+ delimiter kvpQuery +:+ escape "x:y@z") =
  Some (kvpQuery, "a=b", "x:y@z").
Proof.
  apply X3_parseKeyValue_reads_escaped_pair.
  - discriminate.
  - vm_compute. reflexivity.
  - vm_compute. reflexivity.
Defined.

(** X4: [unescape] works rune by rune: a backslash makes the rune after it
    literal, whatever the rune (there are no escape sequences such as a
    line feed), and any other rune stands for itself. *)
Theorem X4_unescape_rune_by_rune (c : rune) (t : string) :
  scalar c ->
  unescape (String "\" (encoderune c +:+ t)) = encoderune c +:+ unescape t /\
  (c <> rune_of "\" -> unescape (encoderune c +:+ t) = encoderune c +:+ unescape t).
Proof.
  intros Hc. split; [by apply unescape_escaped_rune|].
  intros Hne. by apply unescape_plain_rune.
Qed.

Lemma X4_witness :
  unescape (String "\" (encoderune 110 +:+ "\:x")) = encoderune 110 +:+ unescape "\:x" /\
  unescape (encoderune 110 +:+ "\:x") = encoderune 110 +:+ unescape "\:x".
Proof.
  assert (scalar 110) as Hc by (unfold scalar, MaxRune; lia).
  split.
  - exact (proj1 (X4_unescape_rune_by_rune 110 "\:x" Hc)).
  - apply (proj2 (X4_unescape_rune_by_rune 110 "\:x" Hc)). discriminate.
Defined.

(** ** The argument aggregator *)

(** X5: [parseArgs] stops at the first argument that has no unescaped
    delimiter, with the error [bad key/value: ] followed by that argument;
    without such an argument it returns the bundle.  It never panics. *)
Theorem X5_parseArgs_stops_at_first_unclassified (growcap : nat -> nat -> nat)
    (args : list string) :
  match list_find (fun arg => first_unescaped is_delim arg = None) args with
  | Some (_, arg) => parseArgs growcap args = Err ("bad key/value: " +:+ arg)
  | None => exists st, parseArgs growcap args = Ok st
  end.
Proof. apply OutcomeFacts.parseArgs_loop_outcome. Qed.

(** X6: in the bundle that [parseArgs] returns, the query values of a key
    are the values of its Query tokens in the order of the command line, and
    the header, the JSON fragment and the file of a key are those of its
    last Header, JSON and File token. *)
Theorem X6_parseArgs_aggregates_per_key (growcap : nat -> nat -> nat)
    (args : list string) (st : Slice.store * kvpairs) (k : string) :
  parseArgs growcap args = Ok st ->
  query_values st k = tokens_of kvpQuery k args /\
  headers st.2 !! k = last (tokens_of kvpHeader k args) /\
  js st.2 !! k = last (tokens_of kvpJSON k args) /\
  file st.2 !! k = last (tokens_of kvpFile k args).
Proof. apply ArgsFacts.parseArgs_query_header_json_file. Qed.

Lemma X6_witness :
  exists st,
    parseArgs (fun old _ => old + old)%nat ["q==1"; "h:a"; "q==2"; "h:b"; "f@x"] = Ok st /\
    query_values st "q" = ["1"; "2"] /\
    headers st.2 !! "h" = Some "b" /\
    js st.2 !! "h" = None /\
    file st.2 !! "f" = Some "x".
Proof.
  destruct (parseArgs (fun old _ => old + old)%nat ["q==1"; "h:a"; "q==2"; "h:b"; "f@x"])
    as [st| |] eqn:Hst; try (vm_compute in Hst; discriminate Hst).
  exists st. split; [reflexivity|].
  destruct (X6_parseArgs_aggregates_per_key _ _ _ "q" Hst) as (Hq & _).
  destruct (X6_parseArgs_aggregates_per_key _ _ _ "h" Hst) as (_ & Hh & Hj & _).
  destruct (X6_parseArgs_aggregates_per_key _ _ _ "f" Hst) as (_ & _ & _ & Hf).
  rewrite Hq, Hh, Hj, Hf. repeat split; vm_compute; reflexivity.
Defined.

Section BodyLists.
Import Slice ArgsFacts BodyFacts.
Local Open Scope nat_scope.

(** X7: the list that a Body token leaves for its key, when no later Body
    or Query token has that key: the values of the Query tokens of the key
    given before it, followed by its own value.  Earlier Body tokens of the
    key leave no trace. *)
Theorem X7_parseArgs_body_list (growcap : nat -> nat -> nat)
    (pre : list string) (arg : string) (post : list string)
    (st : Slice.store * kvpairs) (k v : string) :
  parseArgs growcap (pre ++ arg :: post) = Ok st ->
  parseKeyValue arg = Some (kvpBody, k, v) ->
  tokens_of kvpBody k post = [] -> tokens_of kvpQuery k post = [] ->
  body_values st k = tokens_of kvpQuery k pre ++ [v].
Proof. apply LastFacts.parseArgs_body_values. Qed.

(** X8: the list of a Body token shares its array with the query values of
    the key when these have room left; a Query token of the key that follows
    then overwrites the value of the Body token. *)
Theorem X8_parseArgs_body_value_overwritten (growcap : nat -> nat -> nat)
    (pre : list string) (a1 a2 : string) (st0 : Slice.store * kvpairs) (k v w : string) :
  parseArgs growcap pre = Ok st0 ->
  len (slice_at (query st0.2) k) < cap (slice_at (query st0.2) k) ->
  parseKeyValue a1 = Some (kvpBody, k, v) ->
  parseKeyValue a2 = Some (kvpQuery, k, w) ->
  exists st,
    parseArgs growcap (pre ++ [a1; a2]) = Ok st /\
    body_values st k = tokens_of kvpQuery k pre ++ [w] /\
    query_values st k = tokens_of kvpQuery k pre ++ [w].
Proof.
  unfold parseArgs. intros Hpre Hroom H1 H2.
  rewrite parseArgs_loop_app, Hpre. simpl. rewrite H1, H2.
  destruct (parseArgs_loop_fold growcap pre _ st0 k query_inv_empty Hpre)
    as (Hinv0 & Hq0 & _).
  destruct st0 as [h kvp]. simpl in *.
  unfold query_values in Hq0. simpl in Hq0.
  unfold slice_at in *.
  destruct (query kvp !! k) as [s|] eqn:Hk; simpl in *; [|lia].
  destruct (proj1 Hinv0 k s Hk) as [Hs [p Hp]].
  destruct s as [p' n c]. simpl in *. subst p'.
  unfold append at 1. simpl. apply Nat.ltb_lt in Hroom as Hroom'. rewrite Hroom'.
  cbn [parseArgs_store query]. unfold slice_at. rewrite Hk. simpl.
  unfold append. simpl. rewrite Hroom'.
  eexists. split; [done|].
  unfold body_values, query_values, slice_at. simpl.
  rewrite !lookup_insert_eq. simpl. unfold elems in *. simpl in *.
  destruct Hs as (arr & Harr & Hn & Hc). simpl in *.
  rewrite Harr in Hq0. simpl in Hq0.
  rewrite list_lookup_alter_eq, list_lookup_alter_eq, Harr. simpl.
  rewrite list_insert_insert_eq.
  rewrite (take_S_r _ _ w) by (apply list_lookup_insert_eq; lia).
  by rewrite take_insert_ge, Hq0 by lia.
Qed.

End BodyLists.

Lemma X7_witness :
  exists st,
    parseArgs (fun old _ => old + old)%nat ["k=old"; "k==q"; "k=v"; "h:x"; "j==1"] = Ok st /\
    body_values st "k" = ["q"; "v"].
Proof.
  destruct (parseArgs (fun old _ => old + old)%nat ["k=old"; "k==q"; "k=v"; "h:x"; "j==1"])
    as [st| |] eqn:Hst; try (vm_compute in Hst; discriminate Hst).
  exists st. split; [reflexivity|].
  rewrite (X7_parseArgs_body_list _ ["k=old"; "k==q"] "k=v" ["h:x"; "j==1"] st "k" "v" Hst);
    vm_compute; reflexivity.
Defined.

Lemma X8_witness :
  exists st,
    parseArgs (fun old _ => old + old)%nat ["k==a"; "k==b"; "k==c"; "k=v"; "k==w"] = Ok st /\
    body_values st "k" = ["a"; "b"; "c"; "w"] /\
    query_values st "k" = ["a"; "b"; "c"; "w"].
Proof.
  destruct (parseArgs (fun old _ => old + old)%nat ["k==a"; "k==b"; "k==c"])
    as [st0| |] eqn:Hpre; try (vm_compute in Hpre; discriminate Hpre).
  assert (Slice.len (slice_at (query st0.2) "k") < Slice.cap (slice_at (query st0.2) "k"))%nat
    as Hroom.
  { pose proof Hpre as Hst0. vm_compute in Hst0. injection Hst0 as <-.
    vm_compute. lia. }
  destruct (X8_parseArgs_body_value_overwritten _ _ "k=v" "k==w" st0 "k" "v" "w"
              Hpre Hroom eq_refl eq_refl) as (st & Hst & Hb & Hq).
  exists st. split; [exact Hst|]. rewrite Hb, Hq. split; vm_compute; reflexivity.
Defined.

(** ** Value coercion *)

(** X9: [addValues] appends under its key and nowhere else: the values
    already there stay in front, the other keys keep their values, and the
    log only grows.  What is appended and what is logged depend on the
    value alone, also for arrays nested in arrays. *)
Theorem X9_addValues_appends_under_its_key `{Collaborators}
    (st : Values * list string) (key : string) (v : value) :
  default [] ((addValues st key v).1 !! key) = default [] (st.1 !! key) ++ added v /\
  (forall k, k <> key -> (addValues st key v).1 !! k = st.1 !! k) /\
  (addValues st key v).2 = st.2 ++ logged v.
Proof. apply addValues_adds. Qed.

Lemma X9_witness :
  let st : Values * list string := ({["other" := ["x"]; "k" := ["0"]]}, ["line"]) in
  let v := VSlice [VBool true; VNil; VSlice [VString "a"]; VMap [("m", VNil)]] in
  default [] ((addValues (H := Sample.collaborators) st "k" v).1 !! "k") =
    ["0"; "true"; "a"; "m"] /\
  (addValues (H := Sample.collaborators) st "k" v).1 !! "other" = Some ["x"] /\
  (addValues (H := Sample.collaborators) st "k" v).2 = ["line"; "unknown type:  <nil>"].
Proof.
  intros st v.
  destruct (X9_addValues_appends_under_its_key (H := Sample.collaborators) st "k" v)
    as (Hk & Hother & Hlog).
  rewrite Hk, Hlog, (Hother "other") by discriminate.
  repeat split; vm_compute; reflexivity.
Defined.

(** ** Compiling the request *)

(** X10: [main] panics on a command line that is a method token and nothing
    else (the URL is then read past the end of the arguments), and on no
    other command line; nothing is logged before. *)
Theorem X10_main_panics_on_lone_method `{Collaborators} (pf um : bool)
    (args log log' : list string) :
  main_request pf um args log = (Panicked, log') <->
  (exists m, args = [m] /\ m ∈ method_tokens) /\ log' = log.
Proof.
  rewrite main_request_stages. split.
  - destruct args as [|a args]; [done|].
    unfold after_method. case_bool_decide as Htok.
    + destruct args as [|a0 rest]; [intros [= <-]; split; [by exists a|done]|].
      destruct (NewRequest_error _ _); [done|].
      pose proof (parseArgs_no_panic rest) as Hnp.
      destruct (parseArgs growcap rest) as [[h kvp]| |]; try done.
      destruct (build_request _ _ _ _ _ _ _ _) as [[r| |] log1] eqn:Hb; try done.
      by apply no_panic_build_request in Hb.
    + destruct (NewRequest_error _ _); [done|].
      pose proof (parseArgs_no_panic args) as Hnp.
      destruct (parseArgs growcap args) as [[h kvp]| |]; try done.
      destruct (build_request _ _ _ _ _ _ _ _) as [[r| |] log1] eqn:Hb; try done.
      by apply no_panic_build_request in Hb.
  - intros [(m & -> & Hm) ->]. unfold after_method.
    by rewrite bool_decide_eq_true_2.
Qed.

Lemma X10_witness :
  main_request (H := Sample.collaborators) false true ["DELETE"] ["line"] =
  (Panicked, ["line"]).
Proof.
  apply (proj2 (X10_main_panics_on_lone_method (H := Sample.collaborators)
                  false true ["DELETE"] ["line"] ["line"])).
  split; [|reflexivity]. exists "DELETE". split; [reflexivity|].
  apply (bool_decide_unpack _). vm_compute. exact I.
Defined.

(** X11: with the flag [-auth] not given (the flags other than [-f] and
    [-m] are at their defaults), an argument without an unescaped delimiter
    is fatal, with the error of [parseArgs] as the message: [main] stops
    before it opens a file, and it has logged nothing. *)
Theorem X11_main_rejects_unclassified_argument `{Collaborators} (pf um : bool)
    (args : list string) (a0 : string) (rest : list string) (i : nat) (arg : string)
    (log : list string) :
  after_method args = a0 :: rest ->
  NewRequest_error (first_method pf args) (with_scheme a0) = None ->
  list_find (fun arg => first_unescaped is_delim arg = None) rest = Some (i, arg) ->
  main_request pf um args log = (Fatal ("bad key/value: " +:+ arg), log).
Proof.
  intros Ha Hnew Hfind. rewrite main_request_stages.
  destruct args as [|a args]; [done|]. rewrite Ha, Hnew.
  pose proof (OutcomeFacts.parseArgs_loop_outcome growcap rest ([], kvpairs_empty)) as Ho.
  rewrite Hfind in Ho. unfold parseArgs. by rewrite Ho.
Qed.

Lemma X11_witness :
  main_request (H := Sample.collaborators) false true
    ["PUT"; "x.org"; "a=1"; "oops"; "f@missing"] [] =
  (Fatal "bad key/value: oops", []).
Proof.
  apply (X11_main_rejects_unclassified_argument (H := Sample.collaborators) false true
           ["PUT"; "x.org"; "a=1"; "oops"; "f@missing"] "x.org"
           ["a=1"; "oops"; "f@missing"] 1 "oops" []);
    vm_compute; reflexivity.
Defined.

(** X12: the URL of every request that is built is the first argument
    after the method, with [http://] put in front unless it starts with
    [http://] or [https://]; so it always starts with one of the two. *)
Theorem X12_request_url_has_scheme `{Collaborators} (pf um : bool)
    (args log : list string) (req : Request) (log' : list string) :
  main_request pf um args log = (Done (Some req), log') ->
  exists a0, head (after_method args) = Some a0 /\ URL req = with_scheme a0 /\
    (String.prefix "http://" (URL req) = true \/
     String.prefix "https://" (URL req) = true).
Proof.
  intros (a0 & rest & h & kvp & Ha & _ & _ & Hb)%main_request_Done.
  apply build_request_Done in Hb as (bp & log1 & body & hdr & _ & _ & Hu & _).
  exists a0. rewrite Ha, Hu. split_and!; [done..|]. apply with_scheme_prefix.
Qed.

Lemma X12_witness :
  exists req log',
    main_request (H := Sample.collaborators) false true ["GET"; "x.org/path"] [] =
      (Done (Some req), log') /\
    URL req = "http://x.org/path".
Proof.
  destruct (main_request (H := Sample.collaborators) false true ["GET"; "x.org/path"] [])
    as [[[req|]| |] log'] eqn:Hm; try (vm_compute in Hm; discriminate Hm).
  exists req, log'. split; [reflexivity|].
  destruct (X12_request_url_has_scheme (H := Sample.collaborators) _ _ _ _ _ _ Hm)
    as (a0 & Ha0 & Hu & _).
  injection Ha0 as <-. exact Hu.
Defined.

(** X13: the request at the end of the assembly of the body, before the
    default headers and the headers of the command line are set, and with
    the flag [-auth] not given: with a body it has the length of the body
    as its content length, in the field and in the header, and one content
    type, out of four, and no other header; without a body it has the
    content length zero and no header, or the JSON content type alone when
    the body parameters could not be encoded. *)
Theorem X13_request_payload_headers `{Collaborators} (pf um : bool)
    (args log : list string) (req : Request) (log' : list string) :
  main_request pf um args log = (Done (Some req), log') ->
  match Body req with
  | Some b =>
    ContentLength req = Z.of_nat (String.length b) /\
    exists ct, ct ∈ content_types /\
      Headers req =
        <["Content-Length" := [Itoa (String.length b)]]> {["Content-Type" := [ct]]}
  | None =>
    ContentLength req = 0 /\
    (Headers req = ∅ \/ Headers req = {["Content-Type" := ["application/json"]]})
  end.
Proof.
  intros (a0 & rest & h & kvp & _ & _ & _ & Hb)%main_request_Done.
  apply build_request_Done in Hb
    as (bp & log1 & body & hdr & _ & Has & _ & _ & -> & -> & ->).
  unfold assemble_bundle in Has. destruct (find_raw_body _ _) as [raw postFiles].
  apply assemble_headers in Has as [[-> ->]|(ct & Hct & -> & Hnone)].
  - split; [done|by left].
  - destruct body as [b|].
    + split; [done|]. by exists ct.
    + split; [done|]. right. by rewrite Hnone.
Qed.

Lemma X13_witness :
  exists req log',
    main_request (H := Sample.collaborators) true true ["x.org"; "a=1"] [] =
      (Done (Some req), log') /\
    match Body req with
    | Some b =>
      ContentLength req = Z.of_nat (String.length b) /\
      exists ct, ct ∈ content_types (H := Sample.collaborators) /\
        Headers req =
          <["Content-Length" := [Itoa (String.length b)]]> {["Content-Type" := [ct]]}
    | None =>
      ContentLength req = 0 /\
      (Headers req = ∅ \/ Headers req = {["Content-Type" := ["application/json"]]})
    end /\
    Body req = Some "a=1".
Proof.
  destruct (main_request (H := Sample.collaborators) true true ["x.org"; "a=1"] [])
    as [[[req|]| |] log'] eqn:Hm; try (vm_compute in Hm; discriminate Hm).
  exists req, log'. split; [reflexivity|]. split.
  - exact (X13_request_payload_headers (H := Sample.collaborators) _ _ _ _ _ _ Hm).
  - vm_compute in Hm. by injection Hm as <- <-.
Defined.

(** X14: the query of the request: without a Query token the query of the
    URL is left alone; with one, the query is encoded anew from the
    parameters of the URL followed, key by key, by the values of the Query
    tokens in the order of the command line. *)
Theorem X14_request_query `{Collaborators} (pf um : bool)
    (args log : list string) (req : Request) (log' : list string) :
  main_request pf um args log = (Done (Some req), log') ->
  let rest := tail (after_method args) in
  if decide (query_keys rest = []) then RawQuery req = None
  else exists qp,
    RawQuery req = Some (Values_Encode qp) /\
    forall k, default [] (qp !! k) =
              default [] (URL_Query (URL req) !! k) ++ tokens_of kvpQuery k rest.
Proof.
  intros (a0 & rest & h & kvp & Ha & _ & Hp & Hb)%main_request_Done.
  apply build_request_Done in Hb as (bp & log1 & body & hdr & _ & _ & Hu & Hq & _).
  cbv zeta. rewrite Ha. cbn [tail]. rewrite Hq, Hu.
  assert (forall k, is_Some (query kvp !! k) <-> k ∈ query_keys rest) as Hkeys.
  { intros k. rewrite (QueryFacts.parseArgs_loop_query_keys _ _ _ _ k Hp). simpl.
    rewrite lookup_empty. split; [intros [[? [=]]|]; done|by right]. }
  case_decide as Hnone.
  - assert (size (query kvp) = 0%nat) as ->; [|done].
    apply map_size_empty_iff, map_empty. intros k.
    apply eq_None_not_Some. rewrite Hkeys. intros Hin.
    rewrite Hnone in Hin. by apply elem_of_nil in Hin.
  - assert (size (query kvp) <> 0%nat) as Hsz.
    { destruct (query_keys rest) as [|k ks] eqn:Hks; [done|].
      apply (map_size_ne_0_lookup_2 _ k), Hkeys. by left. }
    destruct (Z.ltb_spec 0 (Z.of_nat (size (query kvp)))); [|lia].
    eexists. split; [done|]. intros k. rewrite add_query_lookup. f_equal.
    by destruct (ArgsFacts.parseArgs_query_header_json_file _ _ _ k Hp) as [<- _].
Qed.

Lemma X14_witness :
  exists req log' qp,
    main_request (H := Sample.collaborators) false true
      ["x.org"; "q==1"; "r==3"; "q==2"] [] = (Done (Some req), log') /\
    RawQuery req = Some (Values_Encode (Collaborators := Sample.collaborators) qp) /\
    default [] (qp !! "q") = ["1"; "2"].
Proof.
  destruct (main_request (H := Sample.collaborators) false true
              ["x.org"; "q==1"; "r==3"; "q==2"] [])
    as [[[req|]| |] log'] eqn:Hm; try (vm_compute in Hm; discriminate Hm).
  pose proof (X14_request_query (H := Sample.collaborators) _ _ _ _ _ _ Hm) as Hq.
  cbv zeta in Hq.
  destruct (decide (query_keys (tail (after_method ["x.org"; "q==1"; "r==3"; "q==2"])) = []))
    as [Hnil|_]; [vm_compute in Hnil; discriminate Hnil|].
  destruct Hq as (qp & Hraw & Hall).
  exists req, log', qp. split; [reflexivity|]. split; [exact Hraw|].
  rewrite (Hall "q"). vm_compute. reflexivity.
Defined.

(** X15: a request is built only when every file that the command line
    names, as the last File token of a key, was opened and read: a file
    that cannot be read never goes unnoticed. *)
Theorem X15_request_needs_readable_files `{Collaborators} (pf um : bool)
    (args log : list string) (req : Request) (log' : list string) :
  main_request pf um args log = (Done (Some req), log') ->
  forall k path,
    last (tokens_of kvpFile k (tail (after_method args))) = Some path ->
    readable path.
Proof.
  intros (a0 & rest & h & kvp & Ha & _ & Hp & Hb)%main_request_Done.
  apply build_request_Done in Hb as (bp & log1 & body & hdr & _ & Has & _).
  rewrite Ha. cbn [tail]. intros k path Hk.
  apply (assemble_bundle_readable _ _ _ _ _ _ _ _ Has k).
  destruct (ArgsFacts.parseArgs_query_header_json_file _ _ _ k Hp) as (_ & _ & _ & Hf).
  simpl in Hf. by rewrite Hf.
Qed.

Lemma X15_witness :
  exists req log',
    main_request (H := Sample.collaborators) false true
      ["x.org"; "f@missing"; "f@b"; "a=1"] [] = (Done (Some req), log') /\
    readable (H := Sample.collaborators) "b".
Proof.
  destruct (main_request (H := Sample.collaborators) false true
              ["x.org"; "f@missing"; "f@b"; "a=1"] [])
    as [[[req|]| |] log'] eqn:Hm; try (vm_compute in Hm; discriminate Hm).
  exists req, log'. split; [reflexivity|].
  apply (X15_request_needs_readable_files (H := Sample.collaborators) _ _ _ _ _ _ Hm "f").
  vm_compute. reflexivity.
Defined.



(** X27: the JSON body, without File and Query tokens and without the flag
    [-f]: the encoding of the body parameters, which hold for a key the
    decoded fragment of its last JSON token or, without a JSON token, the
    value of its last Body token as a string; without body parameters there
    is no body. *)
Theorem X27_json_body_members `{Collaborators} (um : bool) (args log : list string)
    (req : Request) (log' : list string) :
  main_request false um args log = (Done (Some req), log') ->
  let rest := tail (after_method args) in
  kvpFile ∉ kinds rest -> kvpQuery ∉ kinds rest ->
  exists bp : gmap string value,
    (forall k, bp !! k =
               match last (tokens_of kvpJSON k rest) with
               | Some raw => json_Unmarshal raw
               | None => VString <$> last (tokens_of kvpBody k rest)
               end) /\
    Body req = if decide (bp = ∅) then None else json_Marshal bp.
Proof.
  intros Hm rest Hnf Hnq.
  destruct (main_request_plain_body false um args log req log' Hm Hnf Hnq)
    as (bp & log1 & Hbp & Hbody).
  exists bp. split; [exact Hbp|]. rewrite Hbody. by case_decide.
Qed.

Lemma X27_witness :
  exists req log' (bp : gmap string value),
    main_request (H := Sample.collaborators) false true
      ["x.org"; "n=1"; "n=2"; "j:=true"; "n:x"] [] = (Done (Some req), log') /\
    bp !! "n" = Some (VString "2") /\ bp !! "j" = Some (VBool true) /\
    Body req = json_Marshal (Collaborators := Sample.collaborators) bp.
Proof.
  destruct (main_request (H := Sample.collaborators) false true
              ["x.org"; "n=1"; "n=2"; "j:=true"; "n:x"] [])
    as [[[req|]| |] log'] eqn:Hm; try (vm_compute in Hm; discriminate Hm).
  destruct (X27_json_body_members (H := Sample.collaborators) _ _ _ _ _ Hm)
    as (bp & Hbp & Hbody).
  - apply (bool_decide_unpack _). vm_compute. exact I.
  - apply (bool_decide_unpack _). vm_compute. exact I.
  - exists req, log', bp. split; [reflexivity|].
    assert (bp !! "n" = Some (VString "2")) as Hn
      by (rewrite (Hbp "n"); vm_compute; reflexivity).
    assert (bp !! "j" = Some (VBool true)) as Hj
      by (rewrite (Hbp "j"); vm_compute; reflexivity).
    split; [exact Hn|]. split; [exact Hj|].
    rewrite Hbody. destruct (decide (bp = ∅)) as [->|_]; [|reflexivity].
    rewrite lookup_empty in Hn. discriminate Hn.
Defined.

(** X28: the form body, without File and Query tokens and with the flag
    [-f]: the encoding of the form values, which hold for a key what
    [addValues] adds for its body parameter; without body parameters there
    is no body. *)
Theorem X28_form_body_fields `{Collaborators} (um : bool) (args log : list string)
    (req : Request) (log' : list string) :
  main_request true um args log = (Done (Some req), log') ->
  let rest := tail (after_method args) in
  kvpFile ∉ kinds rest -> kvpQuery ∉ kinds rest ->
  exists (bp : gmap string value) (values : Values),
    (forall k, bp !! k =
               match last (tokens_of kvpJSON k rest) with
               | Some raw => json_Unmarshal raw
               | None => VString <$> last (tokens_of kvpBody k rest)
               end) /\
    (forall k, default [] (values !! k) = from_option added [] (bp !! k)) /\
    Body req = if decide (bp = ∅) then None else Some (Values_Encode values).
Proof.
  intros Hm rest Hnf Hnq.
  destruct (main_request_plain_body true um args log req log' Hm Hnf Hnq)
    as (bp & log1 & Hbp & Hbody).
  exists bp, (fold_left (fun st kv => addValues st kv.1 kv.2) (map_range bp) (∅, log1)).1.
  split; [exact Hbp|]. split; [|exact Hbody].
  intros k. rewrite form_values_lookup by apply map_range_NoDup.
  simpl. rewrite lookup_empty. simpl.
  pose proof (list_find_map_range bp k) as Hf.
  destruct (list_find _ (map_range bp)) as [[i kv]|]; simpl in *;
    destruct (bp !! k); simplify_eq/=; done.
Qed.

Lemma X28_witness :
  exists req log' (values : Values),
    main_request (H := Sample.collaborators) true true
      ["x.org"; "n=1"; "n=2"; "j:=true"] [] = (Done (Some req), log') /\
    default [] (values !! "n") = ["2"] /\ default [] (values !! "j") = ["true"] /\
    Body req = Some (Values_Encode (Collaborators := Sample.collaborators) values).
Proof.
  destruct (main_request (H := Sample.collaborators) true true
              ["x.org"; "n=1"; "n=2"; "j:=true"] [])
    as [[[req|]| |] log'] eqn:Hm; try (vm_compute in Hm; discriminate Hm).
  destruct (X28_form_body_fields (H := Sample.collaborators) _ _ _ _ _ Hm)
    as (bp & values & Hbp & Hvalues & Hbody).
  - apply (bool_decide_unpack _). vm_compute. exact I.
  - apply (bool_decide_unpack _). vm_compute. exact I.
  - exists req, log', values. split; [reflexivity|].
    assert (bp !! "n" = Some (VString "2")) as Hn
      by (rewrite (Hbp "n"); vm_compute; reflexivity).
    assert (bp !! "j" = Some (VBool true)) as Hj
      by (rewrite (Hbp "j"); vm_compute; reflexivity).
    pose proof (Hvalues "n") as Hvn. pose proof (Hvalues "j") as Hvj.
    rewrite Hn in Hvn. rewrite Hj in Hvj.
    split; [exact Hvn|]. split; [exact Hvj|].
    rewrite Hbody. destruct (decide (bp = ∅)) as [->|_]; [|reflexivity].
    rewrite lookup_empty in Hn. discriminate Hn.
Defined.

(** ** Authentication, headers and printing *)

(** X17: the flag [-auth]: empty, it changes nothing; with a colon, the
    request gets the [Authorization] header [Basic ] followed by the
    encoding of the whole flag, so that the password is everything after
    the first colon; without a colon, [main] panics. *)
Theorem X17_auth_flag (base64 : string -> string) (auth : string) (hdr : Header) :
  set_auth base64 auth hdr =
  if bool_decide (auth = EmptyString) then Some hdr
  else if contains_byte ":" auth
       then Some (Header_Set hdr "Authorization" ("Basic " +:+ base64 auth))
       else None.
Proof.
  unfold set_auth, SetBasicAuth. case_bool_decide; [done|].
  pose proof (SplitN_colon_spec auth) as Hs.
  destruct (SplitN_colon auth) as [[u p]|].
  - destruct Hs as [-> Hu]. rewrite contains_byte_app. simpl.
    by rewrite orb_true_r.
  - by rewrite Hs.
Qed.

(** X18: the headers that are sent, for a canonical form of header names
    that leaves the three default names as they are: a header of the
    command line wins over the default headers and over the headers set with
    the body, under the canonical form of its name, when no other header of
    the command line has that canonical form; a name that no header of the
    command line has keeps its default value, or else the value set with
    the body. *)
Theorem X18_final_headers `{Collaborators} (canon : string -> string) (host : string)
    (user : gmap string string) (hdr : Header) :
  canon "User-Agent" = "User-Agent" -> canon "Accept" = "Accept" ->
  canon "Host" = "Host" ->
  (forall k v,
     user !! k = Some v ->
     (forall k', is_Some (user !! k') -> canon k' = canon k -> k' = k) ->
     final_headers canon host user hdr !! canon k = Some [v]) /\
  (forall c,
     (forall k, is_Some (user !! k) -> canon k <> c) ->
     final_headers canon host user hdr !! c =
     match defaultHeaders host !! c with
     | Some v => Some [v]
     | None => hdr !! c
     end).
Proof.
  intros Hua Hac Hho. unfold final_headers. split.
  - intros k v Hk Huniq. by apply set_headers_hit.
  - intros c Hc. rewrite set_headers_miss by done.
    assert (forall k, is_Some (defaultHeaders host !! k) -> canon k = k) as Hfix.
    { intros k [-> | [-> | ->]]%defaultHeaders_lookup; done. }
    destruct (defaultHeaders host !! c) as [v|] eqn:Hd.
    + rewrite <- (Hfix c) by by eexists. apply set_headers_hit; [done|].
      intros k' Hk'. rewrite (Hfix k' Hk'), (Hfix c); [done|by eexists].
    + apply set_headers_miss. intros k Hk. rewrite (Hfix k Hk). intros ->.
      rewrite Hd in Hk. by destruct Hk.
Qed.

Lemma X18_witness :
  let user : gmap string string := {["Accept" := "text/html"; "X-Id" := "7"]} in
  let hdr : Header := {["Content-Type" := ["application/json"]]} in
  final_headers (H := Sample.collaborators) id "x.org" user hdr !! "Accept"
    = Some ["text/html"] /\
  final_headers (H := Sample.collaborators) id "x.org" user hdr !! "Host"
    = Some ["x.org"] /\
  final_headers (H := Sample.collaborators) id "x.org" user hdr !! "Content-Type"
    = Some ["application/json"].
Proof.
  intros user hdr.
  destruct (X18_final_headers (H := Sample.collaborators) id "x.org" user hdr
              eq_refl eq_refl eq_refl) as [Hhit Hmiss].
  assert (forall c, c <> "Accept" -> c <> "X-Id" ->
                    forall k, is_Some (user !! k) -> id k <> c) as Hother.
  { intros c Hc1 Hc2 k [v Hv] <-. unfold user in Hv.
    apply lookup_insert_Some in Hv as [[<- _]|[_ Hv]]; [done|].
    apply lookup_singleton_Some in Hv as [<- _]. done. }
  split; [|split].
  - apply (Hhit "Accept" "text/html"); [reflexivity|]. intros k' _ Hk'. exact Hk'.
  - rewrite (Hmiss "Host") by (apply Hother; discriminate). reflexivity.
  - rewrite (Hmiss "Content-Type") by (apply Hother; discriminate). reflexivity.
Defined.

(** X19: without colours, [printHeaders] writes one line per header, the
    name, a colon, a blank and the first value (further values are not
    shown), in the sorted order of the names, whatever the order in which
    the map is visited; a header without a value makes it panic, with
    colours or without. *)
Theorem X19_printHeaders_lines `{Collaborators} (headers : Header) :
  ((forall k vs, headers !! k = Some vs -> vs <> []) ->
   printHeaders false headers =
   Wrote (String.concat EmptyString
            (map (plain_header_line headers) (sort_Strings (map_to_list headers).*1)))) /\
  StronglySorted string_le (sort_Strings (map_to_list headers).*1) /\
  sort_Strings (map_to_list headers).*1 ≡ₚ (map_to_list headers).*1 /\
  (forall useColor k, headers !! k = Some [] ->
                      exists out, printHeaders useColor headers = PanickedAfter out).
Proof.
  split_and!.
  - apply printHeaders_plain.
  - apply sort_Strings_sorted.
  - apply sort_Strings_perm.
  - intros useColor k. apply printHeaders_panics.
Qed.

Lemma X19_witness :
  printHeaders (H := Sample.collaborators) false
    {["Server" := ["go"]; "Accept" := ["a"; "b"]]} =
  Wrote ("Accept: a" +:+ nl +:+ "Server: go" +:+ nl) /\
  exists out,
    printHeaders (H := Sample.collaborators) true
      {["Server" := []; "Accept" := ["a"; "b"]]} = PanickedAfter out.
Proof.
  split.
  - rewrite (proj1 (X19_printHeaders_lines (H := Sample.collaborators)
                      {["Server" := ["go"]; "Accept" := ["a"; "b"]]})).
    + vm_compute. reflexivity.
    + intros k vs Hk.
      apply lookup_insert_Some in Hk as [[_ <-]|[_ Hk]]; [done|].
      apply lookup_singleton_Some in Hk as [_ <-]. done.
  - apply (proj2 (proj2 (proj2 (X19_printHeaders_lines (H := Sample.collaborators)
                                  {["Server" := []; "Accept" := ["a"; "b"]]})))
             true "Server").
    reflexivity.
Defined.

(** X20: with a terminal-colour package that writes nothing to the output,
    the three printers write with colours what they write without, for
    headers that all have a value and a status of three bytes or more; with
    colours a shorter status makes [printResponseHeaders] panic before it
    has written anything, and without colours it does not. *)
Theorem X20_printers_without_colour_codes `{Collaborators}
    (Method Path RawQuery Proto Status : string) (headers : Header) :
  colourless ->
  (forall k vs, headers !! k = Some vs -> vs <> []) ->
  printHeaders true headers = printHeaders false headers /\
  printRequestHeaders true Method Path RawQuery Proto headers =
    printRequestHeaders false Method Path RawQuery Proto headers /\
  ((3 <= len Status)%nat ->
   printResponseHeaders true Proto Status headers =
     printResponseHeaders false Proto Status headers) /\
  ((len Status < 3)%nat ->
   printResponseHeaders true Proto Status headers = PanickedAfter EmptyString /\
   exists out, printResponseHeaders false Proto Status headers = Wrote out).
Proof.
  intros Hcl Hne. pose proof Hcl as [Hc Hr].
  assert (printHeaders true headers = printHeaders false headers) as Hh.
  { unfold printHeaders. rewrite header_keys_sorted.
    apply print_header_lines_colourless; [done|].
    apply Forall_forall. intros k [vs Hk]%elem_of_header_keys.
    destruct vs as [|v vs]; [by destruct (Hne _ _ Hk)|]. by eexists _, _. }
  split_and!; [done| | |].
  - unfold printRequestHeaders. rewrite Hh, !Hc.
    by rewrite ?app_empty_l, ?app_assoc_str.
  - intros Hlen. unfold printResponseHeaders.
    apply Nat.leb_le in Hlen. rewrite Hlen, Hh, !Hc.
    rewrite <- (str_take_drop 3 Status) at 3.
    by rewrite ?app_empty_l, ?app_assoc_str.
  - intros Hlen. unfold printResponseHeaders.
    apply Nat.leb_gt in Hlen. rewrite Hlen, Hc. split; [done|].
    rewrite (printHeaders_plain _ Hne). by eexists.
Qed.

Lemma X20_witness :
  let headers : Header := {["Server" := ["go"]]} in
  printRequestHeaders (H := Sample.collaborators) true "GET" "" "q=1" "HTTP/1.1" headers =
    printRequestHeaders (H := Sample.collaborators) false "GET" "" "q=1" "HTTP/1.1" headers /\
  printResponseHeaders (H := Sample.collaborators) true "HTTP/1.1" "200 OK" headers =
    printResponseHeaders (H := Sample.collaborators) false "HTTP/1.1" "200 OK" headers /\
  printResponseHeaders (H := Sample.collaborators) true "HTTP/1.1" "OK" headers =
    PanickedAfter EmptyString.
Proof.
  intros headers.
  assert (colourless (H := Sample.collaborators)) as Hcl by (split; reflexivity).
  assert (forall k vs, headers !! k = Some vs -> vs <> []) as Hne.
  { intros k vs Hk. apply lookup_singleton_Some in Hk as [_ <-]. done. }
  destruct (X20_printers_without_colour_codes (H := Sample.collaborators)
              "GET" "" "q=1" "HTTP/1.1" "200 OK" headers Hcl Hne)
    as (_ & Hreq & Hlong & _).
  destruct (X20_printers_without_colour_codes (H := Sample.collaborators)
              "GET" "" "q=1" "HTTP/1.1" "OK" headers Hcl Hne)
    as (_ & _ & _ & Hshort).
  split; [exact Hreq|]. split.
  - apply Hlong. simpl. lia.
  - apply Hshort. simpl. lia.
Defined.

(** X21: what [main] writes from the response on (with the flag [-v] the
    request is echoed before it is sent; the echo is not part of this):
    with the flag [-raw] it is the body of the response alone, byte for
    byte, whatever the flags [-headers], [-body], [-color] and [-n]; with
    the flags [-headers] and [-body] together, and no [-raw], it is
    nothing. *)
Theorem X21_raw_output_and_no_output `{Collaborators} (json_Decode : string -> option value)
    (json_MarshalIndent : value -> option string)
    (f : flags) (Proto Status : string) (headers : Header) (body : string) :
  (rawOutput f = true -> show_response json_Decode json_MarshalIndent f Proto Status headers body = Wrote body) /\
  (rawOutput f = false -> onlyHeaders f = true -> onlyBody f = true ->
   show_response json_Decode json_MarshalIndent f Proto Status headers body = Wrote EmptyString).
Proof.
  unfold show_response, adjust_flags. split.
  - intros ->. simpl. unfold print_body. simpl. done.
  - intros -> -> ->. done.
Qed.

Lemma X21_witness :
  show_response (H := Sample.collaborators) Sample.Unmarshal (fun _ => None)
    (mk_flags true false true false true) "HTTP/1.1" "OK" ∅ "[]" = Wrote "[]" /\
  show_response (H := Sample.collaborators) Sample.Unmarshal (fun _ => None)
    (mk_flags true true true false false) "HTTP/1.1" "OK" ∅ "[]" = Wrote EmptyString.
Proof.
  split.
  - apply (proj1 (X21_raw_output_and_no_output (H := Sample.collaborators) _ _
                    (mk_flags true false true false true) _ _ _ _)). reflexivity.
  - apply (proj2 (X21_raw_output_and_no_output (H := Sample.collaborators) _ _
                    (mk_flags true true true false false) _ _ _ _)); reflexivity.
Defined.

(** X22: a body with a zero byte is not written to the terminal: without
    [-raw], the notice is written in its place when [-n] is given, or when
    the content type starts with neither [application/json] nor [text/];
    formatted output ends with two line feeds, that of [-n] does not. *)
Theorem X22_binary_body_is_not_shown `{Collaborators} (json_Decode : string -> option value)
    (json_MarshalIndent : value -> option string)
    (f : flags) (content_type body : string) :
  rawOutput f = false ->
  contains_byte "000" body = true ->
  noFormatting f = true \/
  (String.prefix "application/json" content_type = false /\
   String.prefix "text/" content_type = false) ->
  print_body json_Decode json_MarshalIndent (adjust_flags f) content_type body =
  msgNoBinaryToTerminal +:+ (if noFormatting f then EmptyString else nl +:+ nl).
Proof.
  intros Hraw Hz Hcase. unfold print_body, adjust_flags. rewrite Hraw. simpl.
  destruct (noFormatting f).
  - by rewrite Hz, app_empty_r.
  - destruct Hcase as [|[-> ->]]; [done|]. by rewrite Hz.
Qed.

Lemma X22_witness :
  print_body (H := Sample.collaborators) Sample.Unmarshal (fun _ => None)
    (adjust_flags (mk_flags false false true false false)) "image/png"
    (String "137" (String "000" "PNG")) =
  msgNoBinaryToTerminal +:+ nl +:+ nl.
Proof.
  apply (X22_binary_body_is_not_shown (H := Sample.collaborators) _ _
           (mk_flags false false true false false) "image/png"
           (String "137" (String "000" "PNG"))).
  - reflexivity.
  - reflexivity.
  - right. split; reflexivity.
Defined.

(** X23: a response whose content type starts with [application/json],
    without [-n] and [-raw]: what is written is the rendering of what was
    decoded from the body, by [printJSON] with colours and by the library
    without, followed by two line feeds; a body that does not decode is
    written as [null]. *)
Theorem X23_json_body `{Collaborators} (json_Decode : string -> option value)
    (json_MarshalIndent : value -> option string)
    (f : flags) (content_type body : string) :
  rawOutput f = false -> noFormatting f = false ->
  String.prefix "application/json" content_type = true ->
  print_body json_Decode json_MarshalIndent (adjust_flags f) content_type body =
  (if color_flag f then printJSON 1 (default VNil (json_Decode body)) false
   else default EmptyString (json_MarshalIndent (default VNil (json_Decode body))))
  +:+ nl +:+ nl /\
  (json_Decode body = None -> color_flag f = true ->
   print_body json_Decode json_MarshalIndent (adjust_flags f) content_type body =
   ct_ChangeColor ct_Blue false ct_None false +:+ "null" +:+ ct_ResetColor
   +:+ nl +:+ nl).
Proof.
  intros Hraw Hn Hct. unfold print_body, adjust_flags. rewrite Hraw, Hn. simpl.
  rewrite Hct. split; [done|]. intros -> ->. simpl. by rewrite !app_assoc_str.
Qed.

Lemma X23_witness :
  print_body (H := Sample.collaborators) Sample.Unmarshal (fun _ => None)
    (adjust_flags (mk_flags false false true false false))
    "application/json; charset=utf-8" "<html>" =
  "null" +:+ nl +:+ nl.
Proof.
  rewrite (proj2 (X23_json_body (H := Sample.collaborators) Sample.Unmarshal (fun _ => None)
                    (mk_flags false false true false false)
                    "application/json; charset=utf-8" "<html>"
                    eq_refl eq_refl eq_refl) eq_refl eq_refl).
  reflexivity.
Defined.

(** X26: with the flag [-n], and no [-raw], the colour flag has no effect:
    the headers of the response are printed without colours, and the body
    is written as it was received, also for a JSON content type, with no
    line feed added; only a body with a zero byte is replaced by the
    notice. *)
Theorem X26_no_formatting `{Collaborators} (json_Decode : string -> option value)
    (json_MarshalIndent : value -> option string)
    (f : flags) (Proto Status : string) (headers : Header) (body : string) :
  noFormatting f = true -> rawOutput f = false ->
  show_response json_Decode json_MarshalIndent f Proto Status headers body =
  and_then
    (if onlyBody f then Wrote EmptyString
     else printResponseHeaders false Proto Status headers)
    (Wrote (if onlyHeaders f then EmptyString
            else if contains_byte "000" body then msgNoBinaryToTerminal else body)).
Proof.
  intros Hn Hraw. unfold show_response, adjust_flags, print_body.
  rewrite Hn, Hraw. simpl. by destruct (onlyBody f), (onlyHeaders f).
Qed.

Lemma X26_witness :
  show_response (H := Sample.collaborators) Sample.Unmarshal (fun _ => None)
    (mk_flags false true true true false) "HTTP/1.1" "200 OK"
    {["Content-Type" := ["application/json"]]} "[]" =
  Wrote "[]".
Proof.
  rewrite (X26_no_formatting (H := Sample.collaborators) Sample.Unmarshal (fun _ => None)
             (mk_flags false true true true false) "HTTP/1.1" "200 OK"
             {["Content-Type" := ["application/json"]]} "[]" eq_refl eq_refl).
  reflexivity.
Defined.

(** ** The JSON renderer, continued *)

(** X24: a non-empty array is printed as an opening bracket and a line
    feed, one line per element in the order of the array, each line
    indented by [depth] units of four blanks and holding the element
    rendered one level deeper, the lines separated by a comma and a line
    feed, and then a line feed and the closing bracket indented by one unit
    less. *)
Theorem X24_printJSON_array `{Collaborators} (depth : Z) (e : value) (vs : list value)
    (isKey : bool) :
  printJSON depth (VSlice (e :: vs)) isKey =
  "[" +:+ line_feed
  +:+ String.concat ("," +:+ line_feed) (map (element_text depth) (e :: vs))
  +:+ line_feed +:+ indentation (depth - 1) +:+ "]".
Proof. apply printJSON_slice_text. Qed.

(** X25: the text that [printJSON] writes for a document does not depend
    on the order in which its objects are visited, at any depth of
    nesting. *)
Theorem X25_printJSON_of_same_document `{Collaborators} (v v' : value) :
  same_document v v' ->
  forall depth isKey, printJSON depth v isKey = printJSON depth v' isKey.
Proof.
  induction 1 as [v|m m' Hnd Hp Hm IH|vs vs' Hlen Hvs IH]; intros depth isKey.
  - done.
  - destruct m as [|p m], m' as [|p' m'].
    + done.
    + by apply Permutation_nil_r in Hp.
    + by apply Permutation_nil_l in Hp.
    + rewrite !printJSON_map.
      rewrite (sort_Strings_proper (p' :: m').*1 (p :: m).*1) by done.
      rewrite (map_index_printed depth (p :: m) (p' :: m') IH); [done|].
      intros k. by rewrite sort_Strings_perm.
  - destruct vs as [|e vs], vs' as [|e' vs']; try done.
    rewrite !printJSON_slice. do 2 f_equal. f_equal. f_equal.
    unfold element_line. change map with (@fmap list _). 
    apply list_eq. intros i. rewrite !list_lookup_fmap.
    destruct ((e :: vs) !! i) as [x|] eqn:Hx, ((e' :: vs') !! i) as [x'|] eqn:Hx'; simpl.
    + by rewrite (IH i x x' Hx Hx').
    + apply lookup_lt_Some in Hx. apply lookup_ge_None in Hx'. simpl in *. lia.
    + apply lookup_lt_Some in Hx'. apply lookup_ge_None in Hx. simpl in *. lia.
    + done.
Qed.

Lemma X25_witness :
  printJSON (H := Sample.collaborators) 1
    (VSlice [VMap [("b", VNumber "1"); ("a", VNil)]; VBool true]) false =
  printJSON (H := Sample.collaborators) 1
    (VSlice [VMap [("a", VNil); ("b", VNumber "1")]; VBool true]) false.
Proof.
  apply (X25_printJSON_of_same_document (H := Sample.collaborators)).
  apply same_array; [reflexivity|].
  intros [|[|i]] v v' Hv Hv'; simpl in Hv, Hv'.
  - injection Hv as <-. injection Hv' as <-. apply same_object.
    + simpl. apply NoDup_cons. split; [|apply NoDup_singleton].
      intros Hin%list_elem_of_singleton. discriminate Hin.
    + apply perm_swap.
    + intros k Hk. simpl in Hk.
      apply elem_of_cons in Hk as [->|Hk]; [apply same_scalar|].
      apply list_elem_of_singleton in Hk as ->. apply same_scalar.
  - injection Hv as <-. injection Hv' as <-. apply same_scalar.
  - discriminate Hv.
Defined.
